(** * Layout extraction pipeline: a shallow embedding and its properties

    The development follows the three Python modules of the repository:

    - [ExtractLayout]      (extract_layout.py): rows, row groups, grids, page
                           classification, per-page extraction;
    - [DetectControls]     (detect_controls.py): overlap removal, checkbox /
                           radio / input-box acceptance, cell grids, spans;
    - [CombinedExtractor]  (combined_extractor.py): control filtering, label
                           association, band rows and the page record.

    Conventions of the embedding.

    - A Python [int] is a [Z]; a Python [float] is a [Q], i.e. floating point
      is idealised as exact rational arithmetic.  Comparisons are the boolean
      ones of [Q]; [round] is round-half-to-even on the exact value.
    - A Python exception is the [Raise] branch of [result]; a function that
      cannot raise returns a plain value.
    - A dict with a fixed set of keys is a record; a key that may be absent
      is an [option] field.
    - What PyMuPDF and OpenCV compute (text spans merged into blocks, contours,
      circles, pixel means, line segments, projection bands) is input data:
      the records [Page] and [Image] carry those measurements. *)

From Stdlib Require Import ZArith QArith Qround Qabs Lia Lqa List String.
From stdpp Require Import base option list sorting.
Import ListNotations.

Set Default Proof Using "Type".

(** ** Python values and primitives *)

Module Py.

(** Exceptions the modelled code can raise. *)
Inductive exn : Type :=
| ZeroDivisionError
| KeyError (key : string)
| IndexError.

Inductive result (A : Type) : Type :=
| Ok (a : A)
| Raise (e : exn).
Arguments Ok {A} a.
Arguments Raise {A} e.

#[export] Instance result_ret : MRet result := fun A a => Ok a.
#[export] Instance result_bind : MBind result :=
  fun A B f m => match m with Ok a => f a | Raise e => Raise e end.
#[export] Instance result_fmap : FMap result :=
  fun A B f m => match m with Ok a => Ok (f a) | Raise e => Raise e end.

(** [for x in xs: acc = body(acc, x)] where the body may raise. *)
Fixpoint foldM {A S : Type} (body : S → A → result S) (xs : list A) (s : S)
  : result S :=
  match xs with
  | [] => Ok s
  | x :: xs' => s' ← body s x; foldM body xs' s'
  end.

(** [[f(x) for x in xs]] where [f] may raise. *)
Fixpoint mapM' {A B : Type} (f : A → result B) (xs : list A) : result (list B) :=
  match xs with
  | [] => Ok []
  | x :: xs' => y ← f x; ys ← mapM' f xs'; Ok (y :: ys)
  end.

Local Open Scope Q_scope.

Definition Qltb (a b : Q) : bool := negb (Qle_bool b a).
Definition Qgtb (a b : Q) : bool := Qltb b a.
Definition Qgeb (a b : Q) : bool := Qle_bool b a.

(** [a / b] on floats (or an int by a float): raises on a zero divisor. *)
Definition fdiv (a b : Q) : result Q :=
  if Qeq_bool b 0 then Raise ZeroDivisionError else Ok (a / b).

(** [round(q)]: nearest integer, ties to the even one. *)
Definition round (q : Q) : Z :=
  let f := Qfloor q in
  match Qcompare (q - inject_Z f) (1 # 2) with
  | Lt => f
  | Gt => (f + 1)%Z
  | Eq => if Z.even f then f else (f + 1)%Z
  end.

(** [round(q, d)]. *)
Definition round_to (d : nat) (q : Q) : Q :=
  inject_Z (round (q * inject_Z (10 ^ Z.of_nat d))) / inject_Z (10 ^ Z.of_nat d).

(** [int(q)]: truncation toward zero. *)
Definition int (q : Q) : Z :=
  if Qltb q 0 then Qceiling q else Qfloor q.

Definition len {A : Type} (l : list A) : Q := inject_Z (Z.of_nat (length l)).

Definition sum (l : list Q) : Q := fold_left Qplus l 0.

(** [min(xs)] and [max(xs)] of a sequence whose first element is [x]. *)
Definition min_from (x : Q) (xs : list Q) : Q :=
  fold_left (fun m y => if Qltb y m then y else m) xs x.
Definition max_from (x : Q) (xs : list Q) : Q :=
  fold_left (fun m y => if Qltb m y then y else m) xs x.

(** [min(xs)], [max(xs)]: [ValueError] cannot occur at the call sites, which
    all guard on a non-empty sequence; the empty case is given the value 0. *)
Definition min (xs : list Q) : Q :=
  match xs with [] => 0 | x :: xs' => min_from x xs' end.
Definition max (xs : list Q) : Q :=
  match xs with [] => 0 | x :: xs' => max_from x xs' end.

(** Stable sorting by a key: [a] is placed after every element already there
    that is not after it in the order [leb]. *)
Fixpoint insert_by {A K : Type} (leb : K → K → bool) (key : A → K) (a : A)
    (l : list A) : list A :=
  match l with
  | [] => [a]
  | b :: l' =>
      if leb (key b) (key a) then b :: insert_by leb key a l' else a :: l
  end.

Definition sort_by {A K : Type} (leb : K → K → bool) (key : A → K)
    (l : list A) : list A :=
  fold_left (fun acc a => insert_by leb key a acc) l [].

(** [sorted(l, key=key)] and [sorted(l, key=key, reverse=True)]; both keep the
    input order of elements with equal keys. *)
Definition sorted {A : Type} (key : A → Q) (l : list A) : list A :=
  sort_by Qle_bool key l.
Definition sorted_reverse {A : Type} (key : A → Q) (l : list A) : list A :=
  sort_by Qgeb key l.

(** [collections.Counter] over integer keys, in first-occurrence order. *)
Fixpoint counter_add (k : Z) (c : list (Z * nat)) : list (Z * nat) :=
  match c with
  | [] => [(k, 1%nat)]
  | (k', n) :: c' =>
      if Z.eqb k k' then (k', S n) :: c' else (k', n) :: counter_add k c'
  end.

Definition Counter (ks : list Z) : list (Z * nat) :=
  fold_left (fun c k => counter_add k c) ks [].

(** A [str] is its sequence of code points. *)
Definition str : Type := list N.

(** The two character classes Python reads from the Unicode database:
    [str.isspace] (used by [lstrip]) and the regex class [\d]. *)
Class UnicodeData : Type := {
  isspace : N → bool;
  isdecimal : N → bool
}.

Fixpoint lstrip `{UnicodeData} (s : str) : str :=
  match s with
  | [] => []
  | c :: s' => if isspace c then lstrip s' else s
  end.

End Py.

Import Py.

(** ** Shared data model *)

(** A [bbox] dict [{"x0", "y0", "x1", "y1"}]: over [Q] in document space
    (points), over [Z] in raster space (pixels). *)
Record BBox (A : Type) : Type := mkBBox { x0 : A; y0 : A; x1 : A; y1 : A }.
Arguments mkBBox {A} _ _ _ _.
Arguments x0 {A} _.
Arguments y0 {A} _.
Arguments x1 {A} _.
Arguments y1 {A} _.

(** A text block as [extract_page_blocks] returns it. *)
Record Block : Type := mkBlock {
  text : str;
  bbox : BBox Q;
  font_size : Q;
  font_name : string;
  is_bold : bool;
  id : nat
}.

(** *** What the collaborators deliver

    OpenCV's results on the rendered page, as the detectors read them. *)

(** [cv2.boundingRect]: [(x, y, w, h)]. *)
Record Rect : Type := mkRect { rect_x : Z; rect_y : Z; rect_w : Z; rect_h : Z }.

(** A contour of the binary image as [detect_checkboxes] measures it: its
    bounding rectangle, [len(approx)] of its polygon approximation, the mean
    intensity of the inner region and of the four edges of its ROI. *)
Record Contour : Type := mkContour {
  c_rect : Rect;
  c_approx : nat;
  c_center_mean : Q;
  c_edge_mean : Q
}.

(** A circle of [cv2.HoughCircles] after [np.uint16(np.around(...))], with the
    four pixel counts [detect_radio_buttons] takes from its two masks. *)
Record Circle : Type := mkCircle {
  circle_x : Z;
  circle_y : Z;
  circle_r : Z;
  perimeter_pixels : Z;
  center_pixels : Z;
  perimeter_area : Z;
  center_area : Z
}.

(** A contour of the dilated edge image as [detect_input_boxes] measures it:
    bounding rectangle, [cv2.contourArea] and [len(approx)]. *)
Record EdgeContour : Type := mkEdgeContour {
  e_rect : Rect;
  e_area : Q;
  e_approx : nat
}.

(** The rendered page: its shape and what OpenCV finds in it.  [projection]
    is the horizontal projection [np.sum(binary, axis=1)]. *)
Record Image : Type := mkImage {
  height : Z;
  width : Z;
  binary_contours : list Contour;
  hough_circles : option (list Circle);
  edge_contours : list EdgeContour;
  horizontal_rects : list Rect;
  vertical_rects : list Rect;
  projection : list Z
}.

(** A page of the PDF: [page.rect], the blocks [extract_page_blocks] assembles
    from its spans, and its rendering at 200 dpi. *)
Record Page : Type := mkPage {
  rect_width : Q;
  rect_height : Q;
  page_blocks : list Block;
  rendering : Image
}.

(** ** extract_layout.py *)

Module ExtractLayout.

Local Open Scope Q_scope.

Inductive row_type : Type :=
| t_empty | t_bullet_item | t_numbered_item | t_header | t_paragraph
| t_label | t_bullet_list | t_option_row | t_label_value | t_label_pair
| t_mixed.

Definition row_type_eqb (a b : row_type) : bool :=
  match a, b with
  | t_empty, t_empty | t_bullet_item, t_bullet_item
  | t_numbered_item, t_numbered_item | t_header, t_header
  | t_paragraph, t_paragraph | t_label, t_label
  | t_bullet_list, t_bullet_list | t_option_row, t_option_row
  | t_label_value, t_label_value | t_label_pair, t_label_pair
  | t_mixed, t_mixed => true
  | _, _ => false
  end.

(** The per-row ["source"] key; only band rows carry it. *)
Inductive row_source_tag : Type := visual_band.

(** A row dict: ["blocks"], ["y_min"], ["y_max"], and the keys ["source"] and
    ["type"] when they have been set. *)
Record Row : Type := mkRow {
  blocks : list Block;
  y_min : Q;
  y_max : Q;
  source : option row_source_tag;
  type : option row_type
}.

Definition y_center (b : Block) : Q := (y0 (bbox b) + y1 (bbox b)) / 2.

Definition block_x0 (b : Block) : Q := x0 (bbox b).

(** The dict appended to [rows] by [group_into_rows]. *)
Definition make_row (current_row : list Block) : Row :=
  let current_row := sorted block_x0 current_row in
  {| blocks := current_row;
     y_min := round_to 2 (Py.min (map (fun b => y0 (bbox b)) current_row));
     y_max := round_to 2 (Py.max (map (fun b => y1 (bbox b)) current_row));
     source := None;
     type := None |}.

(** The loop of [group_into_rows] over [blocks[1:]]; the state is [rows],
    [current_row] and [current_y_center].  [current_row] is never empty, so the
    final [if current_row:] always appends. *)
Fixpoint group_into_rows_loop (y_tolerance : Q) (rest : list Block)
    (rows : list Row) (current_row : list Block) (current_y_center : Q)
  : list Row :=
  match rest with
  | [] => rows ++ [make_row current_row]
  | block :: rest' =>
      let block_y_center := y_center block in
      if Qle_bool (Qabs (block_y_center - current_y_center)) y_tolerance then
        let current_row := current_row ++ [block] in
        group_into_rows_loop y_tolerance rest' rows current_row
          (Py.sum (map y_center current_row) / len current_row)
      else
        group_into_rows_loop y_tolerance rest' (rows ++ [make_row current_row])
          [block] block_y_center
  end.

Definition group_into_rows (blocks : list Block) (y_tolerance : Q) : list Row :=
  match blocks with
  | [] => []
  | b0 :: rest => group_into_rows_loop y_tolerance rest [] [b0] (y_center b0)
  end.

(** Code points of [bullet_chars]. *)
Definition bullet_chars : list N :=
  [0x2022; 0x25CF; 0x25CB; 0x25E6; 0x2023; 0x2043; 0x2D; 0x2013; 0x2014]%N.

Definition N_in (c : N) (cs : list N) : bool := existsb (N.eqb c) cs.

(** [s.startswith(tuple(bullet_chars))]. *)
Definition startswith_bullet (s : str) : bool :=
  match s with
  | [] => false
  | c :: _ => N_in c bullet_chars
  end.

Section Text.
Context `{UnicodeData}.

Fixpoint drop_decimals (s : str) : str :=
  match s with
  | [] => []
  | c :: s' => if isdecimal c then drop_decimals s' else s
  end.

(** [re.compile(r"^\d+[\)\.\:]").match(s)] as a truth value: a non-empty run
    of decimal digits followed by [)], [.] or [:]. *)
Definition numbered_pattern_match (s : str) : bool :=
  match s with
  | [] => false
  | c :: s' =>
      isdecimal c &&
      match drop_decimals s' with
      | [] => false
      | d :: _ => N_in d [0x29; 0x2E; 0x3A]%N
      end
  end.

Definition classify_row (row : Row) (page_width median_font_size : Q)
  : row_type :=
  let blocks := blocks row in
  match blocks with
  | [] => t_empty
  | first_block :: _ =>
      let row_x_span :=
        Py.max (map (fun b => x1 (bbox b)) blocks)
        - Py.min (map (fun b => x0 (bbox b)) blocks) in
      let num_blocks := length blocks in
      let has_bullet :=
        existsb (fun b => startswith_bullet (lstrip (text b))) blocks in
      let has_number :=
        existsb (fun b => numbered_pattern_match (lstrip (text b))) blocks in
      let is_bold := is_bold first_block in
      let is_large := Qgtb (font_size first_block) (median_font_size * 1.1) in
      let is_full_width := Qgtb row_x_span (page_width * 0.7) in
      let short_blocks :=
        List.filter (fun b => (length (text b) <? 20)%nat) blocks in
      let short_ratio := len short_blocks / len blocks in
      if (num_blocks =? 1)%nat then
        if has_bullet then t_bullet_item
        else if has_number then t_numbered_item
        else if is_bold || is_large then t_header
        else if (100 <? length (text first_block))%nat then t_paragraph
        else t_label
      else if has_bullet then t_bullet_list
      else if has_number && (1 <? num_blocks)%nat && Qgtb short_ratio 0.5
      then t_option_row
      else if (3 <=? num_blocks)%nat && Qgtb short_ratio 0.6 then t_option_row
      else if (num_blocks =? 2)%nat then
        match blocks with
        | b0 :: b1 :: _ =>
            if (length (text b1) * 2 <? length (text b0))%nat
            then t_label_value else t_label_pair
        | _ => t_label_pair
        end
      else if is_full_width && (num_blocks <=? 2)%nat then t_paragraph
      else t_mixed
  end.

(** The dict of [compute_stats]; [{}] for no blocks is [None]. *)
Record Stats : Type := mkStats {
  median_font_size : Q;
  min_font_size : Q;
  max_font_size : Q;
  total_blocks : nat
}.

Definition compute_stats (blocks : list Block) : option Stats :=
  match blocks with
  | [] => None
  | b0 :: rest =>
      let font_sizes := map font_size blocks in
      Some {|
        median_font_size :=
          round_to 2
            (default 0 (sorted (fun q => q) font_sizes
                        !! (length font_sizes / 2)%nat));
        min_font_size := round_to 2 (Py.min font_sizes);
        max_font_size := round_to 2 (Py.max font_sizes);
        total_blocks := length blocks |}
  end.

Definition set_type (row : Row) (t : row_type) : Row :=
  {| blocks := blocks row; y_min := y_min row; y_max := y_max row;
     source := source row; type := Some t |}.

Definition classify_rows (rows : list Row) (page_width : Q)
    (stats : option Stats) : list Row :=
  let median_font_size :=
    match stats with Some s => median_font_size s | None => 10 end in
  map (fun row => set_type row (classify_row row page_width median_font_size))
      rows.

End Text.

(** *** Row grouping *)

Definition block_width (b : Block) : Q := x1 (bbox b) - x0 (bbox b).

(** [max(x1) - min(x0) if blocks else 0]. *)
Definition total_width (blocks : list Block) : Q :=
  match blocks with
  | [] => 0
  | _ => Py.max (map (fun b => x1 (bbox b)) blocks)
         - Py.min (map (fun b => x0 (bbox b)) blocks)
  end.

(** [compatible_types.get(t, [])]. *)
Definition compatible_types (t : row_type) : list row_type :=
  match t with
  | t_label_value => [t_label_value; t_label_pair; t_mixed]
  | t_label_pair => [t_label_value; t_label_pair; t_mixed]
  | t_option_row => [t_option_row]
  | t_header => []
  | t_paragraph => []
  | t_bullet_item => [t_bullet_item]
  | t_bullet_list => [t_bullet_list; t_bullet_item]
  | t_numbered_item => [t_numbered_item]
  | t_label => [t_label; t_label_value]
  | t_mixed => [t_label_value; t_label_pair; t_mixed]
  | t_empty => []
  end.

Definition type_in (t : row_type) (ts : list row_type) : bool :=
  existsb (row_type_eqb t) ts.

(** [row.get("type", "mixed")]. *)
Definition get_type (row : Row) : row_type := default t_mixed (type row).

Definition can_group_rows (row1 row2 : Row) (x_tolerance width_tolerance : Q)
  : bool :=
  let blocks1 := blocks row1 in
  let blocks2 := blocks row2 in
  let n1 := Z.of_nat (length blocks1) in
  let n2 := Z.of_nat (length blocks2) in
  let count_diff := Z.abs (n1 - n2) in
  if (1 <? count_diff)%Z then false
  else if (count_diff =? 1)%Z
          && negb (existsb (fun b => Qltb (block_width b) 20)
                     (if (n2 <? n1)%Z then blocks1 else blocks2))
  then false
  else if match blocks1, blocks2 with
          | b1 :: _, b2 :: _ =>
              Qgtb (Qabs (x0 (bbox b1) - x0 (bbox b2))) x_tolerance
          | _, _ => false
          end
  then false
  else
    let width1 := total_width blocks1 in
    let width2 := total_width blocks2 in
    if Qgtb width1 0 && Qgtb width2 0
       && negb ((n1 =? 1)%Z && (n2 =? 1)%Z)
       && Qltb ((if Qltb width2 width1 then width2 else width1)
                / (if Qltb width1 width2 then width2 else width1))
               (1 - width_tolerance)
    then false
    else
      let type1 := get_type row1 in
      let type2 := get_type row2 in
      if negb (type_in type2 (compatible_types type1))
         && negb (type_in type1 (compatible_types type2))
         && negb (row_type_eqb type1 type2)
      then false
      else true.

Inductive group_hint : Type :=
| h_unknown | h_options | h_list | h_grid | h_stack.

Definition infer_group_hint (rows : list Row) : group_hint :=
  match rows with
  | [] => h_unknown
  | _ =>
      let types := map get_type rows in
      if forallb (row_type_eqb t_option_row) types then h_options
      else if forallb (fun t => type_in t [t_bullet_item; t_bullet_list]) types
      then h_list
      else if forallb (row_type_eqb t_numbered_item) types then h_list
      else if forallb
                (fun t => type_in t [t_label_value; t_label_pair; t_mixed])
                types
      then
        let avg_blocks :=
          Py.sum (map (fun r => len (blocks r)) rows) / len rows in
        if Qgeb avg_blocks 2 then h_grid else h_stack
      else h_grid
  end.

(** [(x0, x1)] column ranges. *)
Definition Column : Type := (Q * Q)%type.

(** One entry of a grid's ["rows"]. *)
Record GridRow : Type := mkGridRow {
  gr_y_min : Q;
  gr_y_max : Q;
  gr_type : option row_type;
  cells : list (option Block)
}.

(** The dict of [apply_grid_to_row_group]. *)
Record Grid : Type := mkGrid {
  columns : nat;
  column_boundaries : list Column;
  grid_rows : list GridRow
}.

(** A row-group dict; ["id"] is ["g<n>"] for the number [group_id]; ["grid"]
    is set by the caller. *)
Record RowGroup : Type := mkRowGroup {
  group_id : nat;
  row_indices : list nat;
  hint : group_hint;
  row_count : nat;
  grid : option Grid
}.

(** The block run twice in [group_consecutive_rows] to close a group.  A row
    of [current_group] is kept with its index in [rows]: the rows of [rows]
    are distinct objects, so the search [r is gr] finds that index. *)
Definition finalize_group (groups : list RowGroup) (group_counter : nat)
    (current_group : list (nat * Row)) : list RowGroup * nat :=
  if (2 <=? length current_group)%nat then
    let hint := infer_group_hint (map snd current_group) in
    let min_size :=
      match hint with h_grid => 3%nat | _ => 2%nat end in
    if (min_size <=? length current_group)%nat then
      (groups ++ [{| group_id := group_counter;
                     row_indices := map fst current_group;
                     hint := hint;
                     row_count := length current_group;
                     grid := None |}],
       S group_counter)
    else (groups, group_counter)
  else (groups, group_counter).

(** The loop over [rows[1:]]; [current_group] is [g0 :: gs], never empty, and
    [current_group[-1]] is [List.last gs g0]. *)
Fixpoint group_consecutive_rows_loop (x_tolerance : Q) (rest : list (nat * Row))
    (groups : list RowGroup) (group_counter : nat)
    (g0 : nat * Row) (gs : list (nat * Row)) : list RowGroup :=
  match rest with
  | [] => fst (finalize_group groups group_counter (g0 :: gs))
  | row :: rest' =>
      if can_group_rows (snd (List.last gs g0)) (snd row) x_tolerance 0.15
      then group_consecutive_rows_loop x_tolerance rest' groups group_counter
             g0 (gs ++ [row])
      else
        let '(groups, group_counter) :=
          finalize_group groups group_counter (g0 :: gs) in
        group_consecutive_rows_loop x_tolerance rest' groups group_counter
          row []
  end.

Definition enumerate {A : Type} (l : list A) : list (nat * A) :=
  combine (seq 0 (length l)) l.

Definition group_consecutive_rows (rows : list Row) (x_tolerance : Q)
  : list RowGroup :=
  match enumerate rows with
  | [] | [_] => []
  | r0 :: rest => group_consecutive_rows_loop x_tolerance rest [] 0 r0 []
  end.

(** *** Grid inference *)

(** The loop of [cluster_positions] over [xs[1:]]: closed clusters, the open
    cluster [clusters[-1]] and its last element [clusters[-1][-1]]. *)
Fixpoint cluster_loop (tolerance : Q) (rest : list Q) (clusters : list (list Q))
    (current : list Q) (current_last : Q) : list (list Q) :=
  match rest with
  | [] => clusters ++ [current]
  | x :: rest' =>
      if Qle_bool (Qabs (x - current_last)) tolerance
      then cluster_loop tolerance rest' clusters (current ++ [x]) x
      else cluster_loop tolerance rest' (clusters ++ [current]) [x] x
  end.

Definition mean (cluster : list Q) : Q := Py.sum cluster / len cluster.

Definition cluster_positions (xs : list Q) (tolerance : Q) : list Q :=
  match sorted (fun x => x) xs with
  | [] => []
  | x :: rest => map mean (cluster_loop tolerance rest [] [x] x)
  end.

(** [[(boundaries[i], boundaries[i + 1]) for i in range(len(boundaries) - 1)]]. *)
Fixpoint consecutive_pairs (boundaries : list Q) : list Column :=
  match boundaries with
  | a :: (b :: _) as rest => (a, b) :: consecutive_pairs rest
  | _ => []
  end.

Definition infer_grid_columns (row_group_rows : list Row) (tolerance : Q)
  : list Column :=
  let all_x :=
    concat (map (fun row =>
              concat (map (fun block => [x0 (bbox block); x1 (bbox block)])
                          (blocks row)))
            row_group_rows) in
  match all_x with
  | [] => []
  | _ =>
      let boundaries := cluster_positions all_x tolerance in
      if (length boundaries <? 2)%nat then []
      else consecutive_pairs boundaries
  end.

(** The inner loop of [map_row_to_grid] over [enumerate(columns)], from index
    [i] on, with the variables [start_col] and [end_col]. *)
Fixpoint overlap_cols (block_x0 block_x1 : Q) (columns : list Column) (i : nat)
    (start_col end_col : option nat) : option nat * option nat :=
  match columns with
  | [] => (start_col, end_col)
  | (col_x0, col_x1) :: columns' =>
      if Qltb block_x0 col_x1 && Qgtb block_x1 col_x0
      then overlap_cols block_x0 block_x1 columns' (S i)
             (match start_col with None => Some i | Some _ => start_col end)
             (Some i)
      else overlap_cols block_x0 block_x1 columns' (S i) start_col end_col
  end.

Definition start_col_of (block : Block) (columns : list Column) : option nat :=
  fst (overlap_cols (x0 (bbox block)) (x1 (bbox block)) columns 0 None None).

(** One iteration of the loop over the row's blocks. *)
Definition place_block (columns : list Column) (cells : list (option Block))
    (block : Block) : list (option Block) :=
  match start_col_of block columns with
  | Some start_col => <[start_col := Some block]> cells
  | None => cells
  end.

Definition map_row_to_grid (row : Row) (columns : list Column)
  : list (option Block) :=
  match columns with
  | [] => []
  | _ => fold_left (place_block columns) (blocks row)
           (replicate (length columns) None)
  end.

Definition apply_grid_to_row_group (rows : list Row) (row_indices : list nat)
  : option Grid :=
  match row_indices with
  | [] => None
  | _ =>
      let group_rows := omap (fun i => rows !! i) row_indices in
      match group_rows with
      | [] => None
      | _ =>
          let columns := infer_grid_columns group_rows 15 in
          match columns with
          | [] => None
          | _ =>
              Some {|
                columns := length columns;
                column_boundaries :=
                  map (fun '(x0, x1) => (round_to 2 x0, round_to 2 x1)) columns;
                grid_rows :=
                  map (fun row =>
                         {| gr_y_min := y_min row;
                            gr_y_max := y_max row;
                            gr_type := type row;
                            cells := map_row_to_grid row columns |})
                      group_rows |}
          end
      end
  end.

(** The loop of [detect_columns] over [x_positions[1:]]. *)
Fixpoint detect_columns_loop (x_tolerance : Q) (rest : list Q) (columns : list Q)
    (current : list Q) (current_last : Q) : list Q :=
  match rest with
  | [] => columns ++ [round_to 2 (mean current)]
  | x :: rest' =>
      if Qltb (x - current_last) x_tolerance
      then detect_columns_loop x_tolerance rest' columns (current ++ [x]) x
      else detect_columns_loop x_tolerance rest'
             (columns ++ [round_to 2 (mean current)]) [x] x
  end.

Definition detect_columns (rows : list Row) (x_tolerance : Q) : list Q :=
  let x_positions := concat (map (fun row => map block_x0 (blocks row)) rows) in
  match sorted (fun x => x) x_positions with
  | [] => []
  | x :: rest => detect_columns_loop x_tolerance rest [] [x] x
  end.

(** *** Page classification *)

Inductive page_type : Type := pt_form | pt_table | pt_text.

Inductive reason : Type :=
| r_no_blocks | r_has_controls | r_high_density_no_controls | r_multi_column
| r_grid_alignment | r_prose_layout | r_default.

(** The ["signals"] dict. *)
Record Signals : Type := mkSignals {
  s_control_count : Z;
  s_column_count : Z;
  s_text_density : Q;
  s_avg_width_ratio : Q;
  s_alignment_score : Q;
  s_block_count : nat
}.

(** The dict of [classify_page_type]; ["signals": {}] is [None]. *)
Record Classification : Type := mkClassification {
  c_page_type : page_type;
  signals : option Signals;
  c_reason : reason
}.

(** The five quantities the decision reads, before rounding. *)
Definition column_count_of (blocks : list Block) (columns : list Q) : Z :=
  match columns with
  | [] => 1
  | _ =>
      let x_positions :=
        map (fun b => (round (x0 (bbox b) / 10) * 10)%Z) blocks in
      let col_usage := Counter x_positions in
      let significant_cols :=
        length (List.filter (fun '(c, count) => (3 <=? count)%nat) col_usage) in
      Z.max 1 (Z.of_nat significant_cols / 3)
  end.

Definition width_ratio_of (blocks : list Block) (page_width : Q) : Q :=
  let avg_width := Py.sum (map block_width blocks) / len blocks in
  if Qgtb page_width 0 then avg_width / page_width else 0.

Definition alignment_score_of (blocks : list Block) : Q :=
  let x_starts := map (fun b => round (x0 (bbox b))) blocks in
  let x_counts := Counter x_starts in
  let aligned_blocks :=
    fold_left Nat.add
      (List.filter (fun c => (3 <=? c)%nat) (map snd x_counts)) 0%nat in
  inject_Z (Z.of_nat aligned_blocks) / len blocks.

Definition classify_page_type (blocks : list Block) (columns : list Q)
    (page_width page_height : Q) (control_count : Z) : result Classification :=
  match blocks with
  | [] => Ok {| c_page_type := pt_text; signals := None;
                c_reason := r_no_blocks |}
  | _ =>
      let page_area := page_width * page_height in
      let has_controls := (0 <? control_count)%Z in
      let column_count := column_count_of blocks columns in
      text_density ← fdiv (len blocks) (page_area / 10000);
      let width_ratio := width_ratio_of blocks page_width in
      let alignment_score := alignment_score_of blocks in
      let signals :=
        Some {| s_control_count := control_count;
                s_column_count := column_count;
                s_text_density := round_to 3 text_density;
                s_avg_width_ratio := round_to 3 width_ratio;
                s_alignment_score := round_to 3 alignment_score;
                s_block_count := length blocks |} in
      let answer t r :=
        Ok {| c_page_type := t; signals := signals; c_reason := r |} in
      if (2 <=? control_count)%Z then answer pt_form r_has_controls
      else if Qgtb text_density 5 && negb has_controls
      then answer pt_text r_high_density_no_controls
      else if (2 <=? column_count)%Z && negb has_controls
      then answer pt_text r_multi_column
      else if Qgtb alignment_score 0.4 && Qltb width_ratio 0.6
              && Qltb text_density 5
      then answer pt_form r_grid_alignment
      else if Qgtb width_ratio 0.7 && Qgtb text_density 0.5
      then answer pt_text r_prose_layout
      else answer pt_form r_default
  end.

(** *** Per-page extraction *)

(** One entry of ["pages"]. *)
Record PageLayout : Type := mkPageLayout {
  pl_page_number : Z;
  pl_width : Q;
  pl_height : Q;
  pl_blocks : list Block;
  pl_rows : list Row;
  pl_columns : list Q;
  pl_stats : option Stats
}.

(** The dict of [extract_pdf], without the ["source"] path. *)
Record Layout : Type := mkLayout {
  total_pages : nat;
  pages : list PageLayout
}.

Section Extract.
Context `{UnicodeData}.

(** The body of the loop of [extract_pdf] for a page index in range. *)
Definition extract_page (page_idx : Z) (page : Page) : PageLayout :=
  let page_width := round_to 2 (rect_width page) in
  let page_height := round_to 2 (rect_height page) in
  let blocks := page_blocks page in
  let rows := group_into_rows blocks 3 in
  let stats := compute_stats blocks in
  let rows := classify_rows rows page_width stats in
  let columns := detect_columns rows 10 in
  {| pl_page_number := (page_idx + 1)%Z;
     pl_width := page_width;
     pl_height := page_height;
     pl_blocks := blocks;
     pl_rows := rows;
     pl_columns := columns;
     pl_stats := stats |}.

(** [extract_pdf(pdf_path, page_num)] on the opened document [doc]. *)
Definition extract_pdf (doc : list Page) (page_num : option Z) : Layout :=
  let page_indices :=
    match page_num with
    | Some n => [(n - 1)%Z]
    | None => map Z.of_nat (seq 0 (length doc))
    end in
  {| total_pages := match page_num with None => length doc | Some _ => 1 end;
     pages :=
       omap (fun page_idx =>
               if (page_idx <? 0)%Z || (Z.of_nat (length doc) <=? page_idx)%Z
               then None
               else extract_page page_idx <$> doc !! Z.to_nat page_idx)
            page_indices |}.

End Extract.

End ExtractLayout.

(** ** detect_controls.py *)

Module DetectControls.

Local Open Scope Q_scope.

Inductive control_type : Type := checkbox | radio | input.

(** The dict of [compute_control_features] (set by the combined extractor). *)
Record Features : Type := mkFeatures {
  width_px : Z;
  height_px : Z;
  aspect_ratio : Q;
  width_pt : Q;
  height_pt : Q
}.

(** A detection dict.  ["type"], ["bbox"] (raster space) and ["confidence"]
    are always there; ["checked"] for a checkbox; ["center"], ["radius"] and
    ["selected"] for a radio button; ["features"] once it has been set. *)
Record Control : Type := mkControl {
  c_type : control_type;
  c_bbox : BBox Z;
  confidence : Q;
  checked : option bool;
  center : option (Z * Z);
  radius : option Z;
  selected : option bool;
  features : option Features
}.

(** *** Overlap removal *)

(** The test of the inner loop of [remove_overlapping] for the detection with
    box [bbox] against the kept box [kept_bbox]. *)
Definition overlaps (iou_threshold : Q) (bbox kept_bbox : BBox Z) : bool :=
  let ix0 := Z.max (x0 bbox) (x0 kept_bbox) in
  let iy0 := Z.max (y0 bbox) (y0 kept_bbox) in
  let ix1 := Z.min (x1 bbox) (x1 kept_bbox) in
  let iy1 := Z.min (y1 bbox) (y1 kept_bbox) in
  if (ix0 <? ix1)%Z && (iy0 <? iy1)%Z then
    let intersection := ((ix1 - ix0) * (iy1 - iy0))%Z in
    let area1 := ((x1 bbox - x0 bbox) * (y1 bbox - y0 bbox))%Z in
    let area2 :=
      ((x1 kept_bbox - x0 kept_bbox) * (y1 kept_bbox - y0 kept_bbox))%Z in
    let union := (area1 + area2 - intersection)%Z in
    let iou :=
      if (0 <? union)%Z then inject_Z intersection / inject_Z union else 0 in
    Qgtb iou iou_threshold
  else false.

(** The loop over the sorted detections; [keep] is in insertion order. *)
Fixpoint remove_overlapping_loop (iou_threshold : Q) (controls keep : list Control)
  : list Control :=
  match controls with
  | [] => keep
  | control :: controls' =>
      if existsb (fun kept => overlaps iou_threshold (c_bbox control) (c_bbox kept))
           keep
      then remove_overlapping_loop iou_threshold controls' keep
      else remove_overlapping_loop iou_threshold controls' (keep ++ [control])
  end.

Definition remove_overlapping (controls : list Control) (iou_threshold : Q)
  : list Control :=
  match controls with
  | [] => controls
  | _ => remove_overlapping_loop iou_threshold
           (sorted_reverse confidence controls) []
  end.

(** *** Shape acceptance *)

(** [w / h if h > 0 else 0] on ints. *)
Definition ratio_or_zero (w h : Z) : Q :=
  if (0 <? h)%Z then inject_Z w / inject_Z h else 0.

(** The body of the loop of [detect_checkboxes] for one contour: the checkbox
    dict appended, if any.  The ROI [gray[y:y+h, x:x+w]] of a bounding
    rectangle has [h * w] pixels and its inner region
    [roi[b:-b, b:-b]] has [(h - 2b) * (w - 2b)]. *)
Definition checkbox_of_contour (min_size max_size : Z) (contour : Contour)
  : option Control :=
  let '(mkRect x y w h) := c_rect contour in
  if (w <? min_size)%Z || (h <? min_size)%Z || (max_size <? w)%Z
     || (max_size <? h)%Z then None
  else
    let aspect_ratio := ratio_or_zero w h in
    if Qltb aspect_ratio 0.7 || Qgtb aspect_ratio 1.4 then None
    else if (c_approx contour <? 4)%nat || (8 <? c_approx contour)%nat then None
    else if (Z.max 0 h * Z.max 0 w =? 0)%Z then None
    else
      let border_width := Z.max 2 (Z.min w h / 4) in
      if (2 * border_width <? w)%Z && (2 * border_width <? h)%Z
         && (0 <? (h - 2 * border_width) * (w - 2 * border_width))%Z
      then
        let is_checked := Qltb (c_center_mean contour) 220 in
        let has_border :=
          Qltb (c_edge_mean contour) (c_center_mean contour + 30) in
        if has_border then
          Some {| c_type := checkbox;
                  c_bbox := mkBBox x y (x + w)%Z (y + h)%Z;
                  confidence := round_to 2 0.7;
                  checked := Some is_checked;
                  center := None; radius := None; selected := None;
                  features := None |}
        else None
      else None.

Definition detect_checkboxes (image : Image) (min_size max_size : Z)
  : list Control :=
  remove_overlapping
    (omap (checkbox_of_contour min_size max_size) (binary_contours image))
    0.3.

(** The body of the loop of [detect_radio_buttons] for one circle. *)
Definition radio_of_circle (image : Image) (circle : Circle) : option Control :=
  let cx := circle_x circle in
  let cy := circle_y circle in
  let r := circle_r circle in
  let '(bx0, by0) := ((cx - r)%Z, (cy - r)%Z) in
  let '(bx1, by1) := ((cx + r)%Z, (cy + r)%Z) in
  if (bx0 <? 0)%Z || (by0 <? 0)%Z || (width image <=? bx1)%Z
     || (height image <=? by1)%Z then None
  else
    let perimeter_ratio :=
      ratio_or_zero (perimeter_pixels circle) (perimeter_area circle) in
    let center_ratio :=
      ratio_or_zero (center_pixels circle) (center_area circle) in
    let has_border := Qgtb perimeter_ratio 0.25 in
    let is_hollow := Qltb center_ratio 0.35 in
    let is_filled := Qgtb center_ratio 0.5 in
    if has_border && (is_hollow || is_filled) then
      Some {| c_type := radio;
              c_bbox := mkBBox bx0 by0 bx1 by1;
              confidence :=
                round_to 2 (if Qltb 1 (perimeter_ratio + 0.3) then 1
                            else perimeter_ratio + 0.3);
              checked := None;
              center := Some (cx, cy); radius := Some r;
              selected := Some is_filled;
              features := None |}
    else None.

(** No overlap removal follows the loop here. *)
Definition detect_radio_buttons (image : Image) : list Control :=
  match hough_circles image with
  | Some circles => omap (radio_of_circle image) circles
  | None => []
  end.

(** The body of the loop of [detect_input_boxes] for one contour. *)
Definition input_of_contour (min_width min_height max_height : Z)
    (contour : EdgeContour) : option Control :=
  let '(mkRect x y w h) := e_rect contour in
  if (w <? min_width)%Z || (h <? min_height)%Z || (max_height <? h)%Z then None
  else if Qltb (ratio_or_zero w h) 2 then None
  else if Qltb (e_area contour) 100 then None
  else if (4 <=? e_approx contour)%nat && (e_approx contour <=? 8)%nat then
    let rect_area := (w * h)%Z in
    let extent :=
      if (0 <? rect_area)%Z then e_area contour / inject_Z rect_area else 0 in
    if Qgtb extent 0.3 then
      Some {| c_type := input;
              c_bbox := mkBBox x y (x + w)%Z (y + h)%Z;
              confidence := round_to 2 extent;
              checked := None; center := None; radius := None;
              selected := None; features := None |}
    else None
  else None.

Definition detect_input_boxes (image : Image)
    (min_width min_height max_height : Z) : list Control :=
  remove_overlapping
    (omap (input_of_contour min_width min_height max_height)
          (edge_contours image))
    0.5.

(** *** Lines and bands *)

Record HLine : Type := mkHLine { h_y : Z; h_x0 : Z; h_x1 : Z }.
Record VLine : Type := mkVLine { v_x : Z; v_y0 : Z; v_y1 : Z }.

Record TableBorders : Type := mkTableBorders {
  horizontal : list HLine;
  vertical : list VLine
}.

Definition detect_table_borders (image : Image) (min_line_length : Z)
  : TableBorders :=
  let h_lines :=
    omap (fun '(mkRect x y w h) =>
            if (min_line_length <? w)%Z
            then Some (mkHLine (y + h / 2)%Z x (x + w)%Z) else None)
         (horizontal_rects image) in
  let v_lines :=
    omap (fun '(mkRect x y w h) =>
            if (min_line_length <? h)%Z
            then Some (mkVLine (x + w / 2)%Z y (y + h)%Z) else None)
         (vertical_rects image) in
  {| horizontal := sorted (fun l => inject_Z (h_y l)) h_lines;
     vertical := sorted (fun l => inject_Z (v_x l)) v_lines |}.

(** A band dict [{"y0", "y1"}] in raster rows. *)
Record Band : Type := mkBand { band_y0 : Z; band_y1 : Z }.

(** The scan of [detect_row_bands] over [range(len(is_content))] from row [y]
    on, with the variables [bands], [in_content] and [start_y]; the test after
    the loop is the [[]] case. *)
Fixpoint scan_bands (min_row_height : Z) (is_content : list bool) (y : Z)
    (bands : list Band) (in_content : bool) (start_y : Z) : list Band :=
  match is_content with
  | [] =>
      if in_content && (min_row_height <=? y - start_y)%Z
      then bands ++ [mkBand start_y y] else bands
  | c :: rest =>
      if c && negb in_content
      then scan_bands min_row_height rest (y + 1) bands true y
      else if negb c && in_content
      then scan_bands min_row_height rest (y + 1)
             (if (min_row_height <=? y - start_y)%Z
              then bands ++ [mkBand start_y y] else bands)
             false start_y
      else scan_bands min_row_height rest (y + 1) bands in_content start_y
  end.

(** The merging loop over [bands[1:]]; [merged] is [done ++ [last]]. *)
Fixpoint merge_bands (min_gap : Z) (rest : list Band) (done : list Band)
    (last : Band) : list Band :=
  match rest with
  | [] => done ++ [last]
  | band :: rest' =>
      if (band_y0 band - band_y1 last <? min_gap)%Z
      then merge_bands min_gap rest' done (mkBand (band_y0 last) (band_y1 band))
      else merge_bands min_gap rest' (done ++ [last]) band
  end.

Definition detect_row_bands (image : Image) (min_gap min_row_height : Z)
  : list Band :=
  let projection := projection image in
  let top := fold_left Z.max projection 0%Z in
  let max_val := if (0 <? top)%Z then top else 1%Z in
  let is_content :=
    map (fun p => Qgtb (inject_Z p / inject_Z max_val) 0.02) projection in
  let bands := scan_bands min_row_height is_content 0 [] false 0 in
  match bands with
  | b0 :: (_ :: _) as rest => merge_bands min_gap rest [] b0
  | _ => bands
  end.

(** *** Cell grids *)

(** The nested [cluster_positions] of [build_cell_grid_from_lines]: integer
    positions, [int] of each cluster's mean. *)
Fixpoint cluster_loop (tolerance : Z) (rest : list Z) (clusters : list (list Z))
    (current : list Z) (current_last : Z) : list (list Z) :=
  match rest with
  | [] => clusters ++ [current]
  | pos :: rest' =>
      if (Z.abs (pos - current_last) <=? tolerance)%Z
      then cluster_loop tolerance rest' clusters (current ++ [pos]) pos
      else cluster_loop tolerance rest' (clusters ++ [current]) [pos] pos
  end.

Definition int_mean (c : list Z) : Z :=
  int (inject_Z (fold_left Z.add c 0%Z) / len c).

Definition cluster_positions (positions : list Z) (tolerance : Z) : list Z :=
  match sorted inject_Z positions with
  | [] => []
  | p :: rest => map int_mean (cluster_loop tolerance rest [] [p] p)
  end.

(** A cell dict; ["content"] is there once [assign_text_to_cells] has
    initialised it. *)
Record Cell : Type := mkCell {
  row : nat;
  col : nat;
  cell_bbox : BBox Z;
  content : option (list Block)
}.

Record CellGrid : Type := mkCellGrid {
  row_boundaries : list Z;
  col_boundaries : list Z;
  num_rows : nat;
  num_cols : nat;
  cells : list (list Cell)
}.

(** [[(b[i], b[i + 1]) for i in range(len(b) - 1)]] with the index [i]. *)
Fixpoint spans_of (i : nat) (boundaries : list Z) : list (nat * (Z * Z)) :=
  match boundaries with
  | a :: (b :: _) as rest => (i, (a, b)) :: spans_of (S i) rest
  | _ => []
  end.

(** [None] is the Python [None]. *)
Definition build_cell_grid_from_lines (h_lines : list HLine)
    (v_lines : list VLine) (tolerance : Z) : option CellGrid :=
  match h_lines, v_lines with
  | [], _ | _, [] => None
  | _, _ =>
      let y_positions := map h_y h_lines in
      let x_positions := map v_x v_lines in
      let row_boundaries := cluster_positions y_positions tolerance in
      let col_boundaries := cluster_positions x_positions tolerance in
      if (length row_boundaries <? 2)%nat || (length col_boundaries <? 2)%nat
      then None
      else
        Some {|
          row_boundaries := row_boundaries;
          col_boundaries := col_boundaries;
          num_rows := (length row_boundaries - 1)%nat;
          num_cols := (length col_boundaries - 1)%nat;
          cells :=
            map (fun '(row_idx, (cy0, cy1)) =>
                   map (fun '(col_idx, (cx0, cx1)) =>
                          {| row := row_idx; col := col_idx;
                             cell_bbox := mkBBox cx0 cy0 cx1 cy1;
                             content := None |})
                       (spans_of 0 col_boundaries))
                (spans_of 0 row_boundaries) |}
  end.

Definition block_in_cell (scale_factor : Q) (block : Block) (cell : Cell) : bool :=
  let bx0 := x0 (bbox block) * scale_factor in
  let by0 := y0 (bbox block) * scale_factor in
  let bx1 := x1 (bbox block) * scale_factor in
  let by1 := y1 (bbox block) * scale_factor in
  let block_center_x := (bx0 + bx1) / 2 in
  let block_center_y := (by0 + by1) / 2 in
  let cb := cell_bbox cell in
  Qle_bool (inject_Z (x0 cb)) block_center_x
  && Qle_bool block_center_x (inject_Z (x1 cb))
  && Qle_bool (inject_Z (y0 cb)) block_center_y
  && Qle_bool block_center_y (inject_Z (y1 cb)).

Definition append_content (block : Block) (cell : Cell) : Cell :=
  {| row := row cell; col := col cell; cell_bbox := cell_bbox cell;
     content := Some (default [] (content cell) ++ [block]) |}.

(** The two nested loops with their [break]s: the block goes to the first
    cell, in row-major order, that contains its centre. *)
Fixpoint assign_in_row (scale_factor : Q) (block : Block) (cells : list Cell)
  : option (list Cell) :=
  match cells with
  | [] => None
  | cell :: rest =>
      if block_in_cell scale_factor block cell
      then Some (append_content block cell :: rest)
      else cons cell <$> assign_in_row scale_factor block rest
  end.

Fixpoint assign_block (scale_factor : Q) (block : Block)
    (cells : list (list Cell)) : list (list Cell) :=
  match cells with
  | [] => []
  | r :: rest =>
      match assign_in_row scale_factor block r with
      | Some r' => r' :: rest
      | None => r :: assign_block scale_factor block rest
      end
  end.

Definition assign_text_to_cells (cell_grid : option CellGrid)
    (text_blocks : list Block) (scale_factor : Q) : option CellGrid :=
  match cell_grid, text_blocks with
  | None, _ | _, [] => cell_grid
  | Some g, _ =>
      let init :=
        map (map (fun cell =>
                    {| row := row cell; col := col cell;
                       cell_bbox := cell_bbox cell; content := Some [] |}))
            (cells g) in
      Some {| row_boundaries := row_boundaries g;
              col_boundaries := col_boundaries g;
              num_rows := num_rows g;
              num_cols := num_cols g;
              cells :=
                fold_left (fun cells block =>
                             assign_block scale_factor block cells)
                          text_blocks init |}
  end.

(** *** Span detection *)

(** A span dict. *)
Record Span : Type := mkSpan {
  s_row : nat;
  s_col : nat;
  rowspan : nat;
  colspan : nat;
  s_content : list Block;
  s_bbox : BBox Z;
  is_empty : bool
}.

(** [cells[r][c]]. *)
Definition get_cell (cells : list (list Cell)) (r c : nat) : result Cell :=
  match cells !! r with
  | Some cell_row =>
      match cell_row !! c with
      | Some cell => Ok cell
      | None => Raise IndexError
      end
  | None => Raise IndexError
  end.

(** [cell["content"]]. *)
Definition get_content (cell : Cell) : result (list Block) :=
  match content cell with
  | Some blocks => Ok blocks
  | None => Raise (KeyError "content")
  end.

(** The scanning loops of [detect_spans]: over the positions [cand], count
    the cells with empty content up to the first one with content. *)
Fixpoint extend_span (cells : list (list Cell)) (cand : list (nat * nat))
    (span : nat) : result nat :=
  match cand with
  | [] => Ok span
  | (r, c) :: rest =>
      cell ← get_cell cells r c;
      blocks ← get_content cell;
      match blocks with
      | [] => extend_span cells rest (S span)
      | _ => Ok span
      end
  end.

(** [consumed[r][c] = True] for the rectangle of a span. *)
Definition mark_consumed (consumed : list (list bool))
    (row_idx col_idx rowspan colspan : nat) : list (list bool) :=
  fold_left
    (fun consumed r =>
       fold_left
         (fun consumed c => alter (fun cr => <[c := true]> cr) r consumed)
         (seq col_idx colspan) consumed)
    (seq row_idx rowspan) consumed.

(** The body of the double loop of [detect_spans] at [(row_idx, col_idx)]. *)
Definition detect_span_at (cells : list (list Cell)) (num_rows num_cols : nat)
    (st : list (list bool) * list Span) (pos : nat * nat)
  : result (list (list bool) * list Span) :=
  let '(consumed, spans) := st in
  let '(row_idx, col_idx) := pos in
  match consumed !! row_idx ≫= (.!! col_idx) with
  | None => Raise IndexError
  | Some true => Ok st
  | Some false =>
      cell ← get_cell cells row_idx col_idx;
      blocks ← get_content cell;
      rowspan ←
        match blocks with
        | [] => Ok 1%nat
        | _ => extend_span cells
                 (map (fun r => (r, col_idx))
                      (seq (S row_idx) (num_rows - S row_idx)))
                 1
        end;
      colspan ←
        match blocks with
        | [] => Ok 1%nat
        | _ => extend_span cells
                 (map (fun c => (row_idx, c))
                      (seq (S col_idx) (num_cols - S col_idx)))
                 1
        end;
      Ok (mark_consumed consumed row_idx col_idx rowspan colspan,
          spans ++ [{| s_row := row_idx; s_col := col_idx;
                       rowspan := rowspan; colspan := colspan;
                       s_content := blocks; s_bbox := cell_bbox cell;
                       is_empty := (length blocks =? 0)%nat |}])
  end.

Definition detect_spans (cell_grid : option CellGrid) : result (list Span) :=
  match cell_grid with
  | None => Ok []
  | Some g =>
      let cells := cells g in
      let num_rows := length cells in
      let num_cols := match cells with [] => 0%nat | r :: _ => length r end in
      let consumed := replicate num_rows (replicate num_cols false) in
      let positions :=
        concat (map (fun r => map (fun c => (r, c)) (seq 0 num_cols))
                    (seq 0 num_rows)) in
      snd <$> foldM (detect_span_at cells num_rows num_cols) positions
                (consumed, [])
  end.

(** The (row, col) cells a span covers. *)
Definition covered (s : Span) : list (nat * nat) :=
  concat (map (fun r => map (fun c => (r, c)) (seq (s_col s) (colspan s)))
              (seq (s_row s) (rowspan s))).

(** *** Visual sections *)

(** The loop of [segment_page_into_tables] over [range(1, len(y_positions))]. *)
Fixpoint segment_loop (min_gap : Z) (rest : list Z) (regions : list (Z * Z))
    (region_start prev : Z) : list (Z * Z) :=
  match rest with
  | [] => regions ++ [(region_start, prev)]
  | y :: rest' =>
      if (min_gap <? y - prev)%Z
      then segment_loop min_gap rest' (regions ++ [(region_start, prev)]) y y
      else segment_loop min_gap rest' regions region_start y
  end.

Definition segment_page_into_tables (h_lines : list HLine) (min_gap : Z)
  : list (Z * Z) :=
  match map h_y (sorted (fun l => inject_Z (h_y l)) h_lines) with
  | [] => []
  | y :: rest => segment_loop min_gap rest [] y y
  end.

Inductive section_type : Type := form_section_left | form_section_right | photo_box.

Record VisualSection : Type := mkVisualSection {
  vs_type : section_type;
  vs_bbox : BBox Z;
  vs_rowspan : option Z
}.

Record VisualTable : Type := mkVisualTable {
  table_index : nat;
  region : Z * Z;
  sections : list VisualSection;
  vt_row_boundaries : list Z;
  vt_num_rows : nat
}.

Record VisualSections : Type := mkVisualSections {
  tables : list VisualTable;
  total_tables : nat
}.

Definition zmin (l : list Z) : Z :=
  match l with [] => 0%Z | x :: r => fold_left Z.min r x end.
Definition zmax (l : list Z) : Z :=
  match l with [] => 0%Z | x :: r => fold_left Z.max r x end.

(** The bounding box of a non-empty list of horizontal lines. *)
Definition lines_bbox (lines : list HLine) : BBox Z :=
  mkBBox (zmin (map h_x0 lines)) (zmin (map h_y lines))
         (zmax (map h_x1 lines)) (zmax (map h_y lines)).

(** The nested [cluster_positions(positions, gap)] of
    [detect_visual_sections]. *)
Fixpoint gap_loop (gap : Z) (rest : list Z) (groups : list (list Z))
    (current : list Z) (current_last : Z) : list (list Z) :=
  match rest with
  | [] => groups ++ [current]
  | p :: rest' =>
      if (p - current_last <=? gap)%Z
      then gap_loop gap rest' groups (current ++ [p]) p
      else gap_loop gap rest' (groups ++ [current]) [p] p
  end.

Definition gap_cluster_positions (positions : list Z) (gap : Z) : list Z :=
  match positions with
  | [] => []
  | p :: rest => map int_mean (gap_loop gap rest [] [p] p)
  end.

(** The body of the loop over the table regions; [None] is [continue]. *)
Definition visual_table (h_lines : list HLine) (page_width : Z)
    (region_idx : nat) (region : Z * Z) : option VisualTable :=
  let '(y_start, y_end) := region in
  let region_h_lines :=
    List.filter (fun l => (y_start <=? h_y l)%Z && (h_y l <=? y_end)%Z)
      h_lines in
  if (length region_h_lines <? 2)%nat then None
  else
    let y_positions := sorted inject_Z (remove_dups (map h_y region_h_lines)) in
    let row_boundaries := gap_cluster_positions y_positions 25 in
    let left_boundary := inject_Z page_width * 0.45 in
    let right_start := inject_Z page_width * 0.40 in
    let photo_start := inject_Z page_width * 0.75 in
    let left_lines :=
      List.filter (fun l => Qltb (inject_Z (h_x1 l)) left_boundary)
        region_h_lines in
    let right_lines :=
      List.filter (fun l => Qgtb (inject_Z (h_x0 l)) right_start
                            && Qltb (inject_Z (h_x1 l)) photo_start)
        region_h_lines in
    let photo_lines :=
      List.filter (fun l => Qgtb (inject_Z (h_x1 l)) photo_start)
        region_h_lines in
    let sections :=
      match left_lines with
      | [] => []
      | _ => [mkVisualSection form_section_left (lines_bbox left_lines) None]
      end
      ++ match right_lines with
         | [] => []
         | _ => [mkVisualSection form_section_right (lines_bbox right_lines)
                   None]
         end
      ++ match photo_lines with
         | [] => []
         | _ =>
             let photo_y_min := zmin (map h_y photo_lines) in
             let photo_y_max := zmax (map h_y photo_lines) in
             let rows_in_photo :=
               List.filter (fun y => (photo_y_min <=? y)%Z
                                     && (y <=? photo_y_max)%Z)
                 row_boundaries in
             [mkVisualSection photo_box (lines_bbox photo_lines)
                (Some (Z.max 1 (Z.of_nat (length rows_in_photo) - 1)))]
         end in
    Some {| table_index := region_idx;
            region := region;
            sections := sections;
            vt_row_boundaries := row_boundaries;
            vt_num_rows := (length row_boundaries - 1)%nat |}.

Definition detect_visual_sections (h_lines : list HLine) (v_lines : list VLine)
    (page_width page_height : Z) : option VisualSections :=
  match h_lines, v_lines with
  | [], _ | _, [] => None
  | _, _ =>
      let table_regions := segment_page_into_tables h_lines 60 in
      let all_tables :=
        omap (fun '(region_idx, region) =>
                visual_table h_lines page_width region_idx region)
             (combine (seq 0 (length table_regions)) table_regions) in
      Some {| tables := all_tables; total_tables := length all_tables |}
  end.

(** *** The detector's result *)

(** The dict of [detect_all_controls] as the combined extractor reads it
    (the source path, the summary counters and the debug image are left
    out). *)
Record ControlsData : Type := mkControlsData {
  scale_factor : Q;
  checkboxes : list Control;
  radio_buttons : list Control;
  input_boxes : list Control;
  table_borders : TableBorders;
  row_bands : list Band;
  cell_grid : option CellGrid;
  visual_sections : option VisualSections
}.

Definition detect_all_controls (image : Image) : ControlsData :=
  let scale_factor := inject_Z (height image) / 842 in
  let checkboxes :=
    detect_checkboxes image (int (8 * scale_factor)) (int (30 * scale_factor)) in
  let radio_buttons := detect_radio_buttons image in
  let input_boxes :=
    detect_input_boxes image (int (50 * scale_factor))
      (int (12 * scale_factor)) (int (40 * scale_factor)) in
  let table_borders := detect_table_borders image 30 in
  let row_bands :=
    detect_row_bands image (int (3 * scale_factor)) (int (6 * scale_factor)) in
  let cell_grid :=
    build_cell_grid_from_lines (horizontal table_borders)
      (vertical table_borders) (int (10 * scale_factor)) in
  let visual_sections :=
    detect_visual_sections (horizontal table_borders) (vertical table_borders)
      (width image) (height image) in
  {| scale_factor := round_to 2 scale_factor;
     checkboxes := checkboxes;
     radio_buttons := radio_buttons;
     input_boxes := input_boxes;
     table_borders := table_borders;
     row_bands := row_bands;
     cell_grid := cell_grid;
     visual_sections := visual_sections |}.

End DetectControls.

(** ** combined_extractor.py *)

Module CombinedExtractor.

Import ExtractLayout DetectControls.

Local Open Scope Q_scope.

(** The row dict appended by [assign_blocks_to_bands] for one band, if the
    band holds a block. *)
Definition band_row (blocks : list Block) (scale_factor : Q) (band : Band)
  : result (option Row) :=
  band_y0 ← fdiv (inject_Z (band_y0 band)) scale_factor;
  band_y1 ← fdiv (inject_Z (band_y1 band)) scale_factor;
  let band_blocks :=
    List.filter (fun block =>
                   let block_y_center := (y0 (bbox block) + y1 (bbox block)) / 2 in
                   Qle_bool band_y0 block_y_center
                   && Qle_bool block_y_center band_y1)
      blocks in
  match band_blocks with
  | [] => Ok None
  | _ =>
      Ok (Some {| blocks := sorted block_x0 band_blocks;
                  y_min := round_to 2 band_y0;
                  y_max := round_to 2 band_y1;
                  source := Some visual_band;
                  type := None |})
  end.

(** [None] is the Python [None]: no band, or no band that holds a block. *)
Definition assign_blocks_to_bands (blocks : list Block) (row_bands : list Band)
    (scale_factor : Q) : result (option (list Row)) :=
  match row_bands with
  | [] => Ok None
  | _ =>
      rows ← mapM' (band_row blocks scale_factor) row_bands;
      match omap (fun r => r) rows with
      | [] => Ok None
      | rows => Ok (Some rows)
      end
  end.

(** A mapped control: the copied detection with ["pdf_bbox"], and
    ["label_block_id"] / ["label_text"] when a label was found. *)
Record MappedControl : Type := mkMappedControl {
  control : Control;
  pdf_bbox : BBox Q;
  label_block_id : option nat;
  label_text : option str
}.

(** The loop over [blocks] for a control whose left edge and top are [pdf_x0]
    and [pdf_y0]; the state is [(best_block, best_distance)], with [None] for
    the initial [(None, inf)]. *)
Definition closer_block (pdf_x0 pdf_y0 : Q) (best : option (Block * Q))
    (block : Block) : option (Block * Q) :=
  let block_bbox := bbox block in
  if Qltb (x1 block_bbox) (pdf_x0 + 20)
     && Qltb (Qabs (y0 block_bbox - pdf_y0)) 15
  then
    let dist := pdf_x0 - x1 block_bbox in
    if Qltb 0 dist
       && match best with
          | None => true
          | Some (_, best_distance) => Qltb dist best_distance
          end
    then Some (block, dist)
    else best
  else best.

Definition best_block (blocks : list Block) (pdf_x0 pdf_y0 : Q) : option Block :=
  fst <$> fold_left (closer_block pdf_x0 pdf_y0) blocks None.

(** The body of the loop of [map_controls_to_blocks]. *)
Definition map_control (blocks : list Block) (scale_factor : Q)
    (control : Control) : result MappedControl :=
  let ctrl_bbox := c_bbox control in
  pdf_x0 ← fdiv (inject_Z (x0 ctrl_bbox)) scale_factor;
  pdf_y0 ← fdiv (inject_Z (y0 ctrl_bbox)) scale_factor;
  pdf_x1 ← fdiv (inject_Z (x1 ctrl_bbox)) scale_factor;
  pdf_y1 ← fdiv (inject_Z (y1 ctrl_bbox)) scale_factor;
  let best := best_block blocks pdf_x0 pdf_y0 in
  Ok {| control := control;
        pdf_bbox := mkBBox (round_to 2 pdf_x0) (round_to 2 pdf_y0)
                      (round_to 2 pdf_x1) (round_to 2 pdf_y1);
        label_block_id := id <$> best;
        label_text := text <$> best |}.

Definition map_controls_to_blocks (controls : list Control)
    (blocks : list Block) (scale_factor : Q) : result (list MappedControl) :=
  mapM' (map_control blocks scale_factor) controls.

Definition compute_control_features (control : Control) (scale_factor : Q)
  : result Features :=
  let bbox := c_bbox control in
  let w := (x1 bbox - x0 bbox)%Z in
  let h := (y1 bbox - y0 bbox)%Z in
  let aspect_ratio :=
    if (0 <? h)%Z then round_to 2 (inject_Z w / inject_Z h) else 1 in
  width_pt ← fdiv (inject_Z w) scale_factor;
  height_pt ← fdiv (inject_Z h) scale_factor;
  Ok {| width_px := w; height_px := h; aspect_ratio := aspect_ratio;
        width_pt := round_to 1 width_pt; height_pt := round_to 1 height_pt |}.

(** *** Control validity *)

(** The centre of a control in points: [(x0 + x1) / 2 / scale_factor] and the
    same for [y]. *)
Definition center_pt (control : Control) (scale_factor : Q) : result (Q * Q) :=
  let bbox := c_bbox control in
  cx ← fdiv (inject_Z (x0 bbox + x1 bbox) / 2) scale_factor;
  cy ← fdiv (inject_Z (y0 bbox + y1 bbox) / 2) scale_factor;
  Ok (cx, cy).

(** [round(c / tolerance_pt) * tolerance_pt]. *)
Definition snap (tolerance_pt : Z) (c : Q) : Z :=
  (round (c / inject_Z tolerance_pt) * tolerance_pt)%Z.

(** [max(counts, default=0)]. *)
Definition max_count (counts : list nat) : nat := fold_left Nat.max counts 0%nat.

Definition check_controls_aligned (controls : list Control)
    (scale_factor page_width : Q) (min_aligned : nat) (tolerance_pt : Z)
  : result bool :=
  if (length controls <? min_aligned)%nat then Ok false
  else
    let left_margin_threshold := page_width * 0.05 in
    positions ← mapM' (fun c => center_pt c scale_factor) controls;
    let x_positions := map (fun p => snap tolerance_pt (fst p)) positions in
    let x_counts := Counter x_positions in
    let valid_x_alignments :=
      List.filter (fun '(x, count) => Qgeb (inject_Z x) left_margin_threshold)
        x_counts in
    let max_x_aligned := max_count (map snd valid_x_alignments) in
    let y_positions := map (fun p => snap tolerance_pt (snd p)) positions in
    let y_counts := Counter y_positions in
    let max_y_aligned := max_count (map snd y_counts) in
    Ok ((min_aligned <=? max_x_aligned)%nat || (min_aligned <=? max_y_aligned)%nat).

Definition has_label_to_left (control : Control) (blocks : list Block)
    (scale_factor max_gap_pt : Q) : result bool :=
  let ctrl_bbox := c_bbox control in
  ctrl_x0 ← fdiv (inject_Z (x0 ctrl_bbox)) scale_factor;
  ctrl_y_center ←
    fdiv (inject_Z (y0 ctrl_bbox + y1 ctrl_bbox) / 2) scale_factor;
  Ok (existsb
        (fun block =>
           let bb := bbox block in
           let block_y_center := (y0 bb + y1 bb) / 2 in
           negb (Qgtb (Qabs (block_y_center - ctrl_y_center)) 10)
           && Qltb (x1 bb) ctrl_x0
           && Qle_bool (ctrl_x0 - x1 bb) max_gap_pt)
        blocks).

(** The inner loop of both passes of [filter_valid_controls]: the centre lies
    in some block's box widened by 5 points left and right and by 2 points
    above and below. *)
Definition is_inside_text (blocks : list Block) (ctrl_x ctrl_y : Q) : bool :=
  existsb
    (fun block =>
       let bb := bbox block in
       Qle_bool (x0 bb - 5) ctrl_x && Qle_bool ctrl_x (x1 bb + 5)
       && Qle_bool (y0 bb - 2) ctrl_y && Qle_bool ctrl_y (y1 bb + 2))
    blocks.

(** First pass: the size floor. *)
Definition size_ok (scale_factor min_size_pt : Q) (control : Control)
  : result bool :=
  let ctrl_bbox := c_bbox control in
  let w_px := (x1 ctrl_bbox - x0 ctrl_bbox)%Z in
  let h_px := (y1 ctrl_bbox - y0 ctrl_bbox)%Z in
  w_pt ← fdiv (inject_Z w_px) scale_factor;
  h_pt ← fdiv (inject_Z h_px) scale_factor;
  Ok (Qgeb w_pt min_size_pt && Qgeb h_pt min_size_pt).

(** [[x for x in xs if keep(x)]] where [keep] may raise. *)
Fixpoint filterM (keep : Control → result bool) (xs : list Control)
  : result (list Control) :=
  match xs with
  | [] => Ok []
  | x :: xs' =>
      k ← keep x;
      rest ← filterM keep xs';
      Ok (if k : bool then x :: rest else rest)
  end.

(** The test of the grid-aligned pass. *)
Definition keep_aligned (blocks : list Block) (scale_factor : Q)
    (control : Control) : result bool :=
  '(ctrl_x, ctrl_y) ← center_pt control scale_factor;
  Ok (negb (is_inside_text blocks ctrl_x ctrl_y)).

(** The test of the strict pass. *)
Definition keep_strict (blocks : list Block) (scale_factor page_width : Q)
    (control : Control) : result bool :=
  let left_margin_threshold := page_width * 0.05 in
  '(ctrl_x, ctrl_y) ← center_pt control scale_factor;
  if is_inside_text blocks ctrl_x ctrl_y then Ok false
  else if Qltb ctrl_x left_margin_threshold then
    labelled ← has_label_to_left control blocks scale_factor 50;
    Ok labelled
  else Ok true.

Definition filter_valid_controls (raw_controls : list Control)
    (blocks : list Block) (scale_factor page_width min_size_pt : Q)
  : result (list Control) :=
  size_valid ← filterM (size_ok scale_factor min_size_pt) raw_controls;
  aligned ← check_controls_aligned size_valid scale_factor page_width 3 5;
  if aligned : bool
  then filterM (keep_aligned blocks scale_factor) size_valid
  else filterM (keep_strict blocks scale_factor page_width) size_valid.

(** *** The page record *)

(** The record-level ["row_source"]. *)
Inductive row_source : Type := visual_bands | text_y_proximity.

(** The ["text"] dict; ["row_source"] is absent on a text page. *)
Record TextPart : Type := mkTextPart {
  t_blocks : list Block;
  t_rows : option (list Row);
  t_row_source : option row_source;
  t_row_groups : option (list RowGroup);
  t_columns : list Q;
  t_stats : option Stats
}.

(** The ["controls"] dict. *)
Record ControlsPart : Type := mkControlsPart {
  items : list MappedControl;
  cp_scale_factor : Q
}.

(** The ["summary"] dict; ["row_types"] is keyed by [row.get("type",
    "unknown")], [None] standing for ["unknown"]; ["visual_tables"] is there
    on a form page and ["note"] on the others. *)
Record Summary : Type := mkSummary {
  sm_total_blocks : nat;
  sm_total_rows : nat;
  sm_total_row_groups : nat;
  sm_total_controls : nat;
  sm_visual_tables : option nat;
  sm_row_types : option (list (option row_type * nat));
  sm_note : option string
}.

(** The page record, without the ["source"] path.  ["table_borders"] and
    ["visual_sections"] are keys of a form page only; a null
    ["visual_sections"] and an absent one are both [None]. *)
Record PageRecord : Type := mkPageRecord {
  page_number : Z;
  r_page_type : page_type;
  classification : Classification;
  dimensions : Q * Q;
  text_part : TextPart;
  controls : ControlsPart;
  r_table_borders : option TableBorders;
  r_visual_sections : option VisualSections;
  summary : Summary
}.

(** What [extract_combined] returns: [{"error": msg}] or a page record. *)
Inductive Extraction : Type :=
| error (msg : string)
| record (r : PageRecord).

Definition row_type_key_eqb (a b : option row_type) : bool :=
  match a, b with
  | Some x, Some y => row_type_eqb x y
  | None, None => true
  | _, _ => false
  end.

(** [row_types[k] = row_types.get(k, 0) + 1]. *)
Fixpoint count_row_type (k : option row_type)
    (row_types : list (option row_type * nat)) : list (option row_type * nat) :=
  match row_types with
  | [] => [(k, 1%nat)]
  | (k', n) :: rest =>
      if row_type_key_eqb k k' then (k', S n) :: rest
      else (k', n) :: count_row_type k rest
  end.

Definition set_features (cb : Control) (f : Features) : Control :=
  {| c_type := c_type cb; c_bbox := c_bbox cb; confidence := confidence cb;
     checked := checked cb; center := center cb; radius := radius cb;
     selected := selected cb; features := Some f |}.

Definition set_grid (group : RowGroup) (g : option Grid) : RowGroup :=
  match g with
  | Some _ =>
      {| group_id := group_id group; row_indices := row_indices group;
         hint := hint group; row_count := row_count group; grid := g |}
  | None => group
  end.

Section Extract.
Context `{UnicodeData}.

(** Steps 4 to 6 of [extract_combined]: from the page layout and the
    detector's result to the page record. *)
Definition fuse_page (page_num : Z) (page_layout : PageLayout)
    (controls_data : ControlsData) : result Extraction :=
  let blocks := pl_blocks page_layout in
  let page_width := pl_width page_layout in
  let page_height := pl_height page_layout in
  let scale_factor := scale_factor controls_data in
  let raw_controls := checkboxes controls_data in
  valid_controls ←
    filter_valid_controls raw_controls blocks scale_factor page_width 10;
  let control_count := Z.of_nat (length valid_controls) in
  let columns := pl_columns page_layout in
  classification ←
    classify_page_type blocks columns page_width page_height control_count;
  match c_page_type classification with
  | pt_form =>
      let row_bands := row_bands controls_data in
      visual_rows ← assign_blocks_to_bands blocks row_bands scale_factor;
      let '(rows, row_source) :=
        match visual_rows with
        | Some visual_rows =>
            if (3 <=? length visual_rows)%nat
            then (classify_rows visual_rows page_width
                    (pl_stats page_layout),
                  visual_bands)
            else (pl_rows page_layout, text_y_proximity)
        | None => (pl_rows page_layout, text_y_proximity)
        end in
      let row_groups := group_consecutive_rows rows 10 in
      let row_groups :=
        map (fun group =>
               set_grid group
                 (apply_grid_to_row_group rows (row_indices group)))
            row_groups in
      all_controls ←
        mapM' (fun cb =>
                 set_features cb <$> compute_control_features cb scale_factor)
              valid_controls;
      mapped_controls ←
        map_controls_to_blocks all_controls blocks scale_factor;
      Ok (record {|
        page_number := page_num;
        r_page_type := c_page_type classification;
        classification := classification;
        dimensions := (page_width, page_height);
        text_part :=
          {| t_blocks := blocks;
             t_rows := Some rows;
             t_row_source := Some row_source;
             t_row_groups := Some row_groups;
             t_columns := columns;
             t_stats := pl_stats page_layout |};
        controls :=
          {| items := mapped_controls; cp_scale_factor := scale_factor |};
        r_table_borders := Some (table_borders controls_data);
        r_visual_sections := visual_sections controls_data;
        summary :=
          {| sm_total_blocks := length blocks;
             sm_total_rows := length rows;
             sm_total_row_groups := length row_groups;
             sm_total_controls := length mapped_controls;
             sm_visual_tables :=
               Some (match visual_sections controls_data with
                     | Some vs => total_tables vs
                     | None => 0%nat
                     end);
             sm_row_types :=
               Some (fold_left (fun row_types row =>
                                  count_row_type (type row) row_types)
                               rows []);
             sm_note := None |} |})
  | _ =>
      Ok (record {|
        page_number := page_num;
        r_page_type := c_page_type classification;
        classification := classification;
        dimensions := (page_width, page_height);
        text_part :=
          {| t_blocks := blocks;
             t_rows := None;
             t_row_source := None;
             t_row_groups := None;
             t_columns := columns;
             t_stats := pl_stats page_layout |};
        controls := {| items := []; cp_scale_factor := scale_factor |};
        r_table_borders := None;
        r_visual_sections := None;
        summary :=
          {| sm_total_blocks := length blocks;
             sm_total_rows := 0;
             sm_total_row_groups := 0;
             sm_total_controls := 0;
             sm_visual_tables := None;
             sm_row_types := None;
             sm_note := Some "Row grouping skipped for text page"%string |} |})
  end.

(** [extract_combined(pdf_path, page_num)] on the opened document [doc]:
    steps 1 to 3, then [fuse_page].  The page is rendered and read only when
    the layout has a page, and then [doc[page_num - 1]] exists. *)
Definition extract_combined (doc : list Page) (page_num : Z)
  : result Extraction :=
  let layout_data := extract_pdf doc (Some page_num) in
  match pages layout_data, doc !! Z.to_nat (page_num - 1) with
  | [], _ => Ok (error "No pages extracted")
  | _, None => Raise IndexError
  | page_layout :: _, Some page =>
      fuse_page page_num page_layout (detect_all_controls (rendering page))
  end.

End Extract.

End CombinedExtractor.

(** * Statement vocabulary and sample data *)

Import ExtractLayout DetectControls CombinedExtractor.

(** *** Common samples *)

(** The ASCII part of the two Unicode classes, for closed examples. *)
Definition ascii_data : UnicodeData :=
  {| isspace := fun c => N_in c [9; 10; 11; 12; 13; 28; 29; 30; 31; 32]%N;
     isdecimal := fun c => (48 <=? c)%N && (c <=? 57)%N |}.

(** A block with text ["Ab"] in a 10 pt regular font. *)
Definition sample_block (i : nat) (bx0 by0 bx1 by1 : Q) : Block :=
  {| text := [65; 98]%N; bbox := mkBBox bx0 by0 bx1 by1; font_size := 10;
     font_name := "Helvetica"; is_bold := false; id := i |}.

(** A checkbox detection as [detect_checkboxes] builds it. *)
Definition sample_checkbox (bx0 by0 bx1 by1 : Z) : Control :=
  {| c_type := checkbox; c_bbox := mkBBox bx0 by0 bx1 by1;
     confidence := round_to 2 0.7; checked := Some false; center := None;
     radius := None; selected := None; features := None |}.

(** *** Spans *)

(** A 3 x 3 lattice of border lines (two rows and two columns of cells), with
    text in the top-right and bottom-left cells only. *)
Definition lattice_h : list HLine :=
  [mkHLine 0 0 200; mkHLine 100 0 200; mkHLine 200 0 200].
Definition lattice_v : list VLine :=
  [mkVLine 0 0 200; mkVLine 100 0 200; mkVLine 200 0 200].
Definition top_right : Block := sample_block 0 120 20 180 40.
Definition bottom_left : Block := sample_block 1 20 120 80 140.
Definition crossing_grid : option CellGrid :=
  assign_text_to_cells (build_cell_grid_from_lines lattice_h lattice_v 10)
    [top_right; bottom_left] 1.

(** *** Grid mapping *)

(** The overlap test of [map_row_to_grid] between a block and a column. *)
Definition overlaps_column (block : Block) (c : Column) : bool :=
  Qltb (x0 (bbox block)) (snd c) && Qgtb (x1 (bbox block)) (fst c).

(** The block's first overlapping column is column [i]. *)
Definition starts_at (columns : list Column) (i : nat) (block : Block) : bool :=
  match start_col_of block columns with
  | Some j => (j =? i)%nat
  | None => false
  end.

(** The number of cells that hold a block. *)
Definition count_blocks (cells : list (option Block)) : nat :=
  length (omap (fun c => c) cells).

(** Two columns, and a row with two blocks that both start in the first. *)
Definition two_columns : list Column := [(0, 100); (100, 200)]%Q.
Definition crowded_row : Row :=
  {| blocks := [sample_block 0 10 10 40 20; sample_block 1 50 10 90 20];
     y_min := 10; y_max := 20; source := None; type := None |}.

(** *** Overlap removal *)

(** Intersection over union of two raster boxes: 0 when they do not
    intersect (or the union is not positive). *)
Definition iou (a b : BBox Z) : Q :=
  let ix0 := Z.max (x0 a) (x0 b) in
  let iy0 := Z.max (y0 a) (y0 b) in
  let ix1 := Z.min (x1 a) (x1 b) in
  let iy1 := Z.min (y1 a) (y1 b) in
  if (ix0 <? ix1)%Z && (iy0 <? iy1)%Z then
    let intersection := ((ix1 - ix0) * (iy1 - iy0))%Z in
    let union :=
      ((x1 a - x0 a) * (y1 a - y0 a) + (x1 b - x0 b) * (y1 b - y0 b)
       - intersection)%Z in
    if (0 <? union)%Z then (inject_Z intersection / inject_Z union)%Q else 0%Q
  else 0%Q.

(** The later of two kept detections passed the loop's test against the
    earlier one. *)
Definition apart (iou_threshold : Q) (a b : Control) : Prop :=
  overlaps iou_threshold (c_bbox b) (c_bbox a) = false.

(** [a] is not after [b] in the order [leb] on keys. *)
Definition in_order {A K : Type} (leb : K → K → bool) (key : A → K) (a b : A)
  : Prop :=
  leb (key a) (key b) = true.

(** Two wide boxes of the same height, the second shifted right by a third of
    the width: their IoU is exactly one half. *)
Definition half_overlap_image : Image :=
  {| height := 842; width := 595; binary_contours := []; hough_circles := None;
     edge_contours :=
       [mkEdgeContour (mkRect 0 0 300 20) 5681 4;
        mkEdgeContour (mkRect 100 0 300 20) 5681 4];
     horizontal_rects := []; vertical_rects := [];
     projection := replicate 842 0%Z |}.

(** The input-box detection [detect_input_boxes] builds for such a contour. *)
Definition wide_box (bx0 bx1 : Z) : Control :=
  {| c_type := input; c_bbox := mkBBox bx0 0%Z bx1 20%Z;
     confidence := round_to 2 (5681 / 6000);
     checked := None; center := None; radius := None; selected := None;
     features := None |}.

(** Three wide boxes; the third overlaps the first by more than one half. *)
Definition three_wide_boxes : list Control :=
  [wide_box 0 300; wide_box 100 400; wide_box 50 350].

(** *** Label association *)



(** A checkbox near the right margin of an A4 page and, on the same line, a
    single block at the left margin, 450 points away. *)
Definition right_checkbox : Control := sample_checkbox 500 100 520 120.

(** A second block on that line, 30 points from the checkbox. *)
Definition near_block : Block := sample_block 8 430 101 470 113.

(** The block [map_controls_to_blocks] attaches to a control, if any. *)
Definition label_of (blocks : list Block) (scale_factor : Q) (control : Control)
  : option Block :=
  best_block blocks (inject_Z (x0 (c_bbox control)) / scale_factor)%Q
    (inject_Z (y0 (c_bbox control)) / scale_factor)%Q.

(** *** Page classification *)




(** Three blocks with the same left edge [10] and width [w], one per line. *)
Definition aligned_blocks (w : Q) : list Block :=
  [sample_block 0 10 10 (10 + w) 20; sample_block 1 10 30 (10 + w) 40;
   sample_block 2 10 50 (10 + w) 60]%Q.

(** Three wide blocks with different left edges. *)
Definition wide_blocks : list Block :=
  [sample_block 0 0 10 450 20; sample_block 1 10 30 460 40;
   sample_block 2 20 50 470 60]%Q.

(** *** Control validity filter *)

(** A control's centre in points. *)
Definition center_x (scale_factor : Q) (c : Control) : Q :=
  (inject_Z (x0 (c_bbox c) + x1 (c_bbox c)) / 2 / scale_factor)%Q.
Definition center_y (scale_factor : Q) (c : Control) : Q :=
  (inject_Z (y0 (c_bbox c) + y1 (c_bbox c)) / 2 / scale_factor)%Q.

(** The size floor: at least [min_size_pt] points wide and high. *)
Definition size_valid (scale_factor min_size_pt : Q) (c : Control) : bool :=
  Qgeb (inject_Z (x1 (c_bbox c) - x0 (c_bbox c)) / scale_factor) min_size_pt
  && Qgeb (inject_Z (y1 (c_bbox c) - y0 (c_bbox c)) / scale_factor) min_size_pt.


(** The centre lies in some block's box widened by 5 points horizontally
    and 2 points vertically: the filter's "inside text" test. *)
Definition inside_padded_text (blocks : list Block) (scale_factor : Q)
    (c : Control) : bool :=
  is_inside_text blocks (center_x scale_factor c) (center_y scale_factor c).






(** *** Page record *)

(** The block's vertical centre lies in the band (converted to points). *)
Definition in_band (scale_factor : Q) (band : Band) (block : Block) : bool :=
  Qle_bool (inject_Z (band_y0 band) / scale_factor) (y_center block)
  && Qle_bool (y_center block) (inject_Z (band_y1 band) / scale_factor).

(** The band holds the centre of at least one block. *)
Definition occupied (blocks : list Block) (scale_factor : Q) (band : Band)
  : bool :=
  existsb (in_band scale_factor band) blocks.

(** The row made of an occupied band. *)
Definition row_of_band (blocks : list Block) (scale_factor : Q) (band : Band)
  : Row :=
  {| blocks := sorted block_x0 (List.filter (in_band scale_factor band) blocks);
     y_min := round_to 2 (inject_Z (band_y0 band) / scale_factor);
     y_max := round_to 2 (inject_Z (band_y1 band) / scale_factor);
     source := Some visual_band;
     type := None |}.

(** [has_label_to_left] for a non-zero scale factor. *)
Definition labelled_left (blocks : list Block) (scale_factor max_gap_pt : Q)
    (c : Control) : bool :=
  existsb
    (fun block =>
       let bb := bbox block in
       negb (Qgtb (Qabs ((y0 bb + y1 bb) / 2 - center_y scale_factor c)) 10)
       && Qltb (x1 bb) (inject_Z (x0 (c_bbox c)) / scale_factor)
       && Qle_bool (inject_Z (x0 (c_bbox c)) / scale_factor - x1 bb) max_gap_pt)
    blocks.

(** The test of the strict pass for a non-zero scale factor. *)
Definition strict_valid (blocks : list Block) (scale_factor page_width : Q)
    (c : Control) : bool :=
  if inside_padded_text blocks scale_factor c then false
  else if Qltb (center_x scale_factor c) (page_width * 0.05)
  then labelled_left blocks scale_factor 50 c
  else true.

(** *** Sample pages *)

(** An A4 page rendered 842 pixels high (scale factor 1) with three pixel
    bands at rows 100-120, 200-220 and 300-320, two 20-pixel checkboxes, one
    ring that is accepted as a radio button and one input box. *)
Definition banded_image : Image :=
  {| height := 842; width := 595;
     binary_contours :=
       [mkContour (mkRect 400 100 20 20) 4 250 100;
        mkContour (mkRect 400 200 20 20) 4 250 100];
     hough_circles := Some [mkCircle 300 400 8 100 0 200 50];
     edge_contours := [mkEdgeContour (mkRect 200 500 300 20) 5681 4];
     horizontal_rects := []; vertical_rects := [];
     projection :=
       replicate 100 0%Z ++ replicate 20 25500%Z ++ replicate 80 0%Z
       ++ replicate 20 25500%Z ++ replicate 80 0%Z ++ replicate 20 25500%Z
       ++ replicate 522 0%Z |}.

(** A page with one block in each of the three bands. *)
Definition banded_page : Page :=
  {| rect_width := 595; rect_height := 842;
     page_blocks :=
       [sample_block 0 50 105 150 115; sample_block 1 50 205 150 215;
        sample_block 2 50 305 150 315]%Q;
     rendering := banded_image |}.

(** The same rendering with blocks in the first two bands only; the third
    block lies below every band. *)
Definition sparse_page : Page :=
  {| rect_width := 595; rect_height := 842;
     page_blocks :=
       [sample_block 0 50 105 150 115; sample_block 1 50 205 150 215;
        sample_block 2 50 405 150 415]%Q;
     rendering := banded_image |}.

(** A page without text. *)
Definition blank_page : Page :=
  {| rect_width := 595; rect_height := 842; page_blocks := [];
     rendering :=
       {| height := 842; width := 595; binary_contours := [];
          hough_circles := None; edge_contours := [];
          horizontal_rects := []; vertical_rects := [];
          projection := replicate 842 0%Z |} |}.

(** The detection is a checkbox. *)
Definition is_checkbox (c : Control) : Prop := c_type c = checkbox.
(** * More of the code *)

(** ** detect_controls.py: table regions *)

Module TableRegions.

Local Open Scope Q_scope.

(** [any(f(x) for x in xs)] where [f] may raise: stops at the first true. *)
Fixpoint anyM {A : Type} (f : A → result bool) (xs : list A) : result bool :=
  match xs with
  | [] => Ok false
  | x :: xs' => b ← f x; if b : bool then Ok true else anyM f xs'
  end.

(** The nested [lines_overlap_x(line1, line2, min_pct)]. *)
Definition lines_overlap_x (line1 line2 : HLine) (min_pct : Q) : result bool :=
  let x0 := Z.max (h_x0 line1) (h_x0 line2) in
  let x1 := Z.min (h_x1 line1) (h_x1 line2) in
  if (x1 <=? x0)%Z then Ok false
  else
    let overlap := (x1 - x0)%Z in
    let span1 := (h_x1 line1 - h_x0 line1)%Z in
    let span2 := (h_x1 line2 - h_x0 line2)%Z in
    ratio ← fdiv (inject_Z overlap) (inject_Z (Z.min span1 span2));
    Ok (Qgeb ratio min_pct).

(** The body of the inner loop over [j] for the seed [line]; the state is
    [used] and [group].  The test reads the seed [line], not [h_lines[j]]. *)
Definition join_group (h_lines : list HLine) (line : HLine)
    (st : list bool * list HLine) (j : nat) : result (list bool * list HLine) :=
  let '(used, group) := st in
  match used !! j with
  | None => Raise IndexError
  | Some true => Ok st
  | Some false =>
      related ←
        anyM (fun group_line => lines_overlap_x line group_line 0.3) group;
      if related : bool then
        match h_lines !! j with
        | Some other => Ok (<[j := true]> used, group ++ [other])
        | None => Raise IndexError
        end
      else Ok st
  end.

(** The body of the outer loop over [enumerate(h_lines)]; the state is
    [used] and [h_groups]. *)
Definition open_group (h_lines : list HLine)
    (st : list bool * list (list HLine)) (seed : nat * HLine)
  : result (list bool * list (list HLine)) :=
  let '(used, h_groups) := st in
  let '(i, line) := seed in
  match used !! i with
  | None => Raise IndexError
  | Some true => Ok st
  | Some false =>
      '(used, group) ←
        foldM (join_group h_lines line)
          (seq (S i) (length h_lines - S i)) (<[i := true]> used, [line]);
      Ok (used, h_groups ++ [group])
  end.

(** A region dict. *)
Record Region : Type := mkRegion {
  reg_bbox : BBox Z;
  reg_h_lines : list HLine;
  reg_v_lines : list VLine
}.

(** The body of the loop over [h_groups]; [None] is [continue]. *)
Definition region_of_group (v_lines : list VLine) (tolerance : Z)
    (h_group : list HLine) : option Region :=
  if (length h_group <? 2)%nat then None
  else
    let x0 := zmin (map h_x0 h_group) in
    let x1 := zmax (map h_x1 h_group) in
    let y0 := zmin (map h_y h_group) in
    let y1 := zmax (map h_y h_group) in
    let region_v_lines :=
      List.filter (fun v => (x0 - tolerance <=? v_x v)%Z
                            && (v_x v <=? x1 + tolerance)%Z
                            && (v_y0 v <=? y1 + tolerance)%Z
                            && (y0 - tolerance <=? v_y1 v)%Z)
        v_lines in
    if (length region_v_lines <? 2)%nat then None
    else Some {| reg_bbox := mkBBox x0 y0 x1 y1;
                 reg_h_lines := h_group;
                 reg_v_lines := region_v_lines |}.

(** The order of tuples [(a, b)] of ints: [leb p q] is [not (q < p)]. *)
Definition Zpair_leb (p q : Z * Z) : bool :=
  (fst p <? fst q)%Z || ((fst p =? fst q)%Z && (snd p <=? snd q)%Z).

(** [find_table_regions(h_lines, v_lines, tolerance=tolerance)]; the
    parameter [min_overlap] is not read. *)
Definition find_table_regions (h_lines : list HLine) (v_lines : list VLine)
    (tolerance : Z) : result (list Region) :=
  match h_lines, v_lines with
  | [], _ | _, [] => Ok []
  | _, _ =>
      '(_, h_groups) ←
        foldM (open_group h_lines) (enumerate h_lines)
          (replicate (length h_lines) false, []);
      Ok (sort_by Zpair_leb
            (fun r => (y0 (reg_bbox r), x0 (reg_bbox r)))
            (omap (region_of_group v_lines tolerance) h_groups))
  end.

(** A grid of [build_table_grids]: the cell grid with its ["region_bbox"]. *)
Record TableGrid : Type := mkTableGrid {
  tg_grid : CellGrid;
  region_bbox : BBox Z
}.

Definition build_table_grids (h_lines : list HLine) (v_lines : list VLine)
    (tolerance : Z) : result (list TableGrid) :=
  match find_table_regions h_lines v_lines tolerance with
  | Ok regions =>
      Ok (omap (fun region =>
                  (fun grid => mkTableGrid grid (reg_bbox region))
                  <$> build_cell_grid_from_lines (reg_h_lines region)
                        (reg_v_lines region) tolerance)
               regions)
  | Raise e => Raise e
  end.

End TableRegions.

(** ** extract_layout.py: text blocks of a page *)

Module PageBlocks.

Local Open Scope Q_scope.

(** [[A-Z]] and [[0-9]] of the section-marker pattern (ASCII ranges). *)
Definition is_upper_AZ (c : N) : bool := (65 <=? c)%N && (c <=? 90)%N.
Definition is_digit_09 (c : N) : bool := (48 <=? c)%N && (c <=? 57)%N.

Fixpoint drop_digits (s : str) : str :=
  match s with
  | [] => []
  | c :: s' => if is_digit_09 c then drop_digits s' else s
  end.

(** The next character is a full stop. *)
Definition starts_with_dot (s : str) : bool :=
  match s with
  | [] => false
  | c :: _ => N.eqb c 0x2E
  end.

(** [section_start.match(s)] as a truth value: a capital letter and a full
    stop, or a run of digits and a full stop, or one of the bullet
    characters, at the start of [s]. *)
Definition section_start_match (s : str) : bool :=
  match s with
  | [] => false
  | c :: s' =>
      (is_upper_AZ c && starts_with_dot s')
      || (is_digit_09 c && starts_with_dot (drop_digits s'))
      || N_in c bullet_chars
  end.

(** Python's [min(a, b)] and [max(a, b)] on floats: the first argument
    unless the second is strictly smaller (larger). *)
Definition min2 (a b : Q) : Q := if Qltb b a then b else a.
Definition max2 (a b : Q) : Q := if Qltb a b then b else a.

(** The order of tuples [(a, b)] of floats: [leb p q] is [not (q < p)]. *)
Definition Qpair_leb (p q : Q * Q) : bool :=
  Qltb (fst p) (fst q) || (Qeq_bool (fst p) (fst q) && Qle_bool (snd p) (snd q)).

(** [sub in s] on strings. *)
Fixpoint contains (sub s : string) : bool :=
  String.prefix sub s
  || match s with
     | EmptyString => false
     | String _ s' => contains sub s'
     end.

(** What [page.get_text("dict")] delivers: the blocks of the page, a text
    block (type 0) with its lines, a line with its box and spans, a span
    with its text, its box and, if present, its font name and size. *)
Record RawSpan : Type := mkRawSpan {
  span_text : str;
  span_bbox : BBox Q;
  span_font : option string;
  span_size : option Q
}.

Record TextLine : Type := mkTextLine {
  line_bbox : BBox Q;
  spans : list RawSpan
}.

Record PageItem : Type := mkPageItem {
  item_type : Z;
  lines : list TextLine
}.

(** An entry of [raw_spans], and of [blocks] after the spans of a line have
    been merged. *)
Record LineSpan : Type := mkLineSpan {
  ls_text : str;
  ls_bbox : BBox Q;
  line_y : Q;
  ls_font_size : Q;
  ls_font_name : string
}.

(** The loop that merges the spans of a line, over [raw_spans[1:]]. *)
Fixpoint merge_spans_loop (rest : list LineSpan) (blocks : list LineSpan)
    (current : LineSpan) : list LineSpan :=
  match rest with
  | [] => blocks ++ [current]
  | span :: rest' =>
      let same_line := Qltb (Qabs (line_y span - line_y current)) 2 in
      let x_gap := x0 (ls_bbox span) - x1 (ls_bbox current) in
      if same_line && Qltb x_gap 3 then
        merge_spans_loop rest' blocks
          {| ls_text := ls_text current ++ [32%N] ++ ls_text span;
             ls_bbox :=
               mkBBox (x0 (ls_bbox current))
                 (min2 (y0 (ls_bbox current)) (y0 (ls_bbox span)))
                 (x1 (ls_bbox span))
                 (max2 (y1 (ls_bbox current)) (y1 (ls_bbox span)));
             line_y := line_y current;
             ls_font_size := ls_font_size current;
             ls_font_name := ls_font_name current |}
      else merge_spans_loop rest' (blocks ++ [current]) span
  end.

Definition merge_spans (raw_spans : list LineSpan) : list LineSpan :=
  match raw_spans with
  | [] => []
  | first :: rest => merge_spans_loop rest [] first
  end.

Definition set_id (b : Block) (i : nat) : Block :=
  {| text := text b; bbox := bbox b; font_size := font_size b;
     font_name := font_name b; is_bold := is_bold b; id := i |}.

Section Text.
Context `{UnicodeData}.

(** [s.rstrip()] and [s.strip()]. *)
Definition rstrip (s : str) : str := rev (lstrip (rev s)).
Definition strip (s : str) : str := rstrip (lstrip s).

(** [sentence_end.search(s)] as a truth value: one of [. ! ? :] followed by
    white space only up to the end of [s]. *)
Fixpoint sentence_end_search (s : str) : bool :=
  match s with
  | [] => false
  | c :: rest =>
      (N_in c [0x2E; 0x21; 0x3F; 0x3A]%N && forallb isspace rest)
      || sentence_end_search rest
  end.

(** The loop of [merge_continuation_blocks] over [blocks[1:]]. *)
Fixpoint merge_continuation_loop (y_gap_threshold x_tolerance : Q)
    (rest : list Block) (merged : list Block) (current : Block) : list Block :=
  match rest with
  | [] => merged ++ [current]
  | block :: rest' =>
      let same_x :=
        Qltb (Qabs (x0 (bbox block) - x0 (bbox current))) x_tolerance in
      let sequential_y :=
        Qltb (y0 (bbox block) - y1 (bbox current)) y_gap_threshold in
      let no_terminator := negb (sentence_end_search (text current)) in
      let no_section_marker :=
        negb (section_start_match (lstrip (text block))) in
      if same_x && sequential_y && no_terminator && no_section_marker then
        merge_continuation_loop y_gap_threshold x_tolerance rest' merged
          {| text := text current ++ [32%N] ++ text block;
             bbox :=
               mkBBox (x0 (bbox current)) (y0 (bbox current))
                 (max2 (x1 (bbox current)) (x1 (bbox block)))
                 (y1 (bbox block));
             font_size := font_size current;
             font_name := font_name current;
             is_bold := is_bold current;
             id := id current |}
      else
        merge_continuation_loop y_gap_threshold x_tolerance rest'
          (merged ++ [current]) block
  end.

Definition merge_continuation_blocks (blocks : list Block)
    (y_gap_threshold x_tolerance : Q) : list Block :=
  match blocks with
  | [] | [_] => blocks
  | first :: rest =>
      merge_continuation_loop y_gap_threshold x_tolerance rest [] first
  end.

(** [str.lower], which reads the case mappings of the Unicode database. *)
Variable lower : string → string.

(** The spans of the text blocks whose text is not blank, in page order. *)
Definition collect_spans (data : list PageItem) : list LineSpan :=
  concat
    (map (fun block =>
            if (item_type block =? 0)%Z then
              concat
                (map (fun line =>
                        omap (fun span =>
                                match strip (span_text span) with
                                | [] => None
                                | _ =>
                                    Some {|
                                      ls_text := span_text span;
                                      ls_bbox := span_bbox span;
                                      line_y := round_to 1 (y0 (line_bbox line));
                                      ls_font_size := default 0 (span_size span);
                                      ls_font_name :=
                                        default EmptyString (span_font span)
                                    |}
                                end)
                             (spans line))
                     (lines block))
            else [])
         data).

(** The conversion to the final format; the ["id"] key is set at the end
    and is 0 until then. *)
Definition to_block (block : LineSpan) : option Block :=
  match strip (ls_text block) with
  | [] => None
  | stripped =>
      let name := lower (ls_font_name block) in
      Some {| text := stripped;
              bbox :=
                mkBBox (round_to 2 (x0 (ls_bbox block)))
                  (round_to 2 (y0 (ls_bbox block)))
                  (round_to 2 (x1 (ls_bbox block)))
                  (round_to 2 (y1 (ls_bbox block)));
              font_size := round_to 2 (ls_font_size block);
              font_name := ls_font_name block;
              is_bold := contains "bold" name || contains "heavy" name;
              id := 0%nat |}
  end.

(** [extract_page_blocks(page)] on [data = page.get_text("dict")["blocks"]]. *)
Definition extract_page_blocks (data : list PageItem) : list Block :=
  let raw_spans :=
    sort_by Qpair_leb (fun s => (line_y s, x0 (ls_bbox s)))
      (collect_spans data) in
  let blocks := merge_spans raw_spans in
  let result := omap to_block blocks in
  let result :=
    sort_by Qpair_leb (fun b => (y0 (bbox b), x0 (bbox b))) result in
  let result := merge_continuation_blocks result 15 5 in
  map (fun '(i, block) => set_id block i) (enumerate result).

End Text.

End PageBlocks.

Import TableRegions PageBlocks.

(** * Further statement vocabulary *)

(** *** Row groups *)

(** The least number of rows [group_consecutive_rows] accepts for a group
    with the given hint. *)
Definition min_group_size (h : group_hint) : nat :=
  match h with h_grid => 3%nat | _ => 2%nat end.

(** The group's rows are [row_count] consecutive rows among the first [n]. *)
Definition is_run (n : nat) (g : RowGroup) : Prop :=
  ∃ start,
    row_indices g = seq start (row_count g)
    ∧ (start + row_count g ≤ n)%nat.

(** Every row of the first group comes before every row of the second. *)
Definition rows_before (g g' : RowGroup) : Prop :=
  ∀ a b, a ∈ row_indices g → b ∈ row_indices g' → (a < b)%nat.

(** What [finalize_group] keeps true of the groups closed so far, when the
    rows seen are the first [upper] rows. *)
Definition groups_closed (upper : nat) (groups : list RowGroup) : Prop :=
  map group_id groups = seq 0 (length groups)
  ∧ Forall (λ g, grid g = None
                 ∧ is_run upper g
                 ∧ (min_group_size (hint g) ≤ row_count g)%nat) groups
  ∧ StronglySorted rows_before groups.

(** *** Detections *)

(** Width and height of a detection's raster box. *)
Definition box_width (c : Control) : Z := (x1 (c_bbox c) - x0 (c_bbox c))%Z.
Definition box_height (c : Control) : Z := (y1 (c_bbox c) - y0 (c_bbox c))%Z.

(** The raster box of a bounding rectangle [(x, y, w, h)]. *)
Definition rect_box (r : Rect) : BBox Z :=
  mkBBox (rect_x r) (rect_y r) (rect_x r + rect_w r)%Z (rect_y r + rect_h r)%Z.

(** *** Lines and bands *)

(** Band [a] ends above the start of band [b], at least [min_gap] rows away. *)
Definition band_above (min_gap : Z) (a b : Band) : Prop :=
  (band_y1 a < band_y0 b)%Z ∧ (min_gap ≤ band_y0 b - band_y1 a)%Z.

(** A band of at least [min_row_height] rows within the rows [lo .. hi]. *)
Definition band_within (min_row_height lo hi : Z) (b : Band) : Prop :=
  (lo ≤ band_y0 b)%Z ∧ (band_y0 b < band_y1 b)%Z ∧ (band_y1 b ≤ hi)%Z
  ∧ (min_row_height ≤ band_y1 b - band_y0 b)%Z.

(** Region [r] lies above region [r'], more than [min_gap] away. *)
Definition region_above (min_gap : Z) (r r' : Z * Z) : Prop :=
  (snd r ≤ fst r')%Z ∧ (snd r + min_gap < fst r')%Z.

(** The position [y] lies in the region. *)
Definition in_region (y : Z) (r : Z * Z) : Prop := (fst r ≤ y ≤ snd r)%Z.

(** *** Cell grids *)

(** [cells[r][c]] when it exists. *)
Definition cell_at (cells : list (list Cell)) (r c : nat) : option Cell :=
  cells !! r ≫= (.!! c).

(** The cell's box spans column [c] and row [r] of the boundaries. *)
Definition spans_boundaries (g : CellGrid) (r c : nat) (cell : Cell) : Prop :=
  col_boundaries g !! c = Some (x0 (cell_bbox cell))
  ∧ col_boundaries g !! S c = Some (x1 (cell_bbox cell))
  ∧ row_boundaries g !! r = Some (y0 (cell_bbox cell))
  ∧ row_boundaries g !! S r = Some (y1 (cell_bbox cell)).

(** What [assign_text_to_cells] leaves untouched in a cell. *)
Definition cell_frame (cell : Cell) : nat * nat * BBox Z :=
  (row cell, col cell, cell_bbox cell).

(** The blocks held by the cells of a row, and of a grid in row-major
    order. *)
Definition placed_in_row (cell_row : list Cell) : list Block :=
  concat (map (λ cell, default [] (content cell)) cell_row).
Definition placed (cells : list (list Cell)) : list Block :=
  concat (map placed_in_row cells).

(** The cell has content, and each of its blocks has its centre in the
    cell's box. *)
Definition holds_its_blocks (scale_factor : Q) (cell : Cell) : Prop :=
  ∃ blocks, content cell = Some blocks
            ∧ Forall (λ b, block_in_cell scale_factor b cell = true) blocks.

(** *** Spans *)

(** [len(cells[0]) if cells else 0]. *)
Definition grid_width (cells : list (list Cell)) : nat :=
  match cells with [] => 0%nat | cell_row :: _ => length cell_row end.

(** The positions [detect_spans] visits, in its order. *)
Definition row_major (num_rows num_cols : nat) : list (nat * nat) :=
  concat (map (λ r, map (λ c, (r, c)) (seq 0 num_cols)) (seq 0 num_rows)).

Definition span_start (s : Span) : nat * nat := (s_row s, s_col s).

(** The span starts at a cell of the grid, carries that cell's content and
    box, and its rectangle stays inside the grid. *)
Definition span_in_grid (cells : list (list Cell)) (num_rows num_cols : nat)
    (s : Span) : Prop :=
  (1 ≤ rowspan s)%nat ∧ (1 ≤ colspan s)%nat
  ∧ (s_row s + rowspan s ≤ num_rows)%nat
  ∧ (s_col s + colspan s ≤ num_cols)%nat
  ∧ ∃ cell, cell_at cells (s_row s) (s_col s) = Some cell
            ∧ content cell = Some (s_content s)
            ∧ s_bbox s = cell_bbox cell
            ∧ is_empty s = (length (s_content s) =? 0)%nat.

(** [consumed[r][c]] when it exists. *)
Definition flag (consumed : list (list bool)) (r c : nat) : option bool :=
  consumed !! r ≫= (.!! c).

(** What the double loop of [detect_spans] keeps true of its state. *)
Definition spans_state_ok (cells : list (list Cell)) (num_rows num_cols : nat)
    (st : list (list bool) * list Span) : Prop :=
  length (fst st) = num_rows
  ∧ Forall (λ flags, length flags = num_cols) (fst st)
  ∧ (∀ r c, flag (fst st) r c = Some true →
            Exists (λ s, (r, c) ∈ covered s) (snd st))
  ∧ Forall (span_in_grid cells num_rows num_cols) (snd st).

(** *** Page record, again *)

(** The sum of the counts of a ["row_types"] histogram. *)
Definition histogram_total (row_types : list (option row_type * nat)) : nat :=
  list_sum (map snd row_types).

(** Row [r] lies above row [r'] and they share no block. *)
Definition row_above (r r' : Row) : Prop :=
  (y_max r <= y_min r')%Q ∧ ∀ b, b ∈ blocks r → b ∉ blocks r'.

(** *** Text blocks *)

(** [" ".join(texts)]. *)
Fixpoint join_texts (texts : list str) : str :=
  match texts with
  | [] => []
  | t :: rest =>
      match rest with
      | [] => t
      | _ => t ++ [32%N] ++ join_texts rest
      end
  end.

(** What merging continuation blocks leaves of a block that starts a merged
    block: everything but the text and the right and bottom edges. *)
Definition block_frame (b : Block) : Q * Q * Q * string * bool * nat :=
  (x0 (bbox b), y0 (bbox b), font_size b, font_name b, is_bold b, id b).

(** Block [a] is not after block [b] in reading order: by top edge, then by
    left edge. *)
Definition reading_order (a b : Block) : Prop :=
  (y0 (bbox a) < y0 (bbox b))%Q
  ∨ ((y0 (bbox a) == y0 (bbox b))%Q ∧ (x0 (bbox a) <= x0 (bbox b))%Q).

(** The text is not empty and neither starts nor ends with white space. *)
Definition trimmed `{UnicodeData} (s : str) : Prop :=
  match s with [] => False | c :: _ => isspace c = false end
  ∧ match rev s with [] => False | c :: _ => isspace c = false end.

(** The spans of the text blocks of a page, in page order. *)
Definition text_spans (data : list PageItem) : list RawSpan :=
  concat (map (λ block,
                 if (item_type block =? 0)%Z
                 then concat (map spans (lines block)) else [])
              data).

(** The sort key of a block: top edge, then left edge. *)
Definition reading_key (b : Block) : Q * Q := (y0 (bbox b), x0 (bbox b)).

(** Tuple [p] is not after tuple [q]. *)
Definition pair_le (p q : Q * Q) : Prop :=
  (fst p < fst q)%Q ∨ ((fst p == fst q)%Q ∧ (snd p <= snd q)%Q).

(** *** Table regions *)

(** Two tables side by side, 200 pixels apart: each has two horizontal
    lines 100 pixels long and two vertical lines. *)
Definition side_by_side_h : list HLine :=
  [mkHLine 0 0 100; mkHLine 0 300 400; mkHLine 50 0 100; mkHLine 50 300 400].
Definition side_by_side_v : list VLine :=
  [mkVLine 0 0 50; mkVLine 100 0 50; mkVLine 300 0 50; mkVLine 400 0 50].

(** * Properties *)

(** ** Spans (detect_controls.py) *)

(** C6: on the 2 x 2 grid with text at (0,1) and (1,0), [detect_spans]
    returns three spans; the span of (0,1) runs down over (1,1), the span of
    (1,0) runs right over (1,1): the cell (1,1) is covered by two spans, so
    the spans are not pairwise disjoint. *)
Theorem detect_spans_double_counts :
  ∃ s0 s1 s2,
    detect_spans crossing_grid = Ok [s0; s1; s2]
    ∧ (s_row s1, s_col s1, rowspan s1, colspan s1) = (0, 1, 2, 1)%nat
    ∧ (s_row s2, s_col s2, rowspan s2, colspan s2) = (1, 0, 1, 2)%nat
    ∧ (1, 1)%nat ∈ covered s1
    ∧ (1, 1)%nat ∈ covered s2.
Proof.
  eexists _, _, _. split; [vm_compute; reflexivity|].
  repeat split; vm_compute; repeat constructor.
Qed.

(** ** Degenerate input *)


(** The other stages of the pipeline on zero-length input. *)
Lemma more_stages_on_zero_length_input :
  (∀ x_tolerance, group_consecutive_rows [] x_tolerance = [])
  ∧ (∀ tolerance, infer_grid_columns [] tolerance = [])
  ∧ (∀ row, map_row_to_grid row [] = [])
  ∧ (∀ rows, apply_grid_to_row_group rows [] = None)
  ∧ (∀ x_tolerance, detect_columns [] x_tolerance = [])
  ∧ compute_stats [] = None
  ∧ (∀ blocks scale_factor,
       assign_blocks_to_bands blocks [] scale_factor = Ok None)
  ∧ (∀ blocks scale_factor,
       map_controls_to_blocks [] blocks scale_factor = Ok [])
  ∧ (∀ blocks scale_factor page_width min_size_pt,
       filter_valid_controls [] blocks scale_factor page_width min_size_pt
       = Ok []).
Proof. repeat split; reflexivity. Qed.

(** Not a zero-length input of span detection: a grid built from lines that
    [assign_text_to_cells] returned as it was because there was no block.  Its
    cells have no ["content"] key and [detect_spans] raises on the first. *)
Remark detect_spans_without_content :
  assign_text_to_cells (build_cell_grid_from_lines lattice_h lattice_v 10) [] 1
  = build_cell_grid_from_lines lattice_h lattice_v 10
  ∧ detect_spans (build_cell_grid_from_lines lattice_h lattice_v 10)
    = Raise (KeyError "content").
Proof. split; vm_compute; reflexivity. Qed.

(** ** Grid mapping (extract_layout.py) *)

Lemma overlap_cols_started bx0 bx1 columns i s e :
  fst (overlap_cols bx0 bx1 columns i (Some s) e) = Some s.
Proof.
  revert i e. induction columns as [|[cx0 cx1] columns IH]; intros i e; simpl.
  - reflexivity.
  - destruct (_ && _); apply IH.
Qed.

Lemma overlap_cols_find block columns i e :
  fst (overlap_cols (x0 (bbox block)) (x1 (bbox block)) columns i None e)
  = (λ p, (i + p.1)%nat)
      <$> list_find (λ c, overlaps_column block c = true) columns.
Proof.
  revert i e. induction columns as [|[cx0 cx1] columns IH]; intros i e; simpl.
  - reflexivity.
  - change (Qltb (x0 (bbox block)) cx1 && Qgtb (x1 (bbox block)) cx0)
      with (overlaps_column block (cx0, cx1)).
    case_decide as Hov.
    + rewrite Hov, overlap_cols_started. simpl. f_equal. lia.
    + apply not_true_is_false in Hov. rewrite Hov.
      rewrite IH. destruct (list_find _ columns) as [[j c]|]; simpl.
      * f_equal. lia.
      * reflexivity.
Qed.

(** [start_col_of] is the index of the first column the block overlaps. *)
Lemma start_col_of_first block columns i :
  start_col_of block columns = Some i
  ↔ (∃ c, columns !! i = Some c ∧ overlaps_column block c = true)
    ∧ ∀ j c, columns !! j = Some c → (j < i)%nat →
             overlaps_column block c = false.
Proof.
  unfold start_col_of. rewrite overlap_cols_find. split.
  - destruct (list_find _ columns) as [[j c]|] eqn:Hfind; [|discriminate].
    simpl. intros [= <-]. apply list_find_Some in Hfind as (Hj & Hc & Hmin).
    split; [eauto|]. intros k d Hk Hlt.
    specialize (Hmin k d Hk Hlt). destruct (overlaps_column block d); congruence.
  - intros [(c & Hc & Hov) Hmin].
    assert (list_find (λ c, overlaps_column block c = true) columns
            = Some (i, c)) as ->; [|reflexivity].
    apply list_find_Some. repeat split; [assumption..|].
    intros k d Hk Hlt. rewrite (Hmin k d Hk Hlt). discriminate.
Qed.

Lemma start_col_of_none block columns :
  start_col_of block columns = None
  ↔ ∀ c, c ∈ columns → overlaps_column block c = false.
Proof.
  unfold start_col_of. rewrite overlap_cols_find, fmap_None, list_find_None.
  rewrite Forall_forall. split; intros Hall c Hc; specialize (Hall c Hc).
  - destruct (overlaps_column block c); congruence.
  - rewrite Hall. discriminate.
Qed.

Lemma place_block_length columns cells block :
  length (place_block columns cells block) = length cells.
Proof.
  unfold place_block. destruct (start_col_of _ _); [apply length_insert|reflexivity].
Qed.

Lemma fold_place_block_length columns bs cells :
  length (fold_left (place_block columns) bs cells) = length cells.
Proof.
  revert cells. induction bs as [|b bs IH]; intros cells; simpl; [reflexivity|].
  rewrite IH. apply place_block_length.
Qed.

(** After the loop a cell holds the last block that starts at its column, or
    what it held before if no block does. *)
Lemma fold_place_block_lookup columns bs cells i :
  (i < length cells)%nat →
  fold_left (place_block columns) bs cells !! i
  = match last (List.filter (starts_at columns i) bs) with
    | Some b => Some (Some b)
    | None => cells !! i
    end.
Proof.
  intros Hi. induction bs as [|b bs IH] using rev_ind; [reflexivity|].
  rewrite fold_left_app, List.filter_app; simpl.
  unfold place_block at 1.
  assert (starts_at columns i b
          = match start_col_of b columns with
            | Some j => (j =? i)%nat
            | None => false
            end) as -> by reflexivity.
  destruct (start_col_of b columns) as [j|] eqn:Hstart; simpl.
  - destruct (Nat.eqb_spec j i) as [->|Hne].
    + rewrite last_snoc. apply list_lookup_insert_eq.
      rewrite fold_place_block_length. exact Hi.
    + rewrite app_nil_r, list_lookup_insert_ne by exact Hne. exact IH.
  - rewrite app_nil_r. exact IH.
Qed.

Lemma count_blocks_insert cells i b :
  (count_blocks (<[i := Some b]> cells) ≤ S (count_blocks cells))%nat.
Proof.
  unfold count_blocks. revert i.
  induction cells as [|c cells IH]; intros [|i]; cbn.
  - lia.
  - lia.
  - clear IH. destruct c; cbn; lia.
  - destruct c; cbn; [apply le_n_S|]; apply IH.
Qed.

Lemma count_blocks_fold columns bs cells :
  (count_blocks (fold_left (place_block columns) bs cells)
   ≤ count_blocks cells + length bs)%nat.
Proof.
  revert cells. induction bs as [|b bs IH]; intros cells; simpl; [lia|].
  etransitivity; [apply IH|].
  unfold place_block. destruct (start_col_of b columns) as [j|]; [|lia].
  pose proof (count_blocks_insert cells j b). lia.
Qed.

Lemma count_blocks_replicate n : count_blocks (replicate n None) = 0%nat.
Proof. unfold count_blocks. induction n; simpl; auto. Qed.

(** C10: the mapped row has one cell per column, each holding at most one
    block; a block is stored only at the first column it overlaps; the cell
    of a column holds the last block of the row (in block order) whose first
    overlapping column it is, so an earlier block with the same first column
    is replaced; the mapped row never holds more blocks than the row, and can
    hold strictly fewer. *)
Theorem map_row_to_grid_keeps_last_per_column :
  (∀ row columns,
     length (map_row_to_grid row columns) = length columns
     ∧ (∀ i, (i < length columns)%nat →
          map_row_to_grid row columns !! i
          = Some (last (List.filter (starts_at columns i) (blocks row))))
     ∧ (count_blocks (map_row_to_grid row columns) ≤ length (blocks row))%nat)
  ∧ (∀ block columns i,
       starts_at columns i block = true
       ↔ (∃ c, columns !! i = Some c ∧ overlaps_column block c = true)
         ∧ ∀ j c, columns !! j = Some c → (j < i)%nat →
                  overlaps_column block c = false)
  ∧ (count_blocks (map_row_to_grid crowded_row two_columns)
     < length (blocks crowded_row))%nat.
Proof.
  split; [|split].
  - intros row columns. unfold map_row_to_grid.
    destruct columns as [|c columns].
    { split; [reflexivity|]. split; [intros i Hi; inversion Hi|].
      apply Nat.le_0_l. }
    set (cols := c :: columns). split; [|split].
    + rewrite fold_place_block_length. apply length_replicate.
    + intros i Hi. rewrite fold_place_block_lookup
        by (rewrite length_replicate; exact Hi).
      destruct (last _); [reflexivity|].
      apply lookup_replicate_2. exact Hi.
    + pose proof (count_blocks_fold cols (blocks row)
                    (replicate (length cols) None)) as Hle.
      rewrite count_blocks_replicate in Hle. exact Hle.
  - intros block columns i. rewrite <- start_col_of_first. unfold starts_at.
    destruct (start_col_of block columns) as [j|]; [|split; discriminate].
    destruct (Nat.eqb_spec j i); split; congruence.
  - vm_compute. lia.
Qed.

(** ** Python primitives *)

(** [round] goes to the even neighbour on a tie, [int] truncates. *)
Example round_half_to_even :
  map round [0.5; 1.5; 2.5; -0.5; -1.5; 41.5; 2.4; 2.6]%Q
  = [0; 2; 2; 0; -2; 42; 2; 3]%Z.
Proof. reflexivity. Qed.

Example int_truncates : map int [2.78; -2.78; 27.8]%Q = [2; -2; 27]%Z.
Proof. reflexivity. Qed.

(** Sorting is stable in both directions. *)
Example sorted_is_stable :
  sorted fst [(2, 1); (1, 2); (2, 3); (1, 4)]%Q
  = [(1, 2); (1, 4); (2, 1); (2, 3)]%Q
  ∧ sorted_reverse fst [(1, 1); (2, 2); (1, 3); (2, 4)]%Q
    = [(2, 2); (2, 4); (1, 1); (1, 3)]%Q.
Proof. split; reflexivity. Qed.

Example counter_counts :
  Counter [210; 15; 210; 210; 15]%Z = [(210%Z, 3%nat); (15%Z, 2%nat)].
Proof. reflexivity. Qed.

Section QBool.
Local Open Scope Q_scope.

Lemma Qltb_lt a b : Qltb a b = true ↔ a < b.
Proof.
  unfold Qltb. rewrite negb_true_iff, <- not_true_iff_false, Qle_bool_iff.
  split; [apply Qnot_le_lt|apply Qlt_not_le].
Qed.

Lemma Qltb_ge a b : Qltb a b = false ↔ b <= a.
Proof. unfold Qltb. rewrite negb_false_iff. apply Qle_bool_iff. Qed.

Lemma Qgtb_gt a b : Qgtb a b = true ↔ b < a.
Proof. apply Qltb_lt. Qed.

Lemma Qgtb_le a b : Qgtb a b = false ↔ a <= b.
Proof. apply Qltb_ge. Qed.

Lemma Qgeb_ge a b : Qgeb a b = true ↔ b <= a.
Proof. apply Qle_bool_iff. Qed.

Lemma fdiv_ok a b : ¬ b == 0 → fdiv a b = Ok (a / b).
Proof.
  intros Hb. unfold fdiv. destruct (Qeq_bool b 0) eqn:E; [|reflexivity].
  apply Qeq_bool_iff in E. contradiction.
Qed.

Lemma fdiv_zero a b : b == 0 → fdiv a b = Raise ZeroDivisionError.
Proof. intros Hb. unfold fdiv. apply Qeq_bool_iff in Hb. rewrite Hb. reflexivity. Qed.

End QBool.

Section Sorting.
Context {A K : Type} (leb : K → K → bool) (key : A → K).
Hypothesis leb_total : ∀ a b, leb a b = false → leb b a = true.
Hypothesis leb_trans : ∀ a b c, leb a b = true → leb b c = true → leb a c = true.

Lemma insert_by_perm a l : insert_by leb key a l ≡ₚ a :: l.
Proof.
  induction l as [|b l IH]; simpl; [reflexivity|].
  destruct (leb (key b) (key a)); [|reflexivity].
  rewrite IH. apply Permutation_swap.
Qed.

Lemma sort_by_perm l : sort_by leb key l ≡ₚ l.
Proof.
  unfold sort_by.
  enough (∀ acc, fold_left (λ acc a, insert_by leb key a acc) l acc ≡ₚ l ++ acc)
    as Hgen by (rewrite Hgen, app_nil_r; reflexivity).
  induction l as [|a l IH]; intros acc; simpl; [reflexivity|].
  rewrite IH, insert_by_perm. symmetry. apply Permutation_middle.
Qed.

Lemma insert_by_sorted a l :
  StronglySorted (in_order leb key) l → StronglySorted (in_order leb key) (insert_by leb key a l).
Proof using leb_total leb_trans.
  induction 1 as [|b l Hl IH Hb]; simpl.
  - repeat constructor.
  - destruct (leb (key b) (key a)) eqn:Hba.
    + constructor; [exact IH|].
      rewrite insert_by_perm. constructor; assumption.
    + apply leb_total in Hba. constructor; [constructor; assumption|].
      constructor; [exact Hba|].
      eapply Forall_impl; [exact Hb|].
      intros c Hc. exact (leb_trans _ _ _ Hba Hc).
Qed.

Lemma sort_by_sorted l : StronglySorted (in_order leb key) (sort_by leb key l).
Proof using leb_total leb_trans.
  unfold sort_by.
  enough (∀ acc, StronglySorted (in_order leb key) acc →
            StronglySorted (in_order leb key)
              (fold_left (λ acc a, insert_by leb key a acc) l acc))
    as Hgen by (apply Hgen; constructor).
  induction l as [|a l IH]; intros acc Hacc; simpl; [exact Hacc|].
  apply IH, insert_by_sorted, Hacc.
Qed.

End Sorting.

Lemma StronglySorted_weaken {A} (R S : A → A → Prop) l :
  (∀ a b, R a b → S a b) → StronglySorted R l → StronglySorted S l.
Proof.
  intros HRS. induction 1 as [|a l Hl IH Ha]; constructor; [exact IH|].
  eapply Forall_impl; [exact Ha|]. intros b. apply HRS.
Qed.

Lemma sorted_reverse_perm {A} (key : A → Q) l : sorted_reverse key l ≡ₚ l.
Proof. apply sort_by_perm. Qed.

Lemma sorted_reverse_descending {A} (key : A → Q) l :
  StronglySorted (λ a b, (key b <= key a)%Q) (sorted_reverse key l).
Proof.
  eapply StronglySorted_weaken; [|apply sort_by_sorted].
  - intros a b Hab. apply Qgeb_ge in Hab. exact Hab.
  - intros a b Hab. unfold Qgeb in *.
    apply Qle_bool_iff, Qlt_le_weak, Qnot_le_lt.
    intros Hle. apply Qle_bool_iff in Hle. congruence.
  - intros a b c. unfold Qgeb. rewrite !Qle_bool_iff. intros; eapply Qle_trans; eauto.
Qed.

(** ** Overlap removal (detect_controls.py) *)

Section RemoveOverlapping.
Local Open Scope Q_scope.

Lemma iou_sym a b : iou a b = iou b a.
Proof.
  unfold iou.
  rewrite (Z.max_comm (x0 b) (x0 a)), (Z.max_comm (y0 b) (y0 a)),
    (Z.min_comm (x1 b) (x1 a)), (Z.min_comm (y1 b) (y1 a)),
    (Z.add_comm ((x1 b - x0 b) * (y1 b - y0 b))).
  reflexivity.
Qed.

(** For a threshold that is not negative the loop's test is [iou > threshold]. *)
Lemma overlaps_iou thr a b : 0 <= thr → overlaps thr a b = Qgtb (iou a b) thr.
Proof.
  intros Hthr. unfold overlaps, iou. cbv zeta.
  destruct (_ && _); [reflexivity|].
  symmetry. apply Qgtb_le. exact Hthr.
Qed.

Variable thr : Q.

Lemma ForallOrdPairs_snoc {A} (R : A → A → Prop) l c :
  ForallOrdPairs R l → Forall (λ a, R a c) l → ForallOrdPairs R (l ++ [c]).
Proof.
  induction 1 as [|a l Ha Hl IH]; intros Hc; simpl.
  - repeat constructor.
  - apply Forall_cons in Hc as [Hac Hc]. constructor; [|apply IH, Hc].
    apply Forall_app; split; [exact Ha|]. repeat constructor. exact Hac.
Qed.

Lemma ForallOrdPairs_lookup {A} (R : A → A → Prop) l i j a b :
  ForallOrdPairs R l → (i < j)%nat → l !! i = Some a → l !! j = Some b → R a b.
Proof.
  intros Hl. revert i j. induction Hl as [|c l Hc Hl IH]; intros i j Hij Hi Hj.
  - discriminate.
  - destruct j as [|j]; [lia|]. destruct i as [|i]; simpl in *.
    + injection Hi as <-. rewrite Forall_forall in Hc. apply Hc.
      eapply list_elem_of_lookup_2. exact Hj.
    + apply (IH i j); [lia|assumption..].
Qed.

Lemma existsb_overlaps_false control keep :
  existsb (λ kept, overlaps thr (c_bbox control) (c_bbox kept)) keep = false →
  Forall (λ kept, apart thr kept control) keep.
Proof.
  intros Hex. apply Forall_forall. intros kept Hin.
  unfold apart. destruct (overlaps _ _ _) eqn:E; [|reflexivity].
  rewrite <- Hex. symmetry. apply existsb_exists. exists kept.
  split; [apply list_elem_of_In; exact Hin|exact E].
Qed.

Lemma loop_apart controls keep :
  ForallOrdPairs (apart thr) keep →
  ForallOrdPairs (apart thr) (remove_overlapping_loop thr controls keep).
Proof.
  revert keep. induction controls as [|c controls IH]; intros keep Hkeep; simpl.
  - exact Hkeep.
  - destruct (existsb _ keep) eqn:Hex; [apply IH, Hkeep|].
    apply IH, ForallOrdPairs_snoc; [exact Hkeep|].
    apply existsb_overlaps_false, Hex.
Qed.

(** The loop only appends, and what it appends is a sublist of its input. *)
Lemma loop_sublist controls keep :
  ∃ kept, remove_overlapping_loop thr controls keep = keep ++ kept
          ∧ kept `sublist_of` controls.
Proof.
  revert keep. induction controls as [|c controls IH]; intros keep; simpl.
  - exists []. rewrite app_nil_r. split; [reflexivity|constructor].
  - destruct (existsb _ keep).
    + destruct (IH keep) as (kept & -> & Hsub).
      exists kept. split; [reflexivity|]. apply sublist_cons, Hsub.
    + destruct (IH (keep ++ [c])) as (kept & -> & Hsub).
      exists (c :: kept). rewrite <- app_assoc. split; [reflexivity|].
      apply sublist_skip, Hsub.
Qed.

Lemma loop_keeps controls keep k :
  k ∈ keep → k ∈ remove_overlapping_loop thr controls keep.
Proof.
  intros Hk. destruct (loop_sublist controls keep) as (kept & -> & _).
  apply elem_of_app. left. exact Hk.
Qed.

(** A detection of the sorted input is kept, or it fails the test against a
    kept detection of at least its confidence. *)
Lemma loop_maximal controls keep :
  StronglySorted (λ a b, confidence b <= confidence a) controls →
  Forall (λ k, Forall (λ c, confidence c <= confidence k) controls) keep →
  ∀ c, c ∈ controls →
    c ∈ remove_overlapping_loop thr controls keep
    ∨ ∃ k, k ∈ remove_overlapping_loop thr controls keep
           ∧ overlaps thr (c_bbox c) (c_bbox k) = true
           ∧ confidence c <= confidence k.
Proof.
  revert keep.
  induction controls as [|c0 controls IH]; intros keep Hsorted Hkeep c Hc.
  - inversion Hc.
  - apply StronglySorted_inv in Hsorted as [Hsorted Hc0]. simpl.
    assert (Forall (λ k, Forall (λ c, confidence c <= confidence k) controls)
              keep) as Hkeep'.
    { eapply Forall_impl; [exact Hkeep|].
      intros k Hk. apply Forall_cons in Hk as [_ Hk]. exact Hk. }
    destruct (existsb _ keep) eqn:Hex.
    + apply elem_of_cons in Hc as [->|Hc]; [|apply IH; assumption].
      right. apply existsb_exists in Hex as (k & Hk & Hov).
      apply list_elem_of_In in Hk. exists k.
      split; [apply loop_keeps, Hk|]. split; [exact Hov|].
      rewrite Forall_forall in Hkeep. specialize (Hkeep k Hk).
      apply Forall_cons in Hkeep as [Hle _]. exact Hle.
    + apply elem_of_cons in Hc as [->|Hc].
      * left. apply loop_keeps, elem_of_app. right. apply list_elem_of_singleton.
        reflexivity.
      * apply IH; [exact Hsorted| |exact Hc].
        apply Forall_app. split; [exact Hkeep'|].
        repeat constructor. exact Hc0.
Qed.

End RemoveOverlapping.

(** C5 (as amended): [remove_overlapping] works on the detections sorted by
    confidence, highest first; what it keeps is a sublist of that order; any two
    kept detections have an IoU of at most the threshold; and a detection that
    is not kept has an IoU above the threshold with a kept detection of at
    least its confidence.  Checkbox detections go through it with threshold
    0.3 and input-box detections with threshold 0.5; radio-button detections
    are returned as accepted, without this step. *)
Theorem remove_overlapping_iou_at_most_threshold :
  (∀ controls iou_threshold,
     (0 <= iou_threshold)%Q →
     let ordered := sorted_reverse confidence controls in
     let keep := remove_overlapping controls iou_threshold in
     ordered ≡ₚ controls
     ∧ StronglySorted (λ a b, (confidence b <= confidence a)%Q) ordered
     ∧ keep `sublist_of` ordered
     ∧ (∀ i j a b, i ≠ j → keep !! i = Some a → keep !! j = Some b →
          (iou (c_bbox a) (c_bbox b) <= iou_threshold)%Q)
     ∧ (∀ c, c ∈ controls →
          c ∈ keep
          ∨ ∃ k, k ∈ keep
                 ∧ (iou_threshold < iou (c_bbox c) (c_bbox k))%Q
                 ∧ (confidence c <= confidence k)%Q))
  ∧ (∀ image min_size max_size,
       detect_checkboxes image min_size max_size
       = remove_overlapping
           (omap (checkbox_of_contour min_size max_size) (binary_contours image))
           0.3)
  ∧ (∀ image min_width min_height max_height,
       detect_input_boxes image min_width min_height max_height
       = remove_overlapping
           (omap (input_of_contour min_width min_height max_height)
              (edge_contours image))
           0.5)
  ∧ (∀ image circles,
       hough_circles image = Some circles →
       detect_radio_buttons image = omap (radio_of_circle image) circles).
Proof.
  split; [|split; [reflexivity|split; [reflexivity|]]].
  2: { intros image circles Hc. unfold detect_radio_buttons. rewrite Hc.
       reflexivity. }
  intros controls thr Hthr ordered keep.
  assert (keep = remove_overlapping_loop thr ordered []) as Hkeep.
  { subst keep ordered. unfold remove_overlapping.
    destruct controls; reflexivity. }
  split; [apply sorted_reverse_perm|].
  split; [apply sorted_reverse_descending|].
  split; [|split].
  - destruct (loop_sublist thr ordered []) as (kept & Heq & Hsub).
    rewrite Hkeep, Heq. exact Hsub.
  - assert (ForallOrdPairs (apart thr) keep) as Hpairs.
    { rewrite Hkeep. apply loop_apart. constructor. }
    assert (∀ i j a b, (i < j)%nat → keep !! i = Some a → keep !! j = Some b →
              (iou (c_bbox a) (c_bbox b) <= thr)%Q) as Hlt.
    { intros i j a b Hij Ha Hb.
      pose proof (ForallOrdPairs_lookup _ _ _ _ _ _ Hpairs Hij Ha Hb) as Hap.
      unfold apart in Hap. rewrite overlaps_iou in Hap by exact Hthr.
      apply Qgtb_le in Hap. rewrite iou_sym. exact Hap. }
    intros i j a b Hij Ha Hb.
    destruct (Nat.lt_total i j) as [Hlt'|[Heq|Hgt]].
    + eapply Hlt; eassumption.
    + contradiction.
    + rewrite iou_sym. eapply Hlt; eassumption.
  - intros c Hc.
    assert (c ∈ ordered) as Hc'.
    { subst ordered. rewrite sorted_reverse_perm. exact Hc. }
    destruct (loop_maximal thr ordered [] (sorted_reverse_descending _ _)
                (Forall_nil_2 _) c Hc') as [Hin|(k & Hk & Hov & Hconf)].
    + left. rewrite Hkeep. exact Hin.
    + right. exists k. rewrite Hkeep. split; [exact Hk|].
      split; [|exact Hconf].
      rewrite overlaps_iou in Hov by exact Hthr. apply Qgtb_gt in Hov.
      exact Hov.
Qed.

(** The theorem at three wide boxes and threshold 0.5: the first two are
    kept (their IoU is exactly 0.5), the third is not. *)
Lemma remove_overlapping_iou_witness :
  (0 <= 0.5)%Q
  ∧ remove_overlapping three_wide_boxes 0.5 = [wide_box 0 300; wide_box 100 400]
  ∧ ∀ i j a b, i ≠ j →
      remove_overlapping three_wide_boxes 0.5 !! i = Some a →
      remove_overlapping three_wide_boxes 0.5 !! j = Some b →
      (iou (c_bbox a) (c_bbox b) <= 0.5)%Q.
Proof.
  assert (0 <= 0.5)%Q as Hthr by (unfold Qle; simpl; lia).
  split; [exact Hthr|]. split; [vm_compute; reflexivity|].
  exact (proj1 (proj2 (proj2 (proj2
    (proj1 remove_overlapping_iou_at_most_threshold three_wide_boxes 0.5%Q
       Hthr))))).
Defined.

(** C5 as stated fails at the boundary: the two input boxes detected on
    [half_overlap_image] are both kept although their IoU equals the
    threshold 0.5, so the later one is kept without its IoU being below it. *)
Lemma kept_at_threshold :
  input_boxes (detect_all_controls half_overlap_image)
  = [wide_box 0 300; wide_box 100 400]
  ∧ (iou (c_bbox (wide_box 100 400)) (c_bbox (wide_box 0 300)) == 0.5)%Q.
Proof. split; vm_compute; reflexivity. Qed.

(** ** Label association (combined_extractor.py) *)

Section Labels.
Local Open Scope Q_scope.
Variables pdf_x0 pdf_y0 : Q.





End Labels.

Lemma mapM'_total {A B} (f : A → result B) (g : A → B) xs :
  (∀ x, x ∈ xs → f x = Ok (g x)) → mapM' f xs = Ok (map g xs).
Proof.
  induction xs as [|x xs IH]; intros Hf; simpl; [reflexivity|].
  rewrite Hf by apply list_elem_of_here. simpl.
  rewrite IH by (intros y Hy; apply Hf, list_elem_of_further, Hy).
  reflexivity.
Qed.

Lemma map_control_ok blocks scale_factor c :
  ¬ (scale_factor == 0)%Q →
  ∃ m, map_control blocks scale_factor c = Ok m
       ∧ control m = c
       ∧ label_block_id m = id <$> label_of blocks scale_factor c
       ∧ label_text m = text <$> label_of blocks scale_factor c.
Proof.
  intros Hsf. unfold map_control. rewrite !fdiv_ok by exact Hsf. simpl.
  eexists. split; [reflexivity|]. simpl. auto.
Qed.




(** ** Page classification (extract_layout.py) *)

Section Classify.
Local Open Scope Q_scope.



End Classify.



(** ** Control validity (combined_extractor.py) *)








Lemma filterM_total keep (g : Control → bool) xs :
  (∀ x, keep x = Ok (g x)) → filterM keep xs = Ok (List.filter g xs).
Proof.
  intros Hkeep. induction xs as [|x xs IH]; simpl; [reflexivity|].
  rewrite Hkeep, IH. simpl. destruct (g x); reflexivity.
Qed.

Section Filter.
Local Open Scope Q_scope.
Variables (blocks : list Block) (scale_factor page_width : Q).
Hypothesis scale_nonzero : ¬ scale_factor == 0.

Lemma center_pt_ok c :
  center_pt c scale_factor
  = Ok (center_x scale_factor c, center_y scale_factor c).
Proof using scale_nonzero.
  unfold center_pt. rewrite !fdiv_ok by exact scale_nonzero. reflexivity.
Qed.

Lemma size_ok_valid min_size_pt c :
  size_ok scale_factor min_size_pt c
  = Ok (size_valid scale_factor min_size_pt c).
Proof using scale_nonzero.
  unfold size_ok. rewrite !fdiv_ok by exact scale_nonzero. reflexivity.
Qed.

Lemma keep_aligned_ok c :
  keep_aligned blocks scale_factor c
  = Ok (negb (inside_padded_text blocks scale_factor c)).
Proof using scale_nonzero.
  unfold keep_aligned. rewrite center_pt_ok. reflexivity.
Qed.

Lemma filter_length_le {A} (f : A → bool) l :
  (length (List.filter f l) ≤ length l)%nat.
Proof. induction l as [|a l IH]; simpl; [lia|]. destruct (f a); simpl; lia. Qed.


End Filter.




(** ** Totality of the fusion steps *)

Lemma mapM'_Forall2 {A B} (f : A → result B) xs ys :
  mapM' f xs = Ok ys → Forall2 (λ x y, f x = Ok y) xs ys.
Proof.
  revert ys. induction xs as [|x xs IH]; intros ys; simpl.
  - intros [= <-]. constructor.
  - destruct (f x) as [y|e] eqn:Hfx; [|discriminate]. simpl.
    destruct (mapM' f xs) as [ys'|e]; [|discriminate]. simpl.
    intros [= <-]. constructor; [exact Hfx|apply IH; reflexivity].
Qed.

Lemma filterM_elem keep xs ys :
  filterM keep xs = Ok ys → ∀ y, y ∈ ys → y ∈ xs.
Proof.
  revert ys. induction xs as [|x xs IH]; intros ys; simpl.
  - intros [= <-] y Hy. exact Hy.
  - destruct (keep x) as [k|e]; [|discriminate]. simpl.
    destruct (filterM keep xs) as [ys'|e]; [|discriminate]. simpl.
    intros [= <-] y Hy. destruct k.
    + apply elem_of_cons in Hy as [->|Hy]; [apply list_elem_of_here|].
      apply list_elem_of_further, (IH ys'); [reflexivity|exact Hy].
    + apply list_elem_of_further, (IH ys'); [reflexivity|exact Hy].
Qed.

Lemma existsb_filter {A} (f : A → bool) l :
  existsb f l = match List.filter f l with [] => false | _ => true end.
Proof.
  induction l as [|a l IH]; simpl; [reflexivity|].
  destruct (f a); [reflexivity|exact IH].
Qed.

Section Totality.
Local Open Scope Q_scope.
Variables (blocks : list Block) (scale_factor page_width : Q).
Hypothesis scale_nonzero : ¬ scale_factor == 0.

Lemma has_label_to_left_ok c max_gap_pt :
  has_label_to_left c blocks scale_factor max_gap_pt
  = Ok (labelled_left blocks scale_factor max_gap_pt c).
Proof using scale_nonzero.
  unfold has_label_to_left. rewrite !fdiv_ok by exact scale_nonzero.
  reflexivity.
Qed.

Lemma keep_strict_ok c :
  keep_strict blocks scale_factor page_width c
  = Ok (strict_valid blocks scale_factor page_width c).
Proof using scale_nonzero.
  unfold keep_strict, strict_valid, inside_padded_text.
  rewrite center_pt_ok by exact scale_nonzero. cbn [mbind result_bind].
  destruct (is_inside_text _ _ _); [reflexivity|].
  destruct (Qltb _ _); [|reflexivity].
  rewrite has_label_to_left_ok. reflexivity.
Qed.

Lemma check_controls_aligned_ok controls min_aligned tolerance_pt :
  ∃ aligned,
    check_controls_aligned controls scale_factor page_width min_aligned
      tolerance_pt = Ok aligned.
Proof using scale_nonzero.
  unfold check_controls_aligned. destruct (_ <? _)%nat; [eauto|].
  rewrite (mapM'_total _
             (λ c, (center_x scale_factor c, center_y scale_factor c)))
    by (intros c _; apply center_pt_ok, scale_nonzero).
  cbn [mbind result_bind]. eauto.
Qed.

(** The filter returns: the size-valid controls that pass the test of the
    pass taken. *)
Lemma filter_valid_controls_ok raw_controls min_size_pt :
  ∃ valid,
    filter_valid_controls raw_controls blocks scale_factor page_width
      min_size_pt = Ok valid
    ∧ (valid
       = List.filter (λ c, negb (inside_padded_text blocks scale_factor c))
           (List.filter (size_valid scale_factor min_size_pt) raw_controls)
       ∨ valid
         = List.filter (strict_valid blocks scale_factor page_width)
             (List.filter (size_valid scale_factor min_size_pt) raw_controls)).
Proof using scale_nonzero.
  unfold filter_valid_controls.
  rewrite (filterM_total _ (size_valid scale_factor min_size_pt))
    by (intros c; apply size_ok_valid, scale_nonzero).
  cbn [mbind result_bind].
  destruct (check_controls_aligned_ok
              (List.filter (size_valid scale_factor min_size_pt) raw_controls)
              3 5) as [aligned ->].
  cbn [mbind result_bind]. destruct aligned.
  - rewrite (filterM_total _
               (λ c, negb (inside_padded_text blocks scale_factor c)))
      by (intros c; apply keep_aligned_ok, scale_nonzero).
    eauto.
  - rewrite (filterM_total _ (strict_valid blocks scale_factor page_width))
      by (intros c; apply keep_strict_ok).
    eauto.
Qed.

Lemma compute_control_features_ok c :
  ∃ f, compute_control_features c scale_factor = Ok f.
Proof using scale_nonzero.
  unfold compute_control_features. rewrite !fdiv_ok by exact scale_nonzero.
  cbn [mbind result_bind]. eauto.
Qed.

Lemma map_controls_to_blocks_ok controls :
  ∃ mapped,
    map_controls_to_blocks controls blocks scale_factor = Ok mapped
    ∧ Forall2
        (λ c m,
           control m = c
           ∧ label_block_id m = id <$> label_of blocks scale_factor c
           ∧ label_text m = text <$> label_of blocks scale_factor c)
        controls mapped.
Proof using scale_nonzero.
  unfold map_controls_to_blocks.
  induction controls as [|c controls (mapped & Hmapped & Hall)]; simpl.
  - exists []. split; [reflexivity|constructor].
  - destruct (map_control_ok blocks scale_factor c scale_nonzero)
      as (m & -> & Hm).
    simpl. rewrite Hmapped. simpl. exists (m :: mapped).
    split; [reflexivity|]. constructor; assumption.
Qed.

Lemma band_row_ok band :
  band_row blocks scale_factor band
  = Ok (if occupied blocks scale_factor band
        then Some (row_of_band blocks scale_factor band) else None).
Proof using scale_nonzero.
  unfold band_row. rewrite !fdiv_ok by exact scale_nonzero.
  cbn [mbind result_bind]. unfold occupied, row_of_band.
  change (λ block : Block,
            Qle_bool (inject_Z (band_y0 band) / scale_factor)
              ((y0 (bbox block) + y1 (bbox block)) / 2)
            && Qle_bool ((y0 (bbox block) + y1 (bbox block)) / 2)
                 (inject_Z (band_y1 band) / scale_factor))
    with (in_band scale_factor band).
  rewrite existsb_filter.
  destruct (List.filter (in_band scale_factor band) blocks); reflexivity.
Qed.

(** The band rows are the rows of the occupied bands, in band order; [None]
    when no band is occupied. *)
Lemma assign_blocks_to_bands_ok row_bands :
  assign_blocks_to_bands blocks row_bands scale_factor
  = Ok (match List.filter (occupied blocks scale_factor) row_bands with
        | [] => None
        | bands => Some (map (row_of_band blocks scale_factor) bands)
        end).
Proof using scale_nonzero.
  unfold assign_blocks_to_bands.
  destruct row_bands as [|band0 row_bands]; [reflexivity|].
  set (bands := band0 :: row_bands).
  rewrite (mapM'_total _
             (λ band, if occupied blocks scale_factor band
                      then Some (row_of_band blocks scale_factor band)
                      else None))
    by (intros band _; apply band_row_ok).
  cbn [mbind result_bind].
  assert (omap (λ r, r)
            (map (λ band, if occupied blocks scale_factor band
                          then Some (row_of_band blocks scale_factor band)
                          else None) bands)
          = map (row_of_band blocks scale_factor)
              (List.filter (occupied blocks scale_factor) bands)) as ->.
  { induction bands as [|band bands' IH]; [reflexivity|]. cbn.
    destruct (occupied blocks scale_factor band); cbn; rewrite IH; reflexivity. }
  destruct (List.filter _ bands); reflexivity.
Qed.

End Totality.

(** ** The page record (combined_extractor.py) *)

Section ScaleFactor.
Local Open Scope Q_scope.

Lemma round_pos q : 1 # 2 < q → (1 ≤ round q)%Z.
Proof.
  intros Hq. unfold round.
  assert (0 ≤ Qfloor q)%Z as Hf.
  { change 0%Z with (Qfloor 0). apply Qfloor_resp_le. lra. }
  destruct (Z.eq_dec (Qfloor q) 0%Z) as [Hz|Hnz].
  - rewrite Hz. assert (Qcompare (q - inject_Z 0) (1 # 2) = Gt) as ->.
    { apply Qgt_alt. unfold inject_Z. lra. }
    reflexivity.
  - destruct (Qcompare _ _); [destruct (Z.even _)| |]; lia.
Qed.

(** An image of at least 5 pixel rows has a non-zero recorded scale factor
    ([round(height / 842, 2)]). *)
Lemma scale_factor_nonzero image :
  (5 ≤ height image)%Z → ¬ scale_factor (detect_all_controls image) == 0.
Proof.
  intros Hh. unfold detect_all_controls. cbn [scale_factor]. unfold round_to.
  set (r := round _).
  change (inject_Z (10 ^ Z.of_nat 2)) with 100.
  assert (1 ≤ r)%Z as Hr.
  { apply round_pos. change (inject_Z (10 ^ Z.of_nat 2)) with 100.
    assert (inject_Z 5 <= inject_Z (height image)) as H5
      by (rewrite <- Zle_Qle; exact Hh).
    change (inject_Z 5) with 5 in H5.
    set (x := inject_Z (height image)) in *.
    assert (x / 842 * 100 == x * (100 # 842)) as -> by field.
    lra. }
  assert (inject_Z 1 <= inject_Z r) as Hr' by (rewrite <- Zle_Qle; exact Hr).
  change (inject_Z 1) with 1 in Hr'.
  intros Hzero.
  assert (inject_Z r / 100 == inject_Z r * (1 # 100)) as Heq by field.
  rewrite Heq in Hzero. lra.
Qed.

End ScaleFactor.

Section Record.
Context `{UnicodeData}.

(** The layout has the requested page, and only it, when the page number is
    within the document. *)
Lemma extract_pdf_pages doc page_num :
  pages (extract_pdf doc (Some page_num))
  = match doc !! Z.to_nat (page_num - 1) with
    | Some page =>
        if (1 <=? page_num)%Z then [extract_page (page_num - 1) page] else []
    | None => []
    end.
Proof.
  unfold extract_pdf. cbn [pages omap list_omap].
  destruct (Z.ltb_spec (page_num - 1) 0) as [Hneg|Hpos]; cbn [orb].
  - destruct (Z.leb_spec 1 page_num); [lia|].
    destruct (doc !! _); reflexivity.
  - destruct (Z.leb_spec (Z.of_nat (length doc)) (page_num - 1)) as [Hge|Hlt].
    + rewrite (proj2 (lookup_ge_None doc (Z.to_nat (page_num - 1)))) by lia.
      reflexivity.
    + destruct (Z.leb_spec 1 page_num); [|lia].
      destruct (doc !! Z.to_nat (page_num - 1)) as [page|] eqn:Hpage;
        [reflexivity|].
      apply lookup_ge_None in Hpage. lia.
Qed.

Lemma extract_combined_in_range doc page_num page :
  (1 ≤ page_num)%Z → doc !! Z.to_nat (page_num - 1) = Some page →
  extract_combined doc page_num
  = fuse_page page_num (extract_page (page_num - 1) page)
      (detect_all_controls (rendering page)).
Proof.
  intros Hn Hpage. unfold extract_combined. rewrite extract_pdf_pages, Hpage.
  destruct (Z.leb_spec 1 page_num); [reflexivity|lia].
Qed.

Lemma extract_combined_out_of_range doc page_num :
  (page_num < 1 ∨ Z.of_nat (length doc) < page_num)%Z →
  extract_combined doc page_num = Ok (error "No pages extracted").
Proof.
  intros Hout. unfold extract_combined. rewrite extract_pdf_pages.
  destruct (doc !! Z.to_nat (page_num - 1)) as [page|] eqn:Hpage;
    [|reflexivity].
  destruct (Z.leb_spec 1 page_num) as [Hn|Hn]; [|reflexivity].
  apply lookup_lt_Some in Hpage. lia.
Qed.

(** [fuse_page] returns a page record or raises. *)
Lemma fuse_page_record page_num page_layout controls_data x :
  fuse_page page_num page_layout controls_data = Ok x → ∃ r, x = record r.
Proof.
  unfold fuse_page.
  destruct (filter_valid_controls _ _ _ _ _) as [valid|e]; [|discriminate].
  cbn [mbind result_bind].
  destruct (classify_page_type _ _ _ _ _) as [c|e]; [|discriminate].
  cbn [mbind result_bind].
  destruct (c_page_type c); try (intros [= <-]; eauto).
  destruct (assign_blocks_to_bands _ _ _) as [visual_rows|e]; [|discriminate].
  cbn [mbind result_bind].
  destruct (match visual_rows with Some _ => _ | None => _ end)
    as [rows row_source].
  destruct (mapM' _ valid) as [all_controls|e]; [|discriminate].
  cbn [mbind result_bind].
  destruct (map_controls_to_blocks _ _ _) as [mapped|e]; [|discriminate].
  cbn [mbind result_bind]. intros [= <-]. eauto.
Qed.

End Record.

(** C1 (as amended): [extract_combined] returns the record
    [{"error": "No pages extracted"}] exactly when the page number is outside
    the document, so that no page is extracted.  For a page of the document
    with zero text blocks (rendered at least 5 pixels high) it returns a page
    record: type text, classification reason "no blocks" with empty signals,
    no blocks, null rows and row groups, and no control items. *)
Theorem error_record_iff_no_page `{UnicodeData} :
  (∀ doc page_num,
     extract_combined doc page_num = Ok (error "No pages extracted")
     ↔ (page_num < 1 ∨ Z.of_nat (length doc) < page_num)%Z)
  ∧ (∀ doc page_num page,
       (1 ≤ page_num)%Z →
       doc !! Z.to_nat (page_num - 1) = Some page →
       page_blocks page = [] →
       (5 ≤ height (rendering page))%Z →
       ∃ r, extract_combined doc page_num = Ok (record r)
            ∧ r_page_type r = pt_text
            ∧ c_reason (classification r) = r_no_blocks
            ∧ signals (classification r) = None
            ∧ t_blocks (text_part r) = []
            ∧ t_rows (text_part r) = None
            ∧ t_row_groups (text_part r) = None
            ∧ items (controls r) = []).
Proof.
  split.
  - intros doc page_num. split; [|apply extract_combined_out_of_range].
    intros Herr.
    destruct (Z.lt_ge_cases page_num 1) as [Hlt|Hge]; [left; exact Hlt|].
    destruct (Z.lt_ge_cases (Z.of_nat (length doc)) page_num) as [Hlt|Hle];
      [right; exact Hlt|].
    destruct (lookup_lt_is_Some_2 doc (Z.to_nat (page_num - 1))) as [page Hpage];
      [lia|].
    rewrite (extract_combined_in_range doc page_num page Hge Hpage) in Herr.
    apply fuse_page_record in Herr as [r Hr]. discriminate.
  - intros doc page_num page Hn Hpage Hblocks Hheight.
    rewrite (extract_combined_in_range doc page_num page Hn Hpage).
    unfold fuse_page.
    assert (pl_blocks (extract_page (page_num - 1) page) = []) as ->
      by exact Hblocks.
    destruct (filter_valid_controls_ok []
                (scale_factor (detect_all_controls (rendering page)))
                (pl_width (extract_page (page_num - 1) page))
                (scale_factor_nonzero _ Hheight)
                (checkboxes (detect_all_controls (rendering page))) 10)
      as (valid & -> & _).
    cbn [mbind result_bind classify_page_type c_page_type].
    eexists. split; [reflexivity|]. cbn. repeat split; reflexivity.
Qed.

(** The theorem at the second page of a document of two pages without
    text. *)
Lemma error_record_witness :
  (1 ≤ 2)%Z
  ∧ [blank_page; blank_page] !! Z.to_nat (2 - 1) = Some blank_page
  ∧ page_blocks blank_page = []
  ∧ (5 ≤ height (rendering blank_page))%Z
  ∧ ∃ r, @extract_combined ascii_data [blank_page; blank_page] 2
         = Ok (record r)
         ∧ r_page_type r = pt_text
         ∧ c_reason (classification r) = r_no_blocks
         ∧ signals (classification r) = None
         ∧ t_blocks (text_part r) = []
         ∧ t_rows (text_part r) = None
         ∧ t_row_groups (text_part r) = None
         ∧ items (controls r) = [].
Proof.
  assert (1 ≤ 2)%Z as Hn by lia.
  assert ([blank_page; blank_page] !! Z.to_nat (2 - 1) = Some blank_page)
    as Hpage by reflexivity.
  assert (page_blocks blank_page = []) as Hblocks by reflexivity.
  assert (5 ≤ height (rendering blank_page))%Z as Hheight by (vm_compute; discriminate).
  split; [exact Hn|]. split; [exact Hpage|]. split; [exact Hblocks|].
  split; [exact Hheight|].
  exact (proj2 (@error_record_iff_no_page ascii_data)
           [blank_page; blank_page] 2%Z blank_page Hn Hpage Hblocks Hheight).
Defined.

(** C1 as stated fails: the only page of this document has zero text blocks,
    and the result is a page record, not the error record. *)
Lemma zero_blocks_is_not_an_error :
  page_blocks blank_page = []
  ∧ ∃ r, @extract_combined ascii_data [blank_page] 1 = Ok (record r)
         ∧ r_page_type r = pt_text
         ∧ c_reason (classification r) = r_no_blocks
         ∧ sm_total_blocks (summary r) = 0%nat.
Proof.
  split; [reflexivity|]. eexists. split; [vm_compute; reflexivity|].
  repeat split; reflexivity.
Qed.

Section Rows.
Context `{UnicodeData}.
Local Open Scope Q_scope.






(** Whatever the scale factor: if the band assignment returns, it returns
    the rows of the occupied bands, or [None] when there is none. *)
Lemma assign_blocks_to_bands_returns blocks row_bands scale_factor visual_rows :
  assign_blocks_to_bands blocks row_bands scale_factor = Ok visual_rows →
  visual_rows
  = match List.filter (occupied blocks scale_factor) row_bands with
    | [] => None
    | bands => Some (map (row_of_band blocks scale_factor) bands)
    end.
Proof.
  destruct (Qeq_bool scale_factor 0) eqn:Hsf.
  - apply Qeq_bool_iff in Hsf.
    destruct row_bands as [|band row_bands]; [intros [= <-]; reflexivity|].
    assert (band_row blocks scale_factor band = Raise ZeroDivisionError)
      as Hraise
      by (unfold band_row; rewrite !fdiv_zero by exact Hsf; reflexivity).
    unfold assign_blocks_to_bands. cbn [mapM']. rewrite Hraise. discriminate.
  - assert (¬ scale_factor == 0) as Hnz.
    { intros Hz. apply Qeq_bool_iff in Hz. congruence. }
    rewrite (assign_blocks_to_bands_ok blocks scale_factor Hnz).
    intros [= <-]. reflexivity.
Qed.

End Rows.




(** ** Control items of the page record *)

Lemma checkbox_of_contour_type min_size max_size contour c :
  checkbox_of_contour min_size max_size contour = Some c → is_checkbox c.
Proof.
  unfold checkbox_of_contour. destruct (c_rect contour) as [x y w h].
  repeat (match goal with
          | |- context [if ?b then _ else _] => destruct b
          end; try discriminate).
  intros [= <-]. reflexivity.
Qed.

Lemma remove_overlapping_elem controls iou_threshold c :
  c ∈ remove_overlapping controls iou_threshold → c ∈ controls.
Proof.
  unfold remove_overlapping. destruct controls as [|c0 controls]; [auto|].
  set (cs := c0 :: controls).
  destruct (loop_sublist iou_threshold (sorted_reverse confidence cs) [])
    as (kept & -> & Hsub).
  intros Hc. rewrite <- (sorted_reverse_perm confidence cs).
  eapply elem_of_sublist; eassumption.
Qed.

(** Every detection in the detector's checkbox list is a checkbox. *)
Lemma detect_all_controls_checkboxes image :
  Forall is_checkbox (checkboxes (detect_all_controls image)).
Proof.
  unfold detect_all_controls. cbn [checkboxes]. unfold detect_checkboxes.
  apply Forall_forall. intros c Hc. apply remove_overlapping_elem in Hc.
  apply list_elem_of_omap in Hc as (contour & _ & Hc).
  eapply checkbox_of_contour_type, Hc.
Qed.

(** What the validity filter returns is taken from its input. *)
Lemma filter_valid_controls_elem raw_controls blocks scale_factor page_width
    min_size_pt valid :
  filter_valid_controls raw_controls blocks scale_factor page_width min_size_pt
  = Ok valid →
  ∀ c, c ∈ valid → c ∈ raw_controls.
Proof.
  unfold filter_valid_controls.
  destruct (filterM _ raw_controls) as [size_valid|e] eqn:Hsize;
    [|discriminate].
  cbn [mbind result_bind].
  destruct (check_controls_aligned _ _ _ _ _) as [aligned|e]; [|discriminate].
  cbn [mbind result_bind].
  intros Hvalid c Hc. eapply filterM_elem; [exact Hsize|].
  destruct aligned; eapply filterM_elem; eassumption.
Qed.

Lemma map_control_control blocks scale_factor c m :
  map_control blocks scale_factor c = Ok m → control m = c.
Proof.
  unfold map_control.
  destruct (fdiv (inject_Z (x0 (c_bbox c))) scale_factor);
    cbn [mbind result_bind]; [|discriminate].
  destruct (fdiv (inject_Z (y0 (c_bbox c))) scale_factor);
    cbn [mbind result_bind]; [|discriminate].
  destruct (fdiv (inject_Z (x1 (c_bbox c))) scale_factor);
    cbn [mbind result_bind]; [|discriminate].
  destruct (fdiv (inject_Z (y1 (c_bbox c))) scale_factor);
    cbn [mbind result_bind]; [|discriminate].
  intros [= <-]. reflexivity.
Qed.

Lemma set_features_type cb scale_factor c :
  set_features cb <$> compute_control_features cb scale_factor = Ok c →
  c_type c = c_type cb.
Proof.
  destruct (compute_control_features cb scale_factor) as [f|e];
    [|discriminate].
  intros [= <-]. reflexivity.
Qed.

Lemma Forall2_transfer {A B} (R : A → B → Prop) (P : A → Prop)
    (Q : B → Prop) l k :
  (∀ x y, R x y → P x → Q y) → Forall2 R l k → Forall P l → Forall Q k.
Proof.
  intros HR. induction 1 as [|x y l k Hxy _ IH]; intros Hl; [constructor|].
  apply Forall_cons in Hl as [Hx Hl]. constructor; [eapply HR; eassumption|].
  exact (IH Hl).
Qed.

Section Items.
Context `{UnicodeData}.

Lemma fuse_page_items page_num page_layout controls_data r :
  Forall is_checkbox (checkboxes controls_data) →
  fuse_page page_num page_layout controls_data = Ok (record r) →
  Forall (λ m, is_checkbox (control m)) (items (controls r)).
Proof.
  intros Hboxes. unfold fuse_page.
  destruct (filter_valid_controls _ _ _ _ _) as [valid|e] eqn:Hvalid;
    [|discriminate].
  cbn [mbind result_bind].
  destruct (classify_page_type _ _ _ _ _) as [c|e]; [|discriminate].
  cbn [mbind result_bind].
  destruct (c_page_type c); try (intros [= <-]; constructor).
  destruct (assign_blocks_to_bands _ _ _) as [visual_rows|e]; [|discriminate].
  cbn [mbind result_bind].
  destruct (match visual_rows with Some _ => _ | None => _ end)
    as [rows row_source].
  destruct (mapM' _ valid) as [all_controls|e] eqn:Hall; [|discriminate].
  cbn [mbind result_bind].
  destruct (map_controls_to_blocks _ _ _) as [mapped|e] eqn:Hmapped;
    [|discriminate].
  cbn [mbind result_bind]. intros [= <-]. cbn [controls items].
  assert (Forall is_checkbox valid) as Hv.
  { apply Forall_forall. intros cb Hcb. rewrite Forall_forall in Hboxes.
    apply Hboxes. eapply filter_valid_controls_elem; eassumption. }
  assert (Forall is_checkbox all_controls) as Ha.
  { apply mapM'_Forall2 in Hall.
    eapply Forall2_transfer; [|exact Hall|exact Hv].
    intros cb c' Hc Hcb. unfold is_checkbox.
    rewrite (set_features_type _ _ _ Hc). exact Hcb. }
  apply mapM'_Forall2 in Hmapped.
  eapply Forall2_transfer; [|exact Hmapped|exact Ha].
  intros c' m Hm Hc. cbn beta. rewrite (map_control_control _ _ _ _ Hm).
  exact Hc.
Qed.

End Items.

(** C9: in every page record [extract_combined] returns, each element of
    [controls.items] is of type "checkbox": only the detector's checkbox list
    goes through filtering, feature computation and label mapping, and on a
    page that is not a form the list of items is empty. *)
Theorem control_items_are_checkboxes `{UnicodeData}
    (doc : list Page) (page_num : Z) (r : PageRecord) :
  extract_combined doc page_num = Ok (record r) →
  Forall (λ m, c_type (control m) = checkbox) (items (controls r)).
Proof.
  intros Hrecord.
  destruct (Z.lt_ge_cases page_num 1) as [Hlt|Hge].
  { rewrite extract_combined_out_of_range in Hrecord by (left; exact Hlt).
    discriminate. }
  destruct (Z.lt_ge_cases (Z.of_nat (length doc)) page_num) as [Hlt|Hle].
  { rewrite extract_combined_out_of_range in Hrecord by (right; exact Hlt).
    discriminate. }
  destruct (lookup_lt_is_Some_2 doc (Z.to_nat (page_num - 1))) as [page Hpage];
    [lia|].
  rewrite (extract_combined_in_range doc page_num page Hge Hpage) in Hrecord.
  eapply fuse_page_items; [|exact Hrecord].
  apply detect_all_controls_checkboxes.
Qed.

(** The theorem at the banded page, whose rendering yields two checkboxes,
    a radio button and an input box: the record has two items, both
    checkboxes. *)
Lemma control_items_witness :
  length (radio_buttons (detect_all_controls (rendering banded_page))) = 1%nat
  ∧ length (input_boxes (detect_all_controls (rendering banded_page))) = 1%nat
  ∧ ∃ r, @extract_combined ascii_data [banded_page] 1 = Ok (record r)
         ∧ length (items (controls r)) = 2%nat
         ∧ Forall (λ m, c_type (control m) = checkbox) (items (controls r)).
Proof.
  split; [vm_compute; reflexivity|]. split; [vm_compute; reflexivity|].
  destruct (@extract_combined ascii_data [banded_page] 1) as [[msg|r]|e]
    eqn:Hrecord; try (vm_compute in Hrecord; discriminate).
  exists r. split; [reflexivity|]. split.
  - vm_compute in Hrecord. injection Hrecord as <-. reflexivity.
  - exact (@control_items_are_checkboxes ascii_data [banded_page] 1%Z r
             Hrecord).
Defined.

(** ** Totality of [extract_combined] *)

Lemma classify_page_type_ok blocks columns page_width page_height control_count :
  blocks = [] ∨ ¬ (page_width * page_height / 10000 == 0)%Q →
  ∃ c, classify_page_type blocks columns page_width page_height control_count
       = Ok c.
Proof.
  intros [->|Harea]; [eexists; reflexivity|].
  destruct blocks as [|b blocks]; [eexists; reflexivity|].
  unfold classify_page_type. rewrite fdiv_ok by exact Harea.
  cbn [mbind result_bind].
  repeat (match goal with
          | |- context [if ?b then _ else _] => destruct b
          end; try (eexists; reflexivity)).
Qed.

Lemma features_ok scale_factor :
  ¬ (scale_factor == 0)%Q →
  ∀ valid,
    ∃ all_controls,
      mapM' (λ cb, set_features cb <$> compute_control_features cb scale_factor)
        valid = Ok all_controls.
Proof.
  intros Hsf. induction valid as [|cb valid [all_controls IH]];
    [eexists; reflexivity|].
  cbn [mapM'].
  destruct (compute_control_features_ok _ Hsf cb) as [f ->].
  cbn [fmap result_fmap mbind result_bind]. rewrite IH.
  cbn [mbind result_bind]. eexists; reflexivity.
Qed.

(** For a page of the document that is rendered at least 5 pixels high and
    either has no block or has a non-zero area, [extract_combined] returns a
    page record. *)
Lemma extract_combined_returns `{UnicodeData} doc page_num page :
  (1 ≤ page_num)%Z →
  doc !! Z.to_nat (page_num - 1) = Some page →
  (5 ≤ height (rendering page))%Z →
  page_blocks page = []
  ∨ ¬ (round_to 2 (rect_width page) * round_to 2 (rect_height page) / 10000
       == 0)%Q →
  ∃ r, extract_combined doc page_num = Ok (record r).
Proof.
  intros Hn Hpage Hheight Harea.
  rewrite (extract_combined_in_range doc page_num page Hn Hpage).
  pose proof (scale_factor_nonzero _ Hheight) as Hsf.
  unfold fuse_page.
  destruct (filter_valid_controls_ok
              (pl_blocks (extract_page (page_num - 1) page)) _
              (pl_width (extract_page (page_num - 1) page)) Hsf
              (checkboxes (detect_all_controls (rendering page))) 10)
    as (valid & -> & _).
  cbn [mbind result_bind].
  destruct (classify_page_type_ok
              (pl_blocks (extract_page (page_num - 1) page))
              (pl_columns (extract_page (page_num - 1) page))
              (pl_width (extract_page (page_num - 1) page))
              (pl_height (extract_page (page_num - 1) page))
              (Z.of_nat (length valid)) Harea) as [c ->].
  cbn [mbind result_bind].
  destruct (c_page_type c); try (eexists; reflexivity).
  rewrite (assign_blocks_to_bands_ok _ _ Hsf). cbn [mbind result_bind].
  destruct (match List.filter _ _ with [] => None | _ => _ end);
    [destruct (_ <=? _)%nat|].
  all: cbn zeta beta iota.
  all: destruct (features_ok _ Hsf valid) as [all_controls ->].
  all: cbn [mbind result_bind].
  all: destruct (map_controls_to_blocks_ok
                   (pl_blocks (extract_page (page_num - 1) page)) _ Hsf
                   all_controls) as (mapped & -> & _).
  all: cbn [mbind result_bind]; eexists; reflexivity.
Qed.
(** * Further properties *)

(** ** Sorting and rounding *)

Lemma sorted_perm {A} (key : A → Q) l : sorted key l ≡ₚ l.
Proof. apply sort_by_perm. Qed.

Lemma sorted_ascending {A} (key : A → Q) l :
  StronglySorted (λ a b, (key a <= key b)%Q) (sorted key l).
Proof.
  eapply StronglySorted_weaken; [|apply sort_by_sorted].
  - intros a b Hab. apply Qle_bool_iff in Hab. exact Hab.
  - intros a b Hab.
    apply Qle_bool_iff, Qlt_le_weak, Qnot_le_lt.
    intros Hle. apply Qle_bool_iff in Hle. congruence.
  - intros a b c. rewrite !Qle_bool_iff. intros; eapply Qle_trans; eauto.
Qed.

(** ** Rows (extract_layout.py) *)

Lemma group_into_rows_loop_perm y_tolerance rest rows current center :
  concat (map blocks (group_into_rows_loop y_tolerance rest rows current center))
  ≡ₚ concat (map blocks rows) ++ current ++ rest.
Proof.
  revert rows current center.
  induction rest as [|b rest IH]; intros rows current center; simpl.
  - rewrite map_app, concat_app. simpl. rewrite !app_nil_r.
    unfold sorted. rewrite sort_by_perm. reflexivity.
  - destruct (Qle_bool _ _).
    + rewrite IH, <- app_assoc. reflexivity.
    + rewrite IH, map_app, concat_app. simpl. rewrite app_nil_r.
      unfold sorted. rewrite sort_by_perm, <- app_assoc. reflexivity.
Qed.

Lemma group_into_rows_loop_rows y_tolerance rest rows current center
    (P : Row → Prop) :
  (∀ bs, bs ≠ [] → P (make_row bs)) →
  current ≠ [] →
  Forall P rows →
  Forall P (group_into_rows_loop y_tolerance rest rows current center).
Proof.
  intros HP. revert rows current center.
  induction rest as [|b rest IH]; intros rows current center Hc Hrows; simpl.
  - apply Forall_app. split; [exact Hrows|]. constructor; [|constructor].
    apply HP, Hc.
  - destruct (Qle_bool _ _).
    + apply IH; [|exact Hrows]. destruct current; discriminate.
    + apply IH; [discriminate|]. apply Forall_app. split; [exact Hrows|].
      constructor; [|constructor]. apply HP, Hc.
Qed.

(** X1: [group_into_rows] distributes the blocks over the rows: the rows'
    block lists together are a rearrangement of the input (no block is lost
    or duplicated), no row is empty, and the blocks of a row are in ascending
    order of their left edge. *)
Theorem group_into_rows_partitions_the_blocks (bs : list Block) (y_tolerance : Q) :
  concat (map blocks (group_into_rows bs y_tolerance)) ≡ₚ bs
  ∧ Forall (λ row,
       blocks row ≠ []
       ∧ StronglySorted (λ a b, (x0 (bbox a) <= x0 (bbox b))%Q) (blocks row))
      (group_into_rows bs y_tolerance).
Proof.
  destruct bs as [|b0 rest]; simpl; [split; [reflexivity|constructor]|].
  split.
  - rewrite group_into_rows_loop_perm. reflexivity.
  - apply group_into_rows_loop_rows; [|discriminate|constructor].
    intros cur Hcur. simpl. split.
    + intros Heq. apply Hcur.
      apply Permutation_nil_r. rewrite <- Heq. symmetry. apply sorted_perm.
    + apply (sorted_ascending block_x0).
Qed.

Section Rounding.
Local Open Scope Q_scope.

Lemma round_cases q :
  (round q = Qfloor q ∧ q - inject_Z (Qfloor q) <= 1 # 2)
  ∨ (round q = (Qfloor q + 1)%Z ∧ 1 # 2 <= q - inject_Z (Qfloor q)).
Proof.
  unfold round.
  destruct (Qcompare_spec (q - inject_Z (Qfloor q)) (1 # 2)) as [E|E|E].
  - destruct (Z.even _); [left|right]; (split; [reflexivity|]);
      apply Qle_lteq; right; [exact E|symmetry; exact E].
  - left. split; [reflexivity|]. apply Qlt_le_weak, E.
  - right. split; [reflexivity|]. apply Qlt_le_weak, E.
Qed.

Lemma round_proper q q' : q == q' → round q = round q'.
Proof.
  intros E. unfold round.
  assert (Qfloor q = Qfloor q') as <- by (apply Qfloor_comp, E).
  assert (Qcompare (q - inject_Z (Qfloor q)) (1 # 2)
          = Qcompare (q' - inject_Z (Qfloor q)) (1 # 2)) as ->
    by (apply Qcompare_comp; [apply Qplus_comp; [exact E|]|]; reflexivity).
  reflexivity.
Qed.

(** [round] is monotone. *)
Lemma round_mono q q' : q <= q' → (round q ≤ round q')%Z.
Proof.
  intros Hle.
  pose proof (Qfloor_resp_le _ _ Hle) as Hf.
  destruct (Z.eq_dec (Qfloor q) (Qfloor q')) as [E|NE].
  - destruct (round_cases q) as [[Hq Hhalf]|[Hq Hhalf]]; rewrite E in Hq, Hhalf.
    + rewrite Hq. destruct (round_cases q') as [[-> _]|[-> _]]; lia.
    + destruct (Qcompare_spec (q' - inject_Z (Qfloor q')) (1 # 2)) as [E'|E'|E'].
      * assert (q == q') as Heq by (apply Qle_antisym; lra).
        rewrite (round_proper _ _ Heq). lia.
      * exfalso. lra.
      * destruct (round_cases q') as [[Hq' Hhalf']|[-> _]]; [exfalso; lra|].
        rewrite Hq. lia.
  - assert (Qfloor q + 1 ≤ Qfloor q')%Z by lia.
    destruct (round_cases q) as [[-> _]|[-> _]];
      destruct (round_cases q') as [[-> _]|[-> _]]; lia.
Qed.

Lemma pow10_pos d : 0 < inject_Z (10 ^ Z.of_nat d).
Proof.
  change 0 with (inject_Z 0). rewrite <- Zlt_Qlt.
  apply Z.pow_pos_nonneg; lia.
Qed.

(** [round(q, d)] is monotone. *)
Lemma round_to_mono d q q' : q <= q' → round_to d q <= round_to d q'.
Proof.
  intros Hle. unfold round_to.
  apply Qmult_le_compat_r.
  - rewrite <- Zle_Qle. apply round_mono.
    apply Qmult_le_compat_r; [exact Hle|]. apply Qlt_le_weak, pow10_pos.
  - apply Qlt_le_weak, Qinv_lt_0_compat, pow10_pos.
Qed.

Lemma len_cons {A} (x : A) l : len (x :: l) == len l + 1.
Proof.
  unfold len. cbn [length]. rewrite Nat2Z.inj_succ, <- Z.add_1_r, inject_Z_plus.
  reflexivity.
Qed.

Lemma len_nonneg {A} (l : list A) : 0 <= len l.
Proof. unfold len. change 0 with (inject_Z 0). rewrite <- Zle_Qle. lia. Qed.

Lemma len_pos {A} (l : list A) : l ≠ [] → 0 < len l.
Proof.
  intros Hl. unfold len. change 0 with (inject_Z 0). rewrite <- Zlt_Qlt.
  destruct l; [contradiction|]. cbn [length]. lia.
Qed.

Lemma sum_from_lower lo l a :
  Forall (λ x, lo <= x) l → a + lo * len l <= fold_left Qplus l a.
Proof.
  intros Hl. revert a. induction Hl as [|x l Hx Hl IH]; intros a; simpl.
  - unfold len; simpl. ring_simplify. apply Qle_refl.
  - eapply Qle_trans; [|apply IH]. rewrite len_cons. lra.
Qed.

Lemma sum_from_upper hi l a :
  Forall (λ x, x <= hi) l → fold_left Qplus l a <= a + hi * len l.
Proof.
  intros Hl. revert a. induction Hl as [|x l Hx Hl IH]; intros a; simpl.
  - unfold len; simpl. ring_simplify. apply Qle_refl.
  - eapply Qle_trans; [apply IH|]. rewrite len_cons. lra.
Qed.

(** The mean of a non-empty list lies between any two bounds of the list. *)
Lemma mean_bounds lo hi l :
  l ≠ [] → Forall (λ x, lo <= x) l → Forall (λ x, x <= hi) l →
  lo <= mean l ∧ mean l <= hi.
Proof.
  intros Hne Hlo Hhi. unfold mean, Py.sum.
  pose proof (len_pos l Hne) as Hpos.
  pose proof (sum_from_lower lo l 0 Hlo) as H1.
  pose proof (sum_from_upper hi l 0 Hhi) as H2.
  split.
  - apply Qle_shift_div_l; [exact Hpos|]. lra.
  - apply Qle_shift_div_r; [exact Hpos|]. lra.
Qed.

End Rounding.

(** ** Position clustering and grid columns (extract_layout.py) *)

Section Clusters.
Local Open Scope Q_scope.

Lemma StronglySorted_snoc {A} (R : A → A → Prop) l c :
  StronglySorted R l → Forall (λ a, R a c) l → StronglySorted R (l ++ [c]).
Proof.
  intros Hl Hc. apply StronglySorted_app_2; [|exact Hl|repeat constructor].
  intros a b Ha Hb. apply list_elem_of_singleton in Hb as ->.
  rewrite Forall_forall in Hc. apply Hc, Ha.
Qed.

Lemma Qabs_le_tolerance x last tolerance :
  0 <= tolerance → last <= x →
  Qle_bool (Qabs (x - last)) tolerance = false → last < x.
Proof.
  intros Htol Hle Hb.
  apply Qnot_le_lt. intros Hxl.
  assert (x - last == 0) as E by (apply Qle_antisym; lra).
  rewrite <- not_true_iff_false, Qle_bool_iff in Hb. apply Hb.
  rewrite E. exact Htol.
Qed.

(** The loop keeps the clusters apart: with the positions in ascending order
    and a tolerance that is not negative, the means of the clusters are
    strictly ascending. *)
Lemma cluster_loop_ascending tolerance rest clusters current last lo :
  0 <= tolerance →
  StronglySorted Qle rest →
  Forall (λ x, last <= x) rest →
  current ≠ [] →
  Forall (λ x, lo <= x ∧ x <= last) current →
  StronglySorted Qlt (map mean clusters) →
  Forall (λ c, mean c < lo) clusters →
  StronglySorted Qlt
    (map mean
       (ExtractLayout.cluster_loop tolerance rest clusters current last)).
Proof.
  intros Htol. revert clusters current last lo.
  induction rest as [|x rest IH];
    intros clusters current last lo Hsorted Hrest Hne Hcur Hclusters Hlo;
    cbn [ExtractLayout.cluster_loop].
  - rewrite map_app. apply StronglySorted_snoc; [exact Hclusters|].
    apply Forall_map. eapply Forall_impl; [exact Hlo|].
    intros c Hc. cbn beta in *.
    destruct (mean_bounds lo last current Hne) as [Hm _].
    + eapply Forall_impl; [exact Hcur|]. intros ? [? _]; assumption.
    + eapply Forall_impl; [exact Hcur|]. intros ? [_ ?]; assumption.
    + lra.
  - apply StronglySorted_inv in Hsorted as [Hsorted Hx].
    apply Forall_cons in Hrest as [Hlx Hrest].
    assert (Forall (λ y, x <= y) rest) as Hxrest by exact Hx.
    assert (lo <= last) as Hlolast.
    { destruct current as [|c current]; [contradiction|].
      apply Forall_cons in Hcur as [[? ?] _]. lra. }
    destruct (Qle_bool (Qabs (x - last)) tolerance) eqn:Hb.
    + apply (IH _ _ _ lo); try assumption.
      * destruct current; discriminate.
      * apply Forall_app. split.
        -- eapply Forall_impl; [exact Hcur|]. intros y [? ?]. split; lra.
        -- repeat constructor; lra.
    + pose proof (Qabs_le_tolerance _ _ _ Htol Hlx Hb) as Hlt.
      destruct (mean_bounds lo last current Hne) as [Hm1 Hm2].
      { eapply Forall_impl; [exact Hcur|]. intros ? [? _]; assumption. }
      { eapply Forall_impl; [exact Hcur|]. intros ? [_ ?]; assumption. }
      apply (IH _ _ _ x); try assumption.
      * discriminate.
      * repeat constructor; lra.
      * rewrite map_app. apply StronglySorted_snoc; [exact Hclusters|].
        apply Forall_map. eapply Forall_impl; [exact Hlo|].
        intros c Hc. cbn beta in *. lra.
      * apply Forall_app. split.
        -- eapply Forall_impl; [exact Hlo|]. intros c Hc. cbn beta in *. lra.
        -- repeat constructor. lra.
Qed.





Lemma cluster_positions_sorted (xs : list Q) (tolerance : Q) :
  0 <= tolerance →
  StronglySorted Qlt (ExtractLayout.cluster_positions xs tolerance).
Proof.
  intros Htol. unfold ExtractLayout.cluster_positions.
  pose proof (sorted_ascending (λ x, x) xs) as Hasc.
  destruct (sorted (λ x, x) xs) as [|x rest]; [constructor|].
  apply StronglySorted_inv in Hasc as [Hrest Hx].
  apply (cluster_loop_ascending tolerance rest [] [x] x x);
    try assumption; try discriminate; repeat constructor; apply Qle_refl.
Qed.



End Clusters.

Section GridColumns.
Local Open Scope Q_scope.

Lemma consecutive_pairs_ascending boundaries :
  StronglySorted Qlt boundaries →
  Forall (λ c : Column, fst c < snd c) (consecutive_pairs boundaries).
Proof.
  induction 1 as [|a l Hl IH Ha]; [constructor|].
  destruct l as [|b l]; [constructor|].
  change (consecutive_pairs (a :: b :: l))
    with ((a, b) :: consecutive_pairs (b :: l)).
  constructor; [|exact IH]. apply Forall_cons in Ha as [Hab _]. exact Hab.
Qed.

Lemma consecutive_pairs_lookup boundaries i c :
  consecutive_pairs boundaries !! i = Some c ↔
  boundaries !! i = Some (fst c) ∧ boundaries !! S i = Some (snd c).
Proof.
  revert i. induction boundaries as [|a l IH]; intros i.
  - simpl. split; [discriminate|intros [? _]; discriminate].
  - destruct l as [|b l].
    + simpl. split; [discriminate|]. intros [_ ?]. destruct i; discriminate.
    + change (consecutive_pairs (a :: b :: l))
        with ((a, b) :: consecutive_pairs (b :: l)).
      destruct i as [|i].
      * simpl. destruct c as [c0 c1]. simpl. split.
        -- intros [= <- <-]. split; reflexivity.
        -- intros [[= <-] [= <-]]. reflexivity.
      * rewrite lookup_cons. cbn [Nat.pred]. rewrite IH. reflexivity.
Qed.

Lemma consecutive_pairs_length boundaries :
  length (consecutive_pairs boundaries) = (length boundaries - 1)%nat.
Proof.
  induction boundaries as [|a l IH]; [reflexivity|].
  destruct l as [|b l]; [reflexivity|].
  change (consecutive_pairs (a :: b :: l))
    with ((a, b) :: consecutive_pairs (b :: l)).
  cbn [length] in *. lia.
Qed.

(** The x-coordinates [infer_grid_columns] clusters. *)
Lemma infer_grid_columns_cases row_group_rows tolerance :
  infer_grid_columns row_group_rows tolerance = []
  ∨ ∃ all_x,
      infer_grid_columns row_group_rows tolerance
      = consecutive_pairs (ExtractLayout.cluster_positions all_x tolerance).
Proof.
  unfold infer_grid_columns.
  destruct (concat _) as [|x all_x]; [left; reflexivity|].
  destruct (_ <? _)%nat; [left; reflexivity|].
  right. eexists. reflexivity.
Qed.

(** X3: for a tolerance that is not negative, the columns of
    [infer_grid_columns] are proper intervals laid side by side from left to
    right: each column has its left edge strictly left of its right edge, and
    the right edge of a column is the left edge of the next one. *)
Theorem infer_grid_columns_are_contiguous (row_group_rows : list Row)
    (tolerance : Q) :
  0 <= tolerance →
  let columns := infer_grid_columns row_group_rows tolerance in
  Forall (λ c : Column, fst c < snd c) columns
  ∧ ∀ i c d, columns !! i = Some c → columns !! S i = Some d → snd c = fst d.
Proof.
  intros Htol. cbn zeta.
  destruct (infer_grid_columns_cases row_group_rows tolerance)
    as [->|[all_x ->]].
  - split; [constructor|]. intros i c d Hc. inversion Hc.
  - pose proof (cluster_positions_sorted all_x tolerance Htol) as Hasc.
    split; [apply consecutive_pairs_ascending, Hasc|].
    intros i c d Hc Hd.
    apply consecutive_pairs_lookup in Hc as [_ Hc].
    apply consecutive_pairs_lookup in Hd as [Hd _].
    congruence.
Qed.

End GridColumns.

(** A group of two rows with blocks from 10 to 40 and from 50 to 90: the
    boundaries are the means 10, 45 and 90 (as unreduced fractions). *)
Lemma infer_grid_columns_witness :
  (0 <= 15)%Q
  ∧ infer_grid_columns [crowded_row; crowded_row] 15
    = [(20 # 2, 180 # 4); (180 # 4, 180 # 2)]%Q
  ∧ let columns := infer_grid_columns [crowded_row; crowded_row] 15 in
    Forall (λ c : Column, (fst c < snd c)%Q) columns
    ∧ ∀ i c d, columns !! i = Some c → columns !! S i = Some d → snd c = fst d.
Proof.
  split; [discriminate|]. split; [vm_compute; reflexivity|].
  apply (infer_grid_columns_are_contiguous [crowded_row; crowded_row] 15).
  discriminate.
Defined.

(** ** Grids and row groups (extract_layout.py) *)

Lemma omap_lookup_length {A} (l : list A) (indices : list nat) :
  length (omap (λ i, l !! i) indices)
  = length (List.filter (λ i, (i <? length l)%nat) indices).
Proof.
  induction indices as [|i indices IH]; [reflexivity|].
  cbn [omap list_omap List.filter].
  destruct (i <? length l)%nat eqn:Hi.
  - apply Nat.ltb_lt in Hi. destruct (lookup_lt_is_Some_2 l i Hi) as [x ->].
    cbn [length]. rewrite <- IH. reflexivity.
  - apply Nat.ltb_ge in Hi. rewrite (lookup_ge_None_2 l i Hi). exact IH.
Qed.

Lemma apply_grid_complete (rows : list Row)
    (row_indices : list nat) (g : Grid) :
  apply_grid_to_row_group rows row_indices = Some g →
  (1 ≤ columns g)%nat
  ∧ length (column_boundaries g) = columns g
  ∧ length (grid_rows g)
    = length (List.filter (λ i, (i <? length rows)%nat) row_indices)
  ∧ map (λ gr, (gr_y_min gr, gr_y_max gr, gr_type gr)) (grid_rows g)
    = map (λ row, (y_min row, y_max row, type row))
        (omap (λ i, rows !! i) row_indices)
  ∧ Forall (λ gr, length (ExtractLayout.cells gr) = columns g) (grid_rows g).
Proof.
  unfold apply_grid_to_row_group.
  destruct row_indices as [|i0 indices]; [discriminate|].
  set (group_rows := omap (λ i, rows !! i) (i0 :: indices)).
  pose proof (omap_lookup_length rows (i0 :: indices)) as Hlen.
  fold group_rows in Hlen.
  destruct group_rows as [|r0 rs] eqn:Hrows; [discriminate|].
  rewrite <- Hrows in *. clear Hrows.
  set (cols := infer_grid_columns _ 15).
  destruct cols as [|c0 cs] eqn:Hcols; [discriminate|].
  rewrite <- Hcols. intros [= <-]. cbn [columns column_boundaries grid_rows].
  repeat split.
  - rewrite Hcols. cbn [length]. lia.
  - apply length_map.
  - rewrite length_map. exact Hlen.
  - rewrite map_map. reflexivity.
  - apply Forall_map, Forall_forall. intros row _. cbn [ExtractLayout.cells].
    unfold map_row_to_grid. rewrite Hcols at 1.
    rewrite fold_place_block_length, length_replicate. reflexivity.
Qed.

(** X4: a grid returned by [apply_grid_to_row_group] is complete: it has at
    least one column, as many column boundaries as columns, one grid row for
    every row index that is in range, in order, and every grid row has exactly
    one cell per column. *)
Theorem apply_grid_to_row_group_is_complete (rows : list Row)
    (row_indices : list nat) (g : Grid) :
  apply_grid_to_row_group rows row_indices = Some g →
  (1 ≤ columns g)%nat
  ∧ length (column_boundaries g) = columns g
  ∧ length (grid_rows g)
    = length (List.filter (λ i, (i <? length rows)%nat) row_indices)
  ∧ map (λ gr, (gr_y_min gr, gr_y_max gr, gr_type gr)) (grid_rows g)
    = map (λ row, (y_min row, y_max row, type row))
        (omap (λ i, rows !! i) row_indices)
  ∧ Forall (λ gr, length (ExtractLayout.cells gr) = columns g) (grid_rows g).
Proof. apply apply_grid_complete. Qed.

Lemma apply_grid_to_row_group_witness :
  ∃ g,
    apply_grid_to_row_group [crowded_row; crowded_row] [1; 0; 5]%nat = Some g
    ∧ columns g = 2%nat
    ∧ length (grid_rows g) = 2%nat
    ∧ Forall (λ gr, length (ExtractLayout.cells gr) = columns g) (grid_rows g).
Proof.
  destruct (apply_grid_to_row_group [crowded_row; crowded_row] [1; 0; 5]%nat)
    as [g|] eqn:Hg; [|vm_compute in Hg; discriminate].
  exists g. split; [reflexivity|].
  destruct (apply_grid_to_row_group_is_complete _ _ _ Hg)
    as (_ & _ & Hrows & _ & Hcells).
  split; [|split; [exact Hrows|exact Hcells]].
  vm_compute in Hg. injection Hg as <-. reflexivity.
Defined.

Section RowGroups.

Lemma groups_closed_weaken upper upper' groups :
  (upper ≤ upper')%nat → groups_closed upper groups →
  groups_closed upper' groups.
Proof.
  intros Hle (Hids & Hruns & Hsorted). repeat split; try assumption.
  eapply Forall_impl; [exact Hruns|].
  intros g (Hgrid & (start & Hidx & Hb) & Hmin). repeat split; try assumption.
  exists start. split; [exact Hidx|lia].
Qed.

Lemma finalize_group_closed groups start (current_group : list (nat * Row)) :
  groups_closed start groups →
  map fst current_group = seq start (length current_group) →
  let '(groups', counter') :=
    finalize_group groups (length groups) current_group in
  groups_closed (start + length current_group) groups'
  ∧ counter' = length groups'.
Proof.
  intros Hclosed Hidx. unfold finalize_group.
  assert (groups_closed (start + length current_group) groups) as Hweak
    by (eapply groups_closed_weaken; [|exact Hclosed]; lia).
  destruct (2 <=? length current_group)%nat; [|split; [exact Hweak|reflexivity]].
  set (hint := infer_group_hint (map snd current_group)).
  destruct (_ <=? length current_group)%nat eqn:Hmin;
    [|split; [exact Hweak|reflexivity]].
  apply Nat.leb_le in Hmin.
  split; [|rewrite length_app; simpl; lia].
  destruct Hweak as (Hids & Hruns & Hsorted).
  destruct Hclosed as (_ & Hruns0 & _).
  repeat split.
  - rewrite map_app, length_app, Hids. simpl.
    rewrite Nat.add_1_r, seq_S. reflexivity.
  - apply Forall_app. split; [exact Hruns|].
    constructor; [|constructor].
    cbn [grid row_indices row_count ExtractLayout.hint].
    split; [reflexivity|]. split; [|exact Hmin].
    exists start. cbn [row_indices row_count]. split; [exact Hidx|lia].
  - apply StronglySorted_snoc; [exact Hsorted|].
    eapply Forall_impl; [exact Hruns0|].
    intros g (_ & (s & Hg & Hb) & _) a b Ha Hb'.
    cbn [row_indices] in Hb'. rewrite Hg in Ha. rewrite Hidx in Hb'.
    apply elem_of_seq in Ha. apply elem_of_seq in Hb'. lia.
Qed.

Lemma group_consecutive_rows_loop_closed x_tolerance (rest : list Row) :
  ∀ k groups g0 gs,
    groups_closed (k - S (length gs)) groups →
    (S (length gs) ≤ k)%nat →
    map fst (g0 :: gs) = seq (k - S (length gs)) (S (length gs)) →
    groups_closed (k + length rest)
      (group_consecutive_rows_loop x_tolerance
         (combine (seq k (length rest)) rest) groups (length groups) g0 gs).
Proof.
  induction rest as [|r rest IH]; intros k groups g0 gs Hclosed Hk Hidx.
  - cbn [length seq combine group_consecutive_rows_loop].
    pose proof (finalize_group_closed groups _ (g0 :: gs) Hclosed Hidx) as Hfin.
    destruct (finalize_group groups (length groups) (g0 :: gs))
      as [groups' counter']. destruct Hfin as [Hfin _]. cbn [fst].
    cbn [length] in Hfin.
    replace (k + 0)%nat with (k - S (length gs) + S (length gs))%nat by lia.
    exact Hfin.
  - cbn [length seq combine group_consecutive_rows_loop].
    destruct (can_group_rows _ _ _ _).
    + replace (k + S (length rest))%nat with (S k + length rest)%nat by lia.
      apply IH; rewrite ?length_app; cbn [length].
      * replace (S k - S (length gs + 1))%nat with (k - S (length gs))%nat
          by lia.
        exact Hclosed.
      * lia.
      * replace (S k - S (length gs + 1))%nat with (k - S (length gs))%nat
          by lia.
        change (g0 :: gs ++ [(k, r)]) with ((g0 :: gs) ++ [(k, r)]).
        rewrite map_app, Hidx. cbn [map fst].
        replace (S (length gs + 1)) with (S (S (length gs))) by lia.
        rewrite (seq_S (S (length gs))).
        replace (k - S (length gs) + S (length gs))%nat with k by lia.
        reflexivity.
    + pose proof (finalize_group_closed groups _ (g0 :: gs) Hclosed Hidx)
        as Hfin.
      destruct (finalize_group groups (length groups) (g0 :: gs))
        as [groups' counter']. destruct Hfin as [Hfin ->].
      cbn [length] in Hfin.
      replace (k - S (length gs) + S (length gs))%nat with k in Hfin by lia.
      replace (k + S (length rest))%nat with (S k + length rest)%nat by lia.
      apply IH; cbn [length].
      * replace (S k - 1)%nat with k by lia. exact Hfin.
      * lia.
      * replace (S k - 1)%nat with k by lia. reflexivity.
Qed.

Lemma group_consecutive_rows_closed (rows : list Row) (x_tolerance : Q) :
  groups_closed (length rows) (group_consecutive_rows rows x_tolerance).
Proof.
  unfold group_consecutive_rows, enumerate.
  destruct rows as [|r0 [|r1 rest]];
    [repeat split; constructor|repeat split; constructor|].
  cbn [length seq combine].
  change (combine (seq 1 (S (length rest))) (r1 :: rest))
    with (combine (seq 1 (length (r1 :: rest))) (r1 :: rest)).
  change (S (S (length rest))) with (1 + length (r1 :: rest))%nat.
  apply (group_consecutive_rows_loop_closed x_tolerance (r1 :: rest) 1 []
           (0%nat, r0) []).
  - repeat split; constructor.
  - cbn [length]. lia.
  - reflexivity.
Qed.

(** X5: the groups of [group_consecutive_rows] are numbered 0, 1, 2, ... in
    order; each is a run of [row_count] consecutive rows of the page, of at
    least 2 rows and at least 3 when its hint is grid; the groups come in page
    order and share no row; none carries a grid yet. *)
Theorem group_consecutive_rows_are_disjoint_runs (rows : list Row)
    (x_tolerance : Q) :
  let groups := group_consecutive_rows rows x_tolerance in
  map group_id groups = seq 0 (length groups)
  ∧ Forall (λ g, grid g = None
                 ∧ is_run (length rows) g
                 ∧ (min_group_size (hint g) ≤ row_count g)%nat) groups
  ∧ StronglySorted rows_before groups.
Proof. exact (group_consecutive_rows_closed rows x_tolerance). Qed.

Lemma filter_in_range_seq start count n :
  (start + count ≤ n)%nat →
  List.filter (λ i, (i <? n)%nat) (seq start count) = seq start count.
Proof.
  revert start. induction count as [|count IH]; intros start Hle;
    [reflexivity|].
  cbn [seq List.filter].
  destruct (start <? n)%nat eqn:E; [|apply Nat.ltb_ge in E; lia].
  rewrite IH by lia. reflexivity.
Qed.

(** X6: when [apply_grid_to_row_group] returns a grid for one of the groups
    of [group_consecutive_rows] (as [extract_combined] calls it), the grid has
    exactly [row_count] rows: no row of the group is out of range. *)
Theorem grid_of_a_row_group_has_row_count_rows (rows : list Row)
    (x_tolerance : Q) (group : RowGroup) (g : Grid) :
  group ∈ group_consecutive_rows rows x_tolerance →
  apply_grid_to_row_group rows (row_indices group) = Some g →
  length (grid_rows g) = row_count group
  ∧ Forall (λ gr, length (ExtractLayout.cells gr) = columns g) (grid_rows g).
Proof.
  intros Hgroup Hgrid.
  destruct (group_consecutive_rows_closed rows x_tolerance) as (_ & Hruns & _).
  rewrite Forall_forall in Hruns.
  destruct (Hruns group Hgroup) as (_ & (start & Hidx & Hb) & _).
  destruct (apply_grid_complete _ _ _ Hgrid) as (_ & _ & Hlen & _ & Hcells).
  split; [|exact Hcells].
  rewrite Hlen, Hidx, filter_in_range_seq by exact Hb. apply length_seq.
Qed.

End RowGroups.

(** Three rows of two blocks each at the same positions form one grid group. *)
Lemma grid_of_a_row_group_witness :
  ∃ group g,
    group ∈ group_consecutive_rows [crowded_row; crowded_row; crowded_row] 10
    ∧ apply_grid_to_row_group [crowded_row; crowded_row; crowded_row]
        (row_indices group) = Some g
    ∧ (hint group, row_indices group) = (h_grid, [0; 1; 2]%nat)
    ∧ length (grid_rows g) = row_count group
    ∧ Forall (λ gr, length (ExtractLayout.cells gr) = columns g) (grid_rows g).
Proof.
  exists {| group_id := 0; row_indices := [0; 1; 2]%nat; hint := h_grid;
            row_count := 3; grid := None |}.
  assert ({| group_id := 0; row_indices := [0; 1; 2]%nat; hint := h_grid;
             row_count := 3; grid := None |}
          ∈ group_consecutive_rows [crowded_row; crowded_row; crowded_row] 10)
    as Hgroup by (vm_compute; apply list_elem_of_here).
  destruct (apply_grid_to_row_group [crowded_row; crowded_row; crowded_row]
              [0; 1; 2]%nat) as [g|] eqn:Hg; [|vm_compute in Hg; discriminate].
  exists g. split; [exact Hgroup|]. split; [exact Hg|].
  split; [reflexivity|].
  exact (grid_of_a_row_group_has_row_count_rows _ _ _ _ Hgroup Hg).
Defined.

(** ** Row types, statistics and column anchors (extract_layout.py) *)

(** X7: the type [classify_row] gives a row depends on its number of blocks:
    a row without blocks is empty, a row of one block is a bullet item, a
    numbered item, a header, a paragraph or a label, and a row of two or more
    blocks is a bullet list, an option row, a label-value, a label pair or
    mixed - never a paragraph or a header. *)
Theorem classify_row_type_follows_block_count `{UnicodeData} (row : Row)
    (page_width median_font_size : Q) :
  match blocks row with
  | [] => classify_row row page_width median_font_size = t_empty
  | [_] =>
      classify_row row page_width median_font_size
      ∈ [t_bullet_item; t_numbered_item; t_header; t_paragraph; t_label]
  | _ =>
      classify_row row page_width median_font_size
      ∈ [t_bullet_list; t_option_row; t_label_value; t_label_pair; t_mixed]
  end.
Proof.
  unfold classify_row.
  destruct (blocks row) as [|b0 [|b1 [|b2 rest]]]; [reflexivity| | |].
  all: cbv zeta; cbn [length Nat.eqb Nat.leb Nat.ltb]; rewrite ?andb_false_r.
  all: repeat match goal with
              | |- context [if ?c then _ else _] => destruct c
              end.
  all: repeat constructor.
Qed.

Section Stats.
Local Open Scope Q_scope.

Lemma min_from_le x xs :
  min_from x xs <= x ∧ Forall (λ y, min_from x xs <= y) xs.
Proof.
  unfold min_from. revert x. induction xs as [|y xs IH]; intros x; simpl.
  - split; [apply Qle_refl|constructor].
  - destruct (Qltb y x) eqn:E.
    + apply Qltb_lt in E. destruct (IH y) as [H1 H2].
      split; [lra|]. constructor; assumption.
    + apply Qltb_ge in E. destruct (IH x) as [H1 H2].
      split; [exact H1|]. constructor; [lra|assumption].
Qed.

Lemma max_from_ge x xs :
  x <= max_from x xs ∧ Forall (λ y, y <= max_from x xs) xs.
Proof.
  unfold max_from. revert x. induction xs as [|y xs IH]; intros x; simpl.
  - split; [apply Qle_refl|constructor].
  - destruct (Qltb x y) eqn:E.
    + apply Qltb_lt in E. destruct (IH y) as [H1 H2].
      split; [lra|]. constructor; assumption.
    + apply Qltb_ge in E. destruct (IH x) as [H1 H2].
      split; [exact H1|]. constructor; [lra|assumption].
Qed.

(** [min(xs)] and [max(xs)] bound every element. *)
Lemma min_max_bound xs : Forall (λ y, Py.min xs <= y ∧ y <= Py.max xs) xs.
Proof.
  destruct xs as [|x xs]; [constructor|]. unfold Py.min, Py.max.
  destruct (min_from_le x xs) as [H1 H2], (max_from_ge x xs) as [H3 H4].
  constructor; [split; assumption|].
  rewrite Forall_forall in H2, H4. rewrite Forall_forall.
  intros y Hy. split; [apply H2, Hy|apply H4, Hy].
Qed.

Lemma compute_stats_ordered (bs : list Block) (s : Stats) :
  compute_stats bs = Some s →
  bs ≠ []
  ∧ total_blocks s = length bs
  ∧ min_font_size s <= median_font_size s
  ∧ median_font_size s <= max_font_size s.
Proof.
  unfold compute_stats. destruct bs as [|b0 rest]; [discriminate|].
  set (font_sizes := map font_size (b0 :: rest)).
  intros Hs. apply (inj Some) in Hs. subst s.
  cbv beta iota delta
    [total_blocks min_font_size median_font_size max_font_size].
  split; [discriminate|]. split; [reflexivity|].
  pose proof (sorted_perm (λ q, q) font_sizes) as Hperm.
  assert (length font_sizes / 2 < length (sorted (λ q, q) font_sizes))%nat
    as Hlt.
  { rewrite (Permutation_length Hperm). subst font_sizes. cbn [map length].
    apply Nat.div_lt; lia. }
  destruct (lookup_lt_is_Some_2 _ _ Hlt) as [m Hm]. rewrite Hm. cbn [default].
  assert (m ∈ font_sizes) as Hin
    by (rewrite <- Hperm; eapply list_elem_of_lookup_2, Hm).
  pose proof (min_max_bound font_sizes) as Hb. rewrite Forall_forall in Hb.
  destruct (Hb m Hin). split; apply round_to_mono; assumption.
Qed.

(** X8: the statistics of a non-empty block list count its blocks, and the
    rounded minimum, median and maximum font sizes are in that order;
    [compute_stats] returns the empty dict exactly for no blocks. *)
Theorem compute_stats_orders_the_font_sizes :
  (∀ bs, compute_stats bs = None ↔ bs = [])
  ∧ ∀ bs s, compute_stats bs = Some s →
      total_blocks s = length bs
      ∧ min_font_size s <= median_font_size s
      ∧ median_font_size s <= max_font_size s.
Proof.
  split.
  - intros [|b0 rest]; split; [reflexivity|reflexivity|discriminate|discriminate].
  - intros bs s Hs. apply compute_stats_ordered in Hs. tauto.
Qed.

(** The loop of [detect_columns] keeps the anchors in ascending order. *)
Lemma detect_columns_loop_ascending x_tolerance rest columns current last lo :
  0 <= x_tolerance →
  StronglySorted Qle rest →
  Forall (λ x, last <= x) rest →
  current ≠ [] →
  Forall (λ x, lo <= x ∧ x <= last) current →
  StronglySorted Qle columns →
  Forall (λ c, c <= round_to 2 lo) columns →
  StronglySorted Qle
    (detect_columns_loop x_tolerance rest columns current last).
Proof.
  intros Htol. revert columns current last lo.
  induction rest as [|x rest IH];
    intros columns current last lo Hsorted Hrest Hne Hcur Hcolumns Hlo;
    cbn [detect_columns_loop].
  - apply StronglySorted_snoc; [exact Hcolumns|].
    eapply Forall_impl; [exact Hlo|]. intros c Hc. cbn beta in *.
    destruct (mean_bounds lo last current Hne) as [Hm _].
    + eapply Forall_impl; [exact Hcur|]. intros ? [? _]; assumption.
    + eapply Forall_impl; [exact Hcur|]. intros ? [_ ?]; assumption.
    + eapply Qle_trans; [exact Hc|]. apply round_to_mono, Hm.
  - apply StronglySorted_inv in Hsorted as [Hsorted Hx].
    apply Forall_cons in Hrest as [Hlx Hrest].
    assert (Forall (λ y, x <= y) rest) as Hxrest by exact Hx.
    assert (lo <= last) as Hlolast.
    { destruct current as [|c current]; [contradiction|].
      apply Forall_cons in Hcur as [[? ?] _]. lra. }
    destruct (mean_bounds lo last current Hne) as [Hm1 Hm2].
    { eapply Forall_impl; [exact Hcur|]. intros ? [? _]; assumption. }
    { eapply Forall_impl; [exact Hcur|]. intros ? [_ ?]; assumption. }
    destruct (Qltb (x - last) x_tolerance) eqn:Hb.
    + apply (IH _ _ _ lo); try assumption.
      * destruct current; discriminate.
      * apply Forall_app. split.
        -- eapply Forall_impl; [exact Hcur|]. intros y [? ?]. split; lra.
        -- repeat constructor; lra.
    + apply (IH _ _ _ x); try assumption.
      * discriminate.
      * repeat constructor; lra.
      * apply StronglySorted_snoc; [exact Hcolumns|].
        eapply Forall_impl; [exact Hlo|]. intros c Hc. cbn beta in *.
        eapply Qle_trans; [exact Hc|]. apply round_to_mono, Hm1.
      * apply Forall_app. split.
        -- eapply Forall_impl; [exact Hlo|]. intros c Hc. cbn beta in *.
           eapply Qle_trans; [exact Hc|]. apply round_to_mono. lra.
        -- repeat constructor. apply round_to_mono. lra.
Qed.

Lemma detect_columns_loop_length x_tolerance rest columns current last :
  (length (detect_columns_loop x_tolerance rest columns current last)
   ≤ length columns + 1 + length rest)%nat.
Proof.
  revert columns current last.
  induction rest as [|x rest IH]; intros columns current last;
    cbn [detect_columns_loop length].
  - rewrite length_app. simpl. lia.
  - destruct (Qltb _ _).
    + etransitivity; [apply IH|]. lia.
    + etransitivity; [apply IH|]. rewrite length_app. simpl. lia.
Qed.

(** X9: for a tolerance that is not negative, the column anchors of
    [detect_columns] are in ascending order, and there are at most as many as
    there are blocks in the rows. *)
Theorem detect_columns_anchors_ascend (rows : list Row) (x_tolerance : Q) :
  0 <= x_tolerance →
  StronglySorted Qle (detect_columns rows x_tolerance)
  ∧ (length (detect_columns rows x_tolerance)
     ≤ length (concat (map blocks rows)))%nat.
Proof.
  intros Htol. unfold detect_columns.
  set (x_positions := concat (map (λ row, map block_x0 (blocks row)) rows)).
  assert (length x_positions = length (concat (map blocks rows))) as <-.
  { subst x_positions. induction rows as [|r rows IH]; [reflexivity|].
    cbn [map concat]. rewrite !length_app, length_map, IH. reflexivity. }
  pose proof (sorted_perm (λ x, x) x_positions) as Hperm.
  pose proof (sorted_ascending (λ x, x) x_positions) as Hasc.
  rewrite <- (Permutation_length Hperm).
  destruct (sorted (λ x, x) x_positions) as [|x rest];
    [split; [constructor|simpl; lia]|].
  apply StronglySorted_inv in Hasc as [Hrest Hx].
  split.
  - apply (detect_columns_loop_ascending x_tolerance rest [] [x] x x);
      try assumption; try discriminate; repeat constructor; apply Qle_refl.
  - etransitivity; [apply detect_columns_loop_length|]. simpl. lia.
Qed.

End Stats.

Lemma compute_stats_witness :
  ∃ s, compute_stats wide_blocks = Some s
       ∧ total_blocks s = length wide_blocks
       ∧ (min_font_size s <= median_font_size s)%Q
       ∧ (median_font_size s <= max_font_size s)%Q.
Proof.
  destruct (compute_stats wide_blocks) as [s|] eqn:Hs;
    [|vm_compute in Hs; discriminate].
  exists s. split; [reflexivity|].
  destruct compute_stats_orders_the_font_sizes as [_ Hord].
  exact (Hord wide_blocks s Hs).
Defined.

Lemma detect_columns_witness :
  (0 <= 10)%Q
  ∧ StronglySorted Qle (detect_columns [crowded_row; crowded_row] 10)
  ∧ (length (detect_columns [crowded_row; crowded_row] 10)
     ≤ length (concat (map blocks [crowded_row; crowded_row])))%nat.
Proof.
  split; [discriminate|].
  apply (detect_columns_anchors_ascend [crowded_row; crowded_row] 10).
  discriminate.
Defined.

(** ** Shape acceptance (detect_controls.py) *)

Section Detections.
Local Open Scope Q_scope.

Lemma ratio_or_zero_bounds w h lo :
  0 < lo →
  Qltb (ratio_or_zero w h) lo = false →
  (0 < h)%Z ∧ lo * inject_Z h <= inject_Z w.
Proof.
  intros Hlo Hb. apply Qltb_ge in Hb. unfold ratio_or_zero in Hb.
  destruct (0 <? h)%Z eqn:Hh; [|lra].
  apply Z.ltb_lt in Hh. split; [exact Hh|].
  assert (0 < inject_Z h) as Hpos
    by (change 0 with (inject_Z 0); rewrite <- Zlt_Qlt; exact Hh).
  apply (Qmult_le_r _ _ (/ inject_Z h)); [apply Qinv_lt_0_compat, Hpos|].
  rewrite <- Qmult_assoc, Qmult_inv_r, Qmult_1_r by lra. exact Hb.
Qed.

Lemma ratio_or_zero_upper w h hi :
  (0 < h)%Z → Qgtb (ratio_or_zero w h) hi = false →
  inject_Z w <= hi * inject_Z h.
Proof.
  intros Hh Hb. apply Qgtb_le in Hb. unfold ratio_or_zero in Hb.
  apply Z.ltb_lt in Hh as Hh'. rewrite Hh' in Hb.
  assert (0 < inject_Z h) as Hpos
    by (change 0 with (inject_Z 0); rewrite <- Zlt_Qlt; exact Hh).
  apply (Qmult_le_r _ _ (/ inject_Z h)); [apply Qinv_lt_0_compat, Hpos|].
  rewrite <- (Qmult_assoc hi), Qmult_inv_r, Qmult_1_r by lra. exact Hb.
Qed.

Lemma checkbox_of_contour_accepts min_size max_size contour c :
  checkbox_of_contour min_size max_size contour = Some c →
  c_type c = checkbox
  ∧ c_bbox c = rect_box (c_rect contour)
  ∧ checked c = Some (Qltb (c_center_mean contour) 220)
  ∧ confidence c == 0.7
  ∧ (min_size ≤ box_width c ≤ max_size)%Z
  ∧ (min_size ≤ box_height c ≤ max_size)%Z
  ∧ (5 ≤ box_width c)%Z ∧ (5 ≤ box_height c)%Z
  ∧ 0.7 * inject_Z (box_height c) <= inject_Z (box_width c)
  ∧ inject_Z (box_width c) <= 1.4 * inject_Z (box_height c).
Proof.
  unfold checkbox_of_contour, box_width, box_height, rect_box.
  destruct (c_rect contour) as [x y w h]. cbn [rect_x rect_y rect_w rect_h].
  destruct ((w <? min_size)%Z || (h <? min_size)%Z || (max_size <? w)%Z
            || (max_size <? h)%Z) eqn:Hsize; [discriminate|].
  cbv zeta.
  destruct (Qltb (ratio_or_zero w h) 0.7 || Qgtb (ratio_or_zero w h) 1.4)
    eqn:Hratio; [discriminate|].
  destruct ((c_approx contour <? 4)%nat || (8 <? c_approx contour)%nat);
    [discriminate|].
  destruct (Z.max 0 h * Z.max 0 w =? 0)%Z; [discriminate|].
  destruct ((2 * Z.max 2 (Z.min w h / 4) <? w)%Z
            && (2 * Z.max 2 (Z.min w h / 4) <? h)%Z
            && (0 <? (h - 2 * Z.max 2 (Z.min w h / 4))
                     * (w - 2 * Z.max 2 (Z.min w h / 4)))%Z) eqn:Hborder;
    [|discriminate].
  destruct (Qltb (c_edge_mean contour) (c_center_mean contour + 30));
    [|discriminate].
  intros [= <-]. cbn [c_type c_bbox checked confidence x0 y0 x1 y1].
  apply orb_false_iff in Hsize as [Hsize Hh2].
  apply orb_false_iff in Hsize as [Hsize Hw2].
  apply orb_false_iff in Hsize as [Hw1 Hh1].
  apply orb_false_iff in Hratio as [Hlo Hhi].
  apply andb_true_iff in Hborder as [Hborder _].
  apply andb_true_iff in Hborder as [Hbw Hbh].
  apply Z.ltb_ge in Hw1, Hh1, Hw2, Hh2. apply Z.ltb_lt in Hbw, Hbh.
  destruct (ratio_or_zero_bounds w h 0.7 ltac:(reflexivity) Hlo)
    as [Hh Hlow].
  pose proof (ratio_or_zero_upper w h 1.4 Hh Hhi) as Hupp.
  replace (x + w - x)%Z with w by lia. replace (y + h - y)%Z with h by lia.
  repeat split; try assumption; try reflexivity; lia.
Qed.

(** X10: every checkbox [detect_checkboxes] returns is the bounding
    rectangle of one of the contours; it is flagged checked exactly when the
    mean of its inner region is below 220 and has confidence 0.7; its width
    and height lie in the size window, are at least 5 pixels, and its aspect
    ratio lies between 0.7 and 1.4. *)
Theorem detected_checkboxes_are_accepted_contours (image : Image)
    (min_size max_size : Z) :
  Forall (λ c,
      (∃ contour, contour ∈ binary_contours image
                  ∧ c_bbox c = rect_box (c_rect contour)
                  ∧ checked c = Some (Qltb (c_center_mean contour) 220))
      ∧ confidence c == 0.7
      ∧ (min_size ≤ box_width c ≤ max_size)%Z
      ∧ (min_size ≤ box_height c ≤ max_size)%Z
      ∧ (5 ≤ box_width c)%Z ∧ (5 ≤ box_height c)%Z
      ∧ 0.7 * inject_Z (box_height c) <= inject_Z (box_width c)
      ∧ inject_Z (box_width c) <= 1.4 * inject_Z (box_height c))
    (detect_checkboxes image min_size max_size).
Proof.
  apply Forall_forall. intros c Hc. unfold detect_checkboxes in Hc.
  apply remove_overlapping_elem in Hc.
  apply list_elem_of_omap in Hc as (contour & Hin & Hc).
  apply checkbox_of_contour_accepts in Hc
    as (_ & Hbox & Hchecked & Hconf & Hrest).
  split; [exists contour; repeat split; assumption|].
  split; [exact Hconf|exact Hrest].
Qed.

Lemma round_to_2_ge q v :
  v == round_to 2 v → v <= q → v <= round_to 2 q.
Proof. intros Hv Hle. rewrite Hv. apply round_to_mono, Hle. Qed.

Lemma round_to_2_le q v :
  round_to 2 v == v → q <= v → round_to 2 q <= v.
Proof. intros Hv Hle. rewrite <- Hv. apply round_to_mono, Hle. Qed.

Lemma radio_of_circle_accepts image circle c :
  radio_of_circle image circle = Some c →
  c_type c = radio
  ∧ center c = Some (circle_x circle, circle_y circle)
  ∧ radius c = Some (circle_r circle)
  ∧ c_bbox c = mkBBox (circle_x circle - circle_r circle)%Z
                 (circle_y circle - circle_r circle)%Z
                 (circle_x circle + circle_r circle)%Z
                 (circle_y circle + circle_r circle)%Z
  ∧ (0 ≤ x0 (c_bbox c))%Z ∧ (0 ≤ y0 (c_bbox c))%Z
  ∧ (x1 (c_bbox c) < width image)%Z ∧ (y1 (c_bbox c) < height image)%Z
  ∧ 0.55 <= confidence c ∧ confidence c <= 1.
Proof.
  unfold radio_of_circle. cbv zeta.
  destruct ((circle_x circle - circle_r circle <? 0)%Z
            || (circle_y circle - circle_r circle <? 0)%Z
            || (width image <=? circle_x circle + circle_r circle)%Z
            || (height image <=? circle_y circle + circle_r circle)%Z)
    eqn:Hin; [discriminate|].
  match goal with
  | |- (if ?b then _ else _) = _ → _ => destruct b eqn:Hshape; [|discriminate]
  end.
  intros [= <-].
  cbn [c_type c_bbox center radius confidence x0 y0 x1 y1].
  apply orb_false_iff in Hin as [Hin Hy1].
  apply orb_false_iff in Hin as [Hin Hx1].
  apply orb_false_iff in Hin as [Hx0 Hy0].
  apply Z.ltb_ge in Hx0, Hy0. apply Z.leb_gt in Hx1, Hy1.
  apply andb_true_iff in Hshape as [Hborder _]. apply Qgtb_gt in Hborder.
  repeat split; try assumption; try reflexivity.
  - apply round_to_2_ge; [reflexivity|].
    destruct (Qltb 1 _) eqn:E; [lra|lra].
  - apply round_to_2_le; [reflexivity|].
    destruct (Qltb 1 _) eqn:E; [lra|]. apply Qltb_ge in E. exact E.
Qed.

(** X11: every radio button [detect_radio_buttons] returns is the square
    around one of the Hough circles, lies inside the image, and has a
    confidence between 0.55 and 1; without circles there is none. *)
Theorem detected_radio_buttons_lie_inside_the_image (image : Image) :
  (hough_circles image = None → detect_radio_buttons image = [])
  ∧ Forall (λ c,
        c_type c = radio
        ∧ (∃ circle, center c = Some (circle_x circle, circle_y circle)
                     ∧ radius c = Some (circle_r circle)
                     ∧ c_bbox c
                       = mkBBox (circle_x circle - circle_r circle)%Z
                           (circle_y circle - circle_r circle)%Z
                           (circle_x circle + circle_r circle)%Z
                           (circle_y circle + circle_r circle)%Z)
        ∧ (0 ≤ x0 (c_bbox c))%Z ∧ (0 ≤ y0 (c_bbox c))%Z
        ∧ (x1 (c_bbox c) < width image)%Z ∧ (y1 (c_bbox c) < height image)%Z
        ∧ 0.55 <= confidence c ∧ confidence c <= 1)
      (detect_radio_buttons image).
Proof.
  unfold detect_radio_buttons. split; [intros ->; reflexivity|].
  destruct (hough_circles image) as [circles|]; [|constructor].
  apply Forall_forall. intros c Hc.
  apply list_elem_of_omap in Hc as (circle & _ & Hc).
  apply radio_of_circle_accepts in Hc
    as (Htype & Hcenter & Hradius & Hbox & Hrest).
  split; [exact Htype|]. split; [|exact Hrest].
  exists circle. repeat split; assumption.
Qed.

Lemma input_of_contour_accepts min_width min_height max_height contour c :
  input_of_contour min_width min_height max_height contour = Some c →
  c_type c = input
  ∧ c_bbox c = rect_box (e_rect contour)
  ∧ (min_width ≤ box_width c)%Z
  ∧ (min_height ≤ box_height c ≤ max_height)%Z
  ∧ (0 < box_height c)%Z
  ∧ (2 * box_height c ≤ box_width c)%Z
  ∧ 100 <= e_area contour
  ∧ 0.3 <= confidence c.
Proof.
  unfold input_of_contour, box_width, box_height, rect_box.
  destruct (e_rect contour) as [x y w h]. cbn [rect_x rect_y rect_w rect_h].
  destruct ((w <? min_width)%Z || (h <? min_height)%Z || (max_height <? h)%Z)
    eqn:Hsize; [discriminate|].
  destruct (Qltb (ratio_or_zero w h) 2) eqn:Hratio; [discriminate|].
  destruct (Qltb (e_area contour) 100) eqn:Harea; [discriminate|].
  destruct ((4 <=? e_approx contour)%nat && (e_approx contour <=? 8)%nat);
    [|discriminate].
  cbv zeta.
  match goal with
  | |- (if ?b then _ else _) = _ → _ => destruct b eqn:Hextent; [|discriminate]
  end.
  intros [= <-]. cbn [c_type c_bbox confidence x0 y0 x1 y1].
  apply orb_false_iff in Hsize as [Hsize Hh2].
  apply orb_false_iff in Hsize as [Hw1 Hh1].
  apply Z.ltb_ge in Hw1, Hh1, Hh2.
  destruct (ratio_or_zero_bounds w h 2 ltac:(reflexivity) Hratio)
    as [Hh Hlow].
  apply Qltb_ge in Harea. apply Qgtb_gt in Hextent.
  replace (x + w - x)%Z with w by lia. replace (y + h - y)%Z with h by lia.
  repeat split; try assumption; try reflexivity.
  - rewrite Zle_Qle, inject_Z_mult. exact Hlow.
  - apply round_to_2_ge; [reflexivity|]. apply Qlt_le_weak, Hextent.
Qed.

(** X12: every input box [detect_input_boxes] returns is the bounding
    rectangle of one of the edge contours, of area at least 100; it is at
    least [min_width] wide and at least twice as wide as high, its height
    lies between [min_height] and [max_height], and its confidence is at
    least 0.3. *)
Theorem detected_input_boxes_are_wide_rectangles (image : Image)
    (min_width min_height max_height : Z) :
  Forall (λ c,
      c_type c = input
      ∧ (∃ contour, contour ∈ edge_contours image
                    ∧ c_bbox c = rect_box (e_rect contour)
                    ∧ 100 <= e_area contour)
      ∧ (min_width ≤ box_width c)%Z
      ∧ (min_height ≤ box_height c ≤ max_height)%Z
      ∧ (0 < box_height c)%Z
      ∧ (2 * box_height c ≤ box_width c)%Z
      ∧ 0.3 <= confidence c)
    (detect_input_boxes image min_width min_height max_height).
Proof.
  apply Forall_forall. intros c Hc. unfold detect_input_boxes in Hc.
  apply remove_overlapping_elem in Hc.
  apply list_elem_of_omap in Hc as (contour & Hin & Hc).
  apply input_of_contour_accepts in Hc
    as (Htype & Hbox & Hw & Hh & Hpos & Hwide & Harea & Hconf).
  split; [exact Htype|].
  split; [exists contour; repeat split; assumption|].
  repeat split; try assumption; apply Hh.
Qed.

End Detections.

(** ** Lines and bands (detect_controls.py) *)

Section Lines.

Lemma sorted_Z_ascending {A} (key : A → Z) l :
  StronglySorted (λ a b, (key a ≤ key b)%Z) (sorted (λ a, inject_Z (key a)) l).
Proof.
  eapply StronglySorted_weaken; [|apply (sorted_ascending (λ a, inject_Z (key a)))].
  intros a b Hab. cbn beta in Hab. rewrite <- Zle_Qle in Hab. exact Hab.
Qed.

Lemma omap_length_le {A B} (f : A → option B) l :
  (length (omap f l) ≤ length l)%nat.
Proof.
  induction l as [|a l IH]; [reflexivity|]. cbn [omap list_omap].
  destruct (f a); cbn [length]; lia.
Qed.


End Lines.

Section Bands.
Local Open Scope Z_scope.

Variables min_gap min_row_height : Z.

Lemma band_within_weaken lo hi hi' b :
  hi ≤ hi' → band_within min_row_height lo hi b →
  band_within min_row_height lo hi' b.
Proof. unfold band_within. intros ? (? & ? & ? & ?). repeat split; lia. Qed.

(** The scan leaves bands that lie strictly one above the other, each of at
    least [min_row_height] rows. *)
Lemma scan_bands_ordered lo is_content y bands in_content start_y :
  Forall (band_within min_row_height lo
            ((if in_content : bool then start_y else y) - 1)) bands →
  StronglySorted (band_above 1) bands →
  (if in_content then lo ≤ start_y < y else lo ≤ y) →
  let result :=
    scan_bands min_row_height is_content y bands in_content start_y in
  Forall (band_within min_row_height lo (y + Z.of_nat (length is_content)))
    result
  ∧ StronglySorted (band_above 1) result.
Proof.
  cbn zeta. revert y bands in_content start_y.
  induction is_content as [|c rest IH];
    intros y bands in_content start_y Hbands Hsorted Hpos;
    cbn [scan_bands length].
  - assert (Forall (band_within min_row_height lo (y + Z.of_nat 0)) bands) as Hweak.
    { eapply Forall_impl; [exact Hbands|]. intros b.
      apply band_within_weaken. destruct in_content; lia. }
    destruct in_content; cbn [andb]; [|split; assumption].
    destruct (min_row_height <=? y - start_y) eqn:Hh; [|split; assumption].
    apply Z.leb_le in Hh. split.
    + apply Forall_app. split; [exact Hweak|]. repeat constructor;
        cbn [band_y0 band_y1]; lia.
    + apply StronglySorted_snoc; [exact Hsorted|].
      eapply Forall_impl; [exact Hbands|].
      intros b (? & ? & ? & ?). split; cbn [band_y0 band_y1]; lia.
  - replace (y + Z.of_nat (S (length rest)))
      with (y + 1 + Z.of_nat (length rest)) by lia.
    destruct c, in_content; cbn [andb negb].
    + apply IH; [|exact Hsorted|lia]. exact Hbands.
    + apply IH; [|exact Hsorted|lia].
      eapply Forall_impl; [exact Hbands|]. intros b.
      apply band_within_weaken. lia.
    + destruct (min_row_height <=? y - start_y) eqn:Hh.
      * apply Z.leb_le in Hh. apply IH; [| |lia].
        -- apply Forall_app. split.
           ++ eapply Forall_impl; [exact Hbands|]. intros b.
              apply band_within_weaken. lia.
           ++ repeat constructor; cbn [band_y0 band_y1]; lia.
        -- apply StronglySorted_snoc; [exact Hsorted|].
           eapply Forall_impl; [exact Hbands|].
           intros b (? & ? & ? & ?). split; cbn [band_y0 band_y1]; lia.
      * apply IH; [|exact Hsorted|lia].
        eapply Forall_impl; [exact Hbands|]. intros b.
        apply band_within_weaken. lia.
    + apply IH; [|exact Hsorted|lia].
      eapply Forall_impl; [exact Hbands|]. intros b.
      apply band_within_weaken. lia.
Qed.

(** Merging keeps the order and the heights, and leaves at least [min_gap]
    rows between neighbours. *)
Lemma merge_bands_ordered lo hi rest done last :
  Forall (band_within min_row_height lo hi) (done ++ last :: rest) →
  StronglySorted (band_above 1) (last :: rest) →
  StronglySorted (band_above min_gap) done →
  Forall (λ d, band_above min_gap d last) done →
  let result := merge_bands min_gap rest done last in
  Forall (band_within min_row_height lo hi) result
  ∧ StronglySorted (band_above min_gap) result.
Proof.
  cbn zeta. revert done last.
  induction rest as [|band rest IH]; intros done last Hall Hsorted Hdone Hlast;
    cbn [merge_bands].
  - split; [exact Hall|]. apply StronglySorted_snoc; assumption.
  - apply StronglySorted_inv in Hsorted as [Hsorted Hl].
    apply Forall_cons in Hl as [[Hlb _] Hl].
    apply StronglySorted_inv in Hsorted as Hsorted'.
    destruct Hsorted' as [Hrest Hb].
    apply Forall_app in Hall as [Hd Hall].
    apply Forall_cons in Hall as [Hwl Hall].
    apply Forall_cons in Hall as [Hwb Hall].
    destruct Hwl as (? & ? & ? & ?), Hwb as (? & ? & ? & ?).
    destruct (band_y0 band - band_y1 last <? min_gap) eqn:Hgap.
    + apply IH.
      * apply Forall_app. split; [exact Hd|]. constructor; [|exact Hall].
        repeat split; cbn [band_y0 band_y1]; lia.
      * constructor; [exact Hrest|].
        eapply Forall_impl; [exact Hb|]. intros b [? ?].
        split; cbn [band_y0 band_y1] in *; lia.
      * exact Hdone.
      * eapply Forall_impl; [exact Hlast|]. intros d [? ?].
        split; cbn [band_y0 band_y1] in *; lia.
    + apply Z.ltb_ge in Hgap. apply IH.
      * rewrite <- app_assoc. apply Forall_app. split; [exact Hd|].
        constructor; [repeat split; assumption|].
        constructor; [repeat split; assumption|exact Hall].
      * exact Hsorted.
      * apply StronglySorted_snoc; assumption.
      * apply Forall_app. split.
        -- eapply Forall_impl; [exact Hlast|]. intros d [? ?].
           split; lia.
        -- repeat constructor; lia.
Qed.

Lemma band_above_single_weaken bands :
  (length bands < 2)%nat → StronglySorted (band_above min_gap) bands.
Proof.
  destruct bands as [|b [|b' bands]]; cbn [length]; intros ?;
    [constructor|repeat constructor|lia].
Qed.

Lemma detect_row_bands_ordered (image : Image) :
  let bands := detect_row_bands image min_gap min_row_height in
  Forall (band_within min_row_height 0
            (Z.of_nat (length (projection image)))) bands
  ∧ StronglySorted (band_above min_gap) bands.
Proof.
  cbn zeta. unfold detect_row_bands. cbv zeta.
  set (is_content := map _ (projection image)).
  assert (length (projection image) = length is_content) as ->
    by (subst is_content; rewrite length_map; reflexivity).
  destruct (scan_bands_ordered 0 is_content 0 [] false 0)
    as [Hwithin Hsorted]; [constructor|constructor|cbn; lia|].
  cbn zeta in Hwithin, Hsorted. rewrite Z.add_0_l in Hwithin.
  destruct (scan_bands min_row_height is_content 0 [] false 0)
    as [|b0 [|b1 rest]] eqn:Hscan.
  - split; constructor.
  - split; [exact Hwithin|repeat constructor].
  - apply merge_bands_ordered.
    + exact Hwithin.
    + exact Hsorted.
    + constructor.
    + constructor.
Qed.

(** X14: the row bands of [detect_row_bands] lie inside the image (rows 0 to
    the number of projection rows), each is at least [min_row_height] rows
    high and not empty, and they come top to bottom without touching: each
    band ends above the start of the next, at least [min_gap] rows away. *)
Theorem detect_row_bands_are_ordered_and_apart (image : Image) :
  let bands := detect_row_bands image min_gap min_row_height in
  Forall (band_within min_row_height 0
            (Z.of_nat (length (projection image)))) bands
  ∧ StronglySorted (band_above min_gap) bands.
Proof. apply detect_row_bands_ordered. Qed.

End Bands.

Section Regions.
Local Open Scope Z_scope.

Variable min_gap : Z.

Lemma segment_loop_ordered rest regions region_start prev :
  StronglySorted Z.le rest →
  Forall (λ y, prev ≤ y) rest →
  region_start ≤ prev →
  Forall (λ r, fst r ≤ snd r ∧ region_above min_gap r (region_start, prev))
    regions →
  StronglySorted (region_above min_gap) regions →
  let result := segment_loop min_gap rest regions region_start prev in
  Forall (λ r, fst r ≤ snd r) result
  ∧ StronglySorted (region_above min_gap) result.
Proof.
  cbn zeta. revert regions region_start prev.
  induction rest as [|y rest IH];
    intros regions region_start prev Hrest Hprev Hstart Hregions Hsorted;
    cbn [segment_loop].
  - split.
    + apply Forall_app. split; [|repeat constructor; exact Hstart].
      eapply Forall_impl; [exact Hregions|]. intros r [? _]. assumption.
    + apply StronglySorted_snoc; [exact Hsorted|].
      eapply Forall_impl; [exact Hregions|]. intros r [_ ?]. assumption.
  - apply StronglySorted_inv in Hrest as [Hrest Hy].
    apply Forall_cons in Hprev as [Hpy Hprev].
    destruct (min_gap <? y - prev) eqn:Hgap.
    + apply Z.ltb_lt in Hgap.
      apply IH; [exact Hrest|exact Hy|lia| |].
      * apply Forall_app. split.
        -- eapply Forall_impl; [exact Hregions|].
           intros r [? [? ?]]. cbn [fst snd] in *.
           split; [assumption|]. split; cbn [fst snd]; lia.
        -- repeat constructor; cbn [fst snd]; lia.
      * apply StronglySorted_snoc; [exact Hsorted|].
        eapply Forall_impl; [exact Hregions|]. intros r [_ ?]. assumption.
    + apply Z.ltb_ge in Hgap.
      apply IH; [exact Hrest|exact Hy|lia| |exact Hsorted].
      eapply Forall_impl; [exact Hregions|].
      intros r [? [? ?]]. cbn [fst snd] in *.
      split; [assumption|]. split; cbn [fst snd]; lia.
Qed.

Lemma segment_loop_covers rest regions region_start prev v :
  Forall (λ y, prev ≤ y) rest →
  StronglySorted Z.le rest →
  region_start ≤ prev →
  v ∈ rest ∨ region_start ≤ v ≤ prev ∨ Exists (in_region v) regions →
  Exists (in_region v) (segment_loop min_gap rest regions region_start prev).
Proof.
  revert regions region_start prev.
  induction rest as [|y rest IH];
    intros regions region_start prev Hprev Hrest Hstart Hv;
    cbn [segment_loop].
  - apply Exists_app. destruct Hv as [Hv|[Hv|Hv]]; [inversion Hv| |].
    + right. constructor. exact Hv.
    + left. exact Hv.
  - apply StronglySorted_inv in Hrest as [Hrest Hy].
    apply Forall_cons in Hprev as [Hpy Hprev].
    destruct (min_gap <? y - prev).
    + apply IH; [exact Hy|exact Hrest|lia|].
      destruct Hv as [Hv|[Hv|Hv]].
      * apply elem_of_cons in Hv as [->|Hv]; [right; left; lia|left; exact Hv].
      * right. right. apply Exists_app. right. constructor. exact Hv.
      * right. right. apply Exists_app. left. exact Hv.
    + apply IH; [exact Hy|exact Hrest|lia|].
      destruct Hv as [Hv|[Hv|Hv]].
      * apply elem_of_cons in Hv as [->|Hv]; [right; left; lia|left; exact Hv].
      * right. left. lia.
      * right. right. exact Hv.
Qed.

Lemma segment_loop_endpoints (P : Z → Prop) rest regions region_start prev :
  Forall P rest → P region_start → P prev →
  Forall (λ r, P (fst r) ∧ P (snd r)) regions →
  Forall (λ r, P (fst r) ∧ P (snd r))
    (segment_loop min_gap rest regions region_start prev).
Proof.
  revert regions region_start prev.
  induction rest as [|y rest IH];
    intros regions region_start prev Hrest Hstart Hprev Hregions;
    cbn [segment_loop].
  - apply Forall_app. split; [exact Hregions|]. repeat constructor; assumption.
  - apply Forall_cons in Hrest as [Hy Hrest].
    destruct (min_gap <? y - prev); apply IH; try assumption.
    apply Forall_app. split; [exact Hregions|]. repeat constructor; assumption.
Qed.

(** X15: [segment_page_into_tables] cuts the page into regions that cover
    every horizontal line: each line's y lies in a region; a region starts
    and ends at the y of a line, with its start not below its end; the
    regions come top to bottom, each more than [min_gap] above the next;
    without lines there is no region. *)
Theorem segment_page_into_tables_covers_every_line (h_lines : list HLine) :
  let regions := segment_page_into_tables h_lines min_gap in
  (h_lines = [] → regions = [])
  ∧ (∀ l, l ∈ h_lines → Exists (in_region (h_y l)) regions)
  ∧ Forall (λ r, fst r ≤ snd r
                 ∧ fst r ∈ map h_y h_lines ∧ snd r ∈ map h_y h_lines) regions
  ∧ StronglySorted (region_above min_gap) regions.
Proof.
  cbn zeta. unfold segment_page_into_tables.
  split; [intros ->; reflexivity|].
  pose proof (sorted_perm (λ l, inject_Z (h_y l)) h_lines) as Hperm.
  pose proof (sorted_Z_ascending h_y h_lines) as Hasc.
  set (lines := sorted (λ l, inject_Z (h_y l)) h_lines) in *.
  assert (StronglySorted Z.le (map h_y lines)) as Hys.
  { clear Hperm. induction Hasc as [|a l Hl IH Ha]; [constructor|].
    cbn [map]. constructor; [exact IH|]. apply Forall_map. exact Ha. }
  assert (map h_y lines ≡ₚ map h_y h_lines) as Hpermy
    by (apply Permutation_map, Hperm).
  destruct (map h_y lines) as [|y rest] eqn:Hmap.
  - split; [|split; constructor].
    intros l Hl.
    apply (list_elem_of_fmap_2 h_y) in Hl.
    change (h_y <$> h_lines) with (map h_y h_lines) in Hl.
    rewrite <- Hpermy in Hl. inversion Hl.
  - apply StronglySorted_inv in Hys as [Hrest Hy].
    destruct (segment_loop_ordered rest [] y y Hrest Hy ltac:(lia)
                ltac:(constructor) ltac:(constructor)) as [Hle Hsorted].
    split; [|split; [|exact Hsorted]].
    + intros l Hl. apply segment_loop_covers; [exact Hy|exact Hrest|lia|].
      apply (list_elem_of_fmap_2 h_y) in Hl.
      change (h_y <$> h_lines) with (map h_y h_lines) in Hl.
      rewrite <- Hpermy in Hl.
      apply elem_of_cons in Hl as [->|Hl]; [right; left; lia|left; exact Hl].
    + pose proof (segment_loop_endpoints (λ v, v ∈ map h_y h_lines) rest [] y y)
        as Hends.
      assert (Forall (λ v, v ∈ map h_y h_lines) (y :: rest)) as Hall.
      { apply Forall_forall. intros v Hv. rewrite <- Hpermy. exact Hv. }
      apply Forall_cons in Hall as [Hy' Hrest'].
      specialize (Hends Hrest' Hy' Hy' ltac:(constructor)).
      rewrite Forall_forall in Hle, Hends. apply Forall_forall.
      intros r Hr. split; [apply Hle, Hr|apply Hends, Hr].
Qed.

End Regions.

(** ** Cell grids (detect_controls.py) *)

Section IntClusters.

Lemma int_bounds lo hi q :
  (inject_Z lo <= q)%Q → (q <= inject_Z hi)%Q → (lo ≤ int q ≤ hi)%Z.
Proof.
  intros Hlo Hhi. unfold int.
  pose proof (Qfloor_resp_le _ _ Hlo) as H1. rewrite Qfloor_Z in H1.
  pose proof (Qceiling_resp_le _ _ Hhi) as H2. rewrite Qceiling_Z in H2.
  pose proof (Qfloor_le q) as H3. pose proof (Qle_ceiling q) as H4.
  assert (Qfloor q ≤ hi)%Z.
  { rewrite Zle_Qle. eapply Qle_trans; [exact H3|exact Hhi]. }
  assert (lo ≤ Qceiling q)%Z.
  { rewrite Zle_Qle. eapply Qle_trans; [exact Hlo|exact H4]. }
  destruct (Qltb q 0); lia.
Qed.

Lemma zsum_from_bounds lo hi l a :
  Forall (λ x, lo ≤ x ≤ hi)%Z l →
  (a + lo * Z.of_nat (length l) ≤ fold_left Z.add l a
   ≤ a + hi * Z.of_nat (length l))%Z.
Proof.
  intros Hl. revert a. induction Hl as [|x l Hx Hl IH]; intros a.
  - cbn [fold_left length]. lia.
  - cbn [fold_left length]. specialize (IH (a + x)%Z). lia.
Qed.

(** [int(sum(c) / len(c))] of a non-empty cluster lies between any two
    bounds of the cluster. *)
Lemma int_mean_bounds lo hi c :
  c ≠ [] → Forall (λ x, lo ≤ x ≤ hi)%Z c → (lo ≤ int_mean c ≤ hi)%Z.
Proof.
  intros Hne Hc. unfold int_mean.
  pose proof (zsum_from_bounds lo hi c 0 Hc) as Hsum.
  pose proof (len_pos c Hne) as Hpos.
  apply int_bounds.
  - apply Qle_shift_div_l; [exact Hpos|]. unfold len.
    rewrite <- inject_Z_mult, <- Zle_Qle. lia.
  - apply Qle_shift_div_r; [exact Hpos|]. unfold len.
    rewrite <- inject_Z_mult, <- Zle_Qle. lia.
Qed.

Lemma int_cluster_loop_ascending tolerance rest clusters current last lo :
  (0 ≤ tolerance)%Z →
  StronglySorted Z.le rest →
  Forall (λ x, last ≤ x)%Z rest →
  current ≠ [] →
  Forall (λ x, lo ≤ x ≤ last)%Z current →
  StronglySorted Z.lt (map int_mean clusters) →
  Forall (λ c, int_mean c < lo)%Z clusters →
  StronglySorted Z.lt
    (map int_mean
       (DetectControls.cluster_loop tolerance rest clusters current last)).
Proof.
  intros Htol. revert clusters current last lo.
  induction rest as [|x rest IH];
    intros clusters current last lo Hsorted Hrest Hne Hcur Hclusters Hlo;
    cbn [DetectControls.cluster_loop].
  - rewrite map_app. apply StronglySorted_snoc; [exact Hclusters|].
    apply Forall_map. eapply Forall_impl; [exact Hlo|].
    intros c Hc. cbn beta in *.
    pose proof (int_mean_bounds lo last current Hne Hcur). lia.
  - apply StronglySorted_inv in Hsorted as [Hsorted Hx].
    apply Forall_cons in Hrest as [Hlx Hrest].
    assert (Forall (λ y, x ≤ y)%Z rest) as Hxrest by exact Hx.
    assert (lo ≤ last)%Z as Hlolast.
    { destruct current as [|c current]; [contradiction|].
      apply Forall_cons in Hcur as [? _]. lia. }
    pose proof (int_mean_bounds lo last current Hne Hcur) as Hm.
    destruct (Z.abs (x - last) <=? tolerance)%Z eqn:Hb.
    + apply (IH _ _ _ lo); try assumption.
      * destruct current; discriminate.
      * apply Forall_app. split.
        -- eapply Forall_impl; [exact Hcur|]. intros y ?. cbn beta in *. lia.
        -- repeat constructor; lia.
    + apply Z.leb_gt in Hb. assert (last < x)%Z as Hlt by lia.
      apply (IH _ _ _ x); try assumption.
      * discriminate.
      * repeat constructor; lia.
      * rewrite map_app. apply StronglySorted_snoc; [exact Hclusters|].
        apply Forall_map. eapply Forall_impl; [exact Hlo|].
        intros c Hc. cbn beta in *. lia.
      * apply Forall_app. split.
        -- eapply Forall_impl; [exact Hlo|]. intros c Hc. cbn beta in *. lia.
        -- repeat constructor. lia.
Qed.

(** The boundaries of [build_cell_grid_from_lines] are strictly ascending. *)
Lemma int_cluster_positions_sorted positions tolerance :
  (0 ≤ tolerance)%Z →
  StronglySorted Z.lt (DetectControls.cluster_positions positions tolerance).
Proof.
  intros Htol. unfold DetectControls.cluster_positions.
  pose proof (sorted_Z_ascending (λ p : Z, p) positions) as Hasc.
  change (λ a : Z, inject_Z a) with inject_Z in Hasc.
  destruct (sorted inject_Z positions) as [|p rest]; [constructor|].
  apply StronglySorted_inv in Hasc as [Hrest Hp].
  apply (int_cluster_loop_ascending tolerance rest [] [p] p p);
    try assumption; try discriminate; repeat constructor; lia.
Qed.

End IntClusters.

Section Lattice.

Lemma StronglySorted_lookup_lt {A} (R : A → A → Prop) l i j a b :
  StronglySorted R l → (i < j)%nat → l !! i = Some a → l !! j = Some b → R a b.
Proof.
  intros Hl. revert i j. induction Hl as [|x l Hl IH Hx]; intros i j Hij Ha Hb.
  - inversion Ha.
  - destruct j as [|j]; [lia|]. destruct i as [|i].
    + injection Ha as <-. rewrite Forall_forall in Hx.
      apply Hx. eapply list_elem_of_lookup_2, Hb.
    + apply (IH i j); [lia|exact Ha|exact Hb].
Qed.

Lemma spans_of_lookup i boundaries k j a b :
  spans_of i boundaries !! k = Some (j, (a, b)) ↔
  j = (i + k)%nat ∧ boundaries !! k = Some a ∧ boundaries !! S k = Some b.
Proof.
  revert i k. induction boundaries as [|x l IH]; intros i k.
  - simpl. split; [discriminate|intros (_ & ? & _); discriminate].
  - destruct l as [|y l].
    + simpl. split; [discriminate|]. intros (_ & _ & ?).
      destruct k; discriminate.
    + change (spans_of i (x :: y :: l))
        with ((i, (x, y)) :: spans_of (S i) (y :: l)).
      destruct k as [|k].
      * simpl. split.
        -- intros [= <- <- <-]. repeat split. lia.
        -- intros (-> & [= <-] & [= <-]). rewrite Nat.add_0_r. reflexivity.
      * change (((i, (x, y)) :: spans_of (S i) (y :: l)) !! S k)
          with (spans_of (S i) (y :: l) !! k).
        change ((x :: y :: l) !! S k) with ((y :: l) !! k).
        change ((x :: y :: l) !! S (S k)) with ((y :: l) !! S k).
        rewrite IH.
        split; intros (-> & ? & ?); repeat split; try assumption; lia.
Qed.

Lemma spans_of_length i boundaries :
  length (spans_of i boundaries) = (length boundaries - 1)%nat.
Proof.
  revert i. induction boundaries as [|x l IH]; intros i; [reflexivity|].
  destruct l as [|y l]; [reflexivity|].
  change (spans_of i (x :: y :: l)) with ((i, (x, y)) :: spans_of (S i) (y :: l)).
  cbn [length] in *. rewrite IH. lia.
Qed.

Lemma build_cell_grid_shape h_lines v_lines tolerance g :
  build_cell_grid_from_lines h_lines v_lines tolerance = Some g →
  row_boundaries g
  = DetectControls.cluster_positions (map h_y h_lines) tolerance
  ∧ col_boundaries g
    = DetectControls.cluster_positions (map v_x v_lines) tolerance
  ∧ length (row_boundaries g) = S (num_rows g)
  ∧ length (col_boundaries g) = S (num_cols g)
  ∧ (1 ≤ num_rows g)%nat ∧ (1 ≤ num_cols g)%nat
  ∧ length (cells g) = num_rows g
  ∧ Forall (λ cell_row, length cell_row = num_cols g) (cells g)
  ∧ ∀ r c cell, cell_at (cells g) r c = Some cell →
      row cell = r ∧ col cell = c ∧ content cell = None
      ∧ spans_boundaries g r c cell.
Proof.
  unfold build_cell_grid_from_lines.
  destruct h_lines as [|h0 h_lines]; [discriminate|].
  destruct v_lines as [|v0 v_lines]; [discriminate|].
  cbv zeta.
  set (rb := DetectControls.cluster_positions (map h_y (h0 :: h_lines)) tolerance)
    in *.
  set (cb := DetectControls.cluster_positions (map v_x (v0 :: v_lines)) tolerance)
    in *.
  destruct ((length rb <? 2)%nat || (length cb <? 2)%nat) eqn:Hlen;
    [discriminate|].
  apply orb_false_iff in Hlen as [Hr Hc].
  apply Nat.ltb_ge in Hr, Hc.
  intros Hg. apply (inj Some) in Hg. subst g.
  cbv beta iota delta [row_boundaries col_boundaries num_rows num_cols cells].
  split; [reflexivity|]. split; [reflexivity|].
  split; [lia|]. split; [lia|]. split; [lia|]. split; [lia|].
  split; [rewrite length_map, spans_of_length; reflexivity|].
  split.
  - apply Forall_map, Forall_forall. intros [row_idx [cy0 cy1]] _.
    rewrite length_map, spans_of_length. reflexivity.
  - intros r c cell Hcell. unfold cell_at in Hcell.
    rewrite list_lookup_fmap in Hcell.
    destruct (spans_of 0 rb !! r) as [[row_idx [cy0 cy1]]|] eqn:Hrow;
      [|discriminate].
    cbn [fmap option_fmap option_map mbind option_bind] in Hcell.
    rewrite list_lookup_fmap in Hcell.
    destruct (spans_of 0 cb !! c) as [[col_idx [cx0 cx1]]|] eqn:Hcol;
      [|discriminate].
    cbn [fmap option_fmap option_map] in Hcell. injection Hcell as <-.
    apply spans_of_lookup in Hrow as (-> & Hy0 & Hy1).
    apply spans_of_lookup in Hcol as (-> & Hx0 & Hx1).
    cbn [row col content cell_bbox x0 y0 x1 y1].
    unfold spans_boundaries.
    cbv beta iota delta [row_boundaries col_boundaries cell_bbox x0 y0 x1 y1].
    repeat split; try assumption; reflexivity.
Qed.

Lemma build_cell_grid_lattice h_lines v_lines tolerance g :
  (0 ≤ tolerance)%Z →
  build_cell_grid_from_lines h_lines v_lines tolerance = Some g →
  StronglySorted Z.lt (row_boundaries g)
  ∧ StronglySorted Z.lt (col_boundaries g)
  ∧ length (row_boundaries g) = S (num_rows g)
  ∧ length (col_boundaries g) = S (num_cols g)
  ∧ (1 ≤ num_rows g)%nat ∧ (1 ≤ num_cols g)%nat
  ∧ length (cells g) = num_rows g
  ∧ Forall (λ cell_row, length cell_row = num_cols g) (cells g)
  ∧ ∀ r c cell, cell_at (cells g) r c = Some cell →
      row cell = r ∧ col cell = c ∧ content cell = None
      ∧ spans_boundaries g r c cell
      ∧ (x0 (cell_bbox cell) < x1 (cell_bbox cell))%Z
      ∧ (y0 (cell_bbox cell) < y1 (cell_bbox cell))%Z.
Proof.
  intros Htol Hg.
  destruct (build_cell_grid_shape _ _ _ _ Hg)
    as (Hrb & Hcb & Hlr & Hlc & Hnr & Hnc & Hcells & Hrows & Hcell).
  assert (StronglySorted Z.lt (row_boundaries g)) as Hsr
    by (rewrite Hrb; apply int_cluster_positions_sorted, Htol).
  assert (StronglySorted Z.lt (col_boundaries g)) as Hsc
    by (rewrite Hcb; apply int_cluster_positions_sorted, Htol).
  repeat (split; [assumption|]).
  intros r c cell Hc.
  destruct (Hcell r c cell Hc) as (? & ? & ? & Hb).
  repeat (split; [assumption|]).
  destruct Hb as (Hx0 & Hx1 & Hy0 & Hy1). split.
  - apply (StronglySorted_lookup_lt Z.lt (col_boundaries g) c (S c));
      [exact Hsc|lia| |]; assumption.
  - apply (StronglySorted_lookup_lt Z.lt (row_boundaries g) r (S r));
      [exact Hsr|lia| |]; assumption.
Qed.

(** X16: for a tolerance that is not negative, a grid returned by
    [build_cell_grid_from_lines] is a lattice: its row and column boundaries
    are strictly ascending, there is at least one row and one column, the
    cell array has [num_rows] rows of [num_cols] cells, and the cell at
    (r, c) carries these indices, no content yet, and the box between the
    boundaries r, r+1 and c, c+1 - so neighbouring cells share their edge
    and no cell is degenerate. *)
Theorem build_cell_grid_from_lines_is_a_lattice (h_lines : list HLine)
    (v_lines : list VLine) (tolerance : Z) (g : CellGrid) :
  (0 ≤ tolerance)%Z →
  build_cell_grid_from_lines h_lines v_lines tolerance = Some g →
  StronglySorted Z.lt (row_boundaries g)
  ∧ StronglySorted Z.lt (col_boundaries g)
  ∧ length (row_boundaries g) = S (num_rows g)
  ∧ length (col_boundaries g) = S (num_cols g)
  ∧ (1 ≤ num_rows g)%nat ∧ (1 ≤ num_cols g)%nat
  ∧ length (cells g) = num_rows g
  ∧ Forall (λ cell_row, length cell_row = num_cols g) (cells g)
  ∧ ∀ r c cell, cell_at (cells g) r c = Some cell →
      row cell = r ∧ col cell = c ∧ content cell = None
      ∧ spans_boundaries g r c cell
      ∧ (x0 (cell_bbox cell) < x1 (cell_bbox cell))%Z
      ∧ (y0 (cell_bbox cell) < y1 (cell_bbox cell))%Z.
Proof. apply build_cell_grid_lattice. Qed.

End Lattice.

Lemma build_cell_grid_witness :
  ∃ g, (0 ≤ 10)%Z
       ∧ build_cell_grid_from_lines lattice_h lattice_v 10 = Some g
       ∧ (num_rows g, num_cols g) = (2, 2)%nat
       ∧ StronglySorted Z.lt (row_boundaries g)
       ∧ Forall (λ cell_row, length cell_row = num_cols g) (cells g).
Proof.
  destruct (build_cell_grid_from_lines lattice_h lattice_v 10) as [g|] eqn:Hg;
    [|vm_compute in Hg; discriminate].
  exists g. split; [discriminate|]. split; [reflexivity|].
  destruct (build_cell_grid_from_lines_is_a_lattice lattice_h lattice_v 10 g
              ltac:(discriminate) Hg)
    as (Hrows & _ & _ & _ & _ & _ & _ & Hcells & _).
  split; [|split; [exact Hrows|exact Hcells]].
  vm_compute in Hg. injection Hg as <-. reflexivity.
Defined.

Section Assign.

Variable scale_factor : Q.

Lemma block_in_cell_frame b cell cell' :
  cell_bbox cell' = cell_bbox cell →
  block_in_cell scale_factor b cell' = block_in_cell scale_factor b cell.
Proof. intros E. unfold block_in_cell. rewrite E. reflexivity. Qed.

Lemma append_content_holds b cell :
  block_in_cell scale_factor b cell = true →
  holds_its_blocks scale_factor cell →
  holds_its_blocks scale_factor (append_content b cell).
Proof.
  intros Hin (blocks & Hc & Hall). exists (blocks ++ [b]).
  unfold append_content. cbn [content]. rewrite Hc. cbn [default].
  split; [reflexivity|]. apply Forall_app. split; [|repeat constructor].
  - eapply Forall_impl; [exact Hall|]. intros b' Hb'.
    rewrite <- Hb'. apply block_in_cell_frame. reflexivity.
  - rewrite <- Hin. apply block_in_cell_frame. reflexivity.
Qed.

Lemma assign_in_row_spec b cell_row cell_row' :
  assign_in_row scale_factor b cell_row = Some cell_row' →
  map cell_frame cell_row' = map cell_frame cell_row
  ∧ (Forall (holds_its_blocks scale_factor) cell_row →
     Forall (holds_its_blocks scale_factor) cell_row')
  ∧ placed_in_row cell_row' ≡ₚ b :: placed_in_row cell_row.
Proof.
  revert cell_row'. induction cell_row as [|cell rest IH]; intros cell_row';
    cbn [assign_in_row]; [discriminate|].
  destruct (block_in_cell scale_factor b cell) eqn:Hin.
  - intros [= <-]. split; [reflexivity|]. split.
    + intros Hall. apply Forall_cons in Hall as [Hcell Hrest].
      constructor; [apply append_content_holds; assumption|exact Hrest].
    + unfold placed_in_row. cbn [map concat append_content content default].
      unfold Datatypes.id. rewrite <- app_assoc. cbn [app].
      rewrite <- Permutation_middle. reflexivity.
  - destruct (assign_in_row scale_factor b rest) as [rest'|]; [|discriminate].
    intros [= <-]. destruct (IH rest' eq_refl) as (Hframe & Hholds & Hplaced).
    split; [cbn [map]; rewrite Hframe; reflexivity|]. split.
    + intros Hall. apply Forall_cons in Hall as [Hcell Hrest].
      constructor; [exact Hcell|apply Hholds, Hrest].
    + unfold placed_in_row in *. cbn [map concat].
      rewrite Hplaced. rewrite <- Permutation_middle. reflexivity.
Qed.

Lemma assign_block_spec b cells :
  map (map cell_frame) (assign_block scale_factor b cells)
  = map (map cell_frame) cells
  ∧ (Forall (Forall (holds_its_blocks scale_factor)) cells →
     Forall (Forall (holds_its_blocks scale_factor))
       (assign_block scale_factor b cells))
  ∧ placed (assign_block scale_factor b cells) ⊆+ b :: placed cells.
Proof.
  induction cells as [|cell_row rest IH]; cbn [assign_block].
  - split; [reflexivity|]. split; [intros _; constructor|].
    apply submseteq_nil_l.
  - destruct (assign_in_row scale_factor b cell_row) as [cell_row'|] eqn:Hrow.
    + apply assign_in_row_spec in Hrow as (Hframe & Hholds & Hplaced).
      split; [cbn [map]; rewrite Hframe; reflexivity|]. split.
      * intros Hall. apply Forall_cons in Hall as [Hr Hrest].
        constructor; [apply Hholds, Hr|exact Hrest].
      * unfold placed. cbn [map concat]. rewrite Hplaced. reflexivity.
    + destruct IH as (Hframe & Hholds & Hplaced).
      split; [cbn [map]; rewrite Hframe; reflexivity|]. split.
      * intros Hall. apply Forall_cons in Hall as [Hr Hrest].
        constructor; [exact Hr|apply Hholds, Hrest].
      * unfold placed in *. cbn [map concat].
        transitivity (placed_in_row cell_row
                      ++ b :: concat (map placed_in_row rest));
          [apply submseteq_app; [reflexivity|exact Hplaced]|].
        rewrite <- Permutation_middle. reflexivity.
Qed.

Lemma assign_blocks_spec bs cells :
  let cells' :=
    fold_left (λ cells block, assign_block scale_factor block cells) bs cells in
  map (map cell_frame) cells' = map (map cell_frame) cells
  ∧ (Forall (Forall (holds_its_blocks scale_factor)) cells →
     Forall (Forall (holds_its_blocks scale_factor)) cells')
  ∧ placed cells' ⊆+ bs ++ placed cells.
Proof.
  cbn zeta. revert cells. induction bs as [|b bs IH]; intros cells;
    cbn [fold_left].
  - split; [reflexivity|]. split; [tauto|reflexivity].
  - destruct (IH (assign_block scale_factor b cells)) as (Hf & Hh & Hp).
    destruct (assign_block_spec b cells) as (Hf' & Hh' & Hp').
    split; [rewrite Hf; exact Hf'|]. split; [intros Hall; apply Hh, Hh', Hall|].
    etransitivity; [exact Hp|].
    transitivity (bs ++ b :: placed cells);
      [apply submseteq_app; [reflexivity|exact Hp']|].
    rewrite <- Permutation_middle. reflexivity.
Qed.

Lemma assign_text_to_cells_spec g b bs :
  ∃ g',
    assign_text_to_cells (Some g) (b :: bs) scale_factor = Some g'
    ∧ (row_boundaries g', col_boundaries g', num_rows g', num_cols g')
      = (row_boundaries g, col_boundaries g, num_rows g, num_cols g)
    ∧ map (map cell_frame) (cells g') = map (map cell_frame) (cells g)
    ∧ Forall (Forall (holds_its_blocks scale_factor)) (cells g')
    ∧ placed (cells g') ⊆+ b :: bs.
Proof.
  destruct g as [rb cb nr nc cs].
  set (init := map (map (λ cell, {| row := row cell; col := col cell;
                                    cell_bbox := cell_bbox cell;
                                    content := Some [] |})) cs).
  exists {| row_boundaries := rb; col_boundaries := cb; num_rows := nr;
            num_cols := nc;
            cells := fold_left (λ cells block,
                                  assign_block scale_factor block cells)
                       (b :: bs) init |}.
  split; [reflexivity|]. split; [reflexivity|].
  cbv beta iota delta [DetectControls.cells].
  destruct (assign_blocks_spec (b :: bs) init) as (Hf & Hh & Hp).
  cbn zeta in Hf, Hh, Hp.
  assert (map (map cell_frame) init = map (map cell_frame) cs) as Hinit.
  { subst init. rewrite map_map. apply map_ext. intros cell_row.
    rewrite map_map. reflexivity. }
  assert (Forall (Forall (holds_its_blocks scale_factor)) init) as Hinit'.
  { subst init. apply Forall_map, Forall_forall. intros cell_row _.
    apply Forall_map, Forall_forall. intros cell _.
    exists []. split; [reflexivity|constructor]. }
  assert (placed init = []) as Hinit''.
  { subst init. unfold placed, placed_in_row. clear.
    induction cs as [|cell_row rest IH]; [reflexivity|].
    cbn [map concat]. rewrite IH, app_nil_r.
    induction cell_row as [|cell cell_row IH']; [reflexivity|].
    cbn [map concat content default app]. exact IH'. }
  split; [rewrite Hf; exact Hinit|]. split; [apply Hh, Hinit'|].
  rewrite Hinit'', app_nil_r in Hp. exact Hp.
Qed.

(** X17: given at least one text block, [assign_text_to_cells] returns a
    grid with the same boundaries and the same cells (indices and boxes) in
    which every cell has a content list; a block is put in a cell only if its
    scaled centre lies in the cell's box, and each block is put in at most
    one cell.  Without a grid it returns none, and without blocks it returns
    the grid as it is. *)
Theorem assign_text_to_cells_places_each_block_once :
  (∀ bs, assign_text_to_cells None bs scale_factor = None)
  ∧ (∀ g, assign_text_to_cells g [] scale_factor = g)
  ∧ ∀ g b bs,
      ∃ g',
        assign_text_to_cells (Some g) (b :: bs) scale_factor = Some g'
        ∧ (row_boundaries g', col_boundaries g', num_rows g', num_cols g')
          = (row_boundaries g, col_boundaries g, num_rows g, num_cols g)
        ∧ map (map cell_frame) (cells g') = map (map cell_frame) (cells g)
        ∧ Forall (Forall (holds_its_blocks scale_factor)) (cells g')
        ∧ placed (cells g') ⊆+ b :: bs.
Proof.
  split; [reflexivity|]. split; [intros [g|]; reflexivity|].
  apply assign_text_to_cells_spec.
Qed.

End Assign.

(** ** Spans (detect_controls.py) *)

Lemma covered_spec s r c :
  (r, c) ∈ covered s ↔
  (s_row s ≤ r < s_row s + rowspan s)%nat
  ∧ (s_col s ≤ c < s_col s + colspan s)%nat.
Proof.
  unfold covered. rewrite list_elem_of_In, in_concat. split.
  - intros (l & Hl & Hin). apply in_map_iff in Hl as (r' & <- & Hr').
    apply in_map_iff in Hin as (c' & [= <- <-] & Hc').
    apply in_seq in Hr', Hc'. lia.
  - intros [Hr Hc]. exists (map (λ c, (r, c)) (seq (s_col s) (colspan s))).
    split.
    + apply in_map_iff. exists r. split; [reflexivity|]. apply in_seq. lia.
    + apply in_map_iff. exists c. split; [reflexivity|]. apply in_seq. lia.
Qed.

Section Spans.

Variables (cells : list (list Cell)) (num_rows num_cols : nat).
Hypothesis cells_rows : length cells = num_rows.
Hypothesis cells_cols : Forall (λ cell_row, length cell_row = num_cols) cells.
Hypothesis cells_content :
  Forall (Forall (λ cell, is_Some (content cell))) cells.

Lemma get_cell_ok r c :
  (r < num_rows)%nat → (c < num_cols)%nat →
  ∃ cell blocks,
    get_cell cells r c = Ok cell
    ∧ cell_at cells r c = Some cell
    ∧ content cell = Some blocks.
Proof using cells_rows cells_cols cells_content.
  intros Hr Hc. unfold get_cell, cell_at.
  rewrite <- cells_rows in Hr.
  destruct (lookup_lt_is_Some_2 cells r Hr) as [cell_row Hrow]. rewrite Hrow.
  pose proof (list_elem_of_lookup_2 _ _ _ Hrow) as Hin.
  rewrite Forall_forall in cells_cols, cells_content.
  rewrite <- (cells_cols _ Hin) in Hc.
  destruct (lookup_lt_is_Some_2 cell_row c Hc) as [cell Hcell].
  cbn [mbind option_bind]. rewrite Hcell.
  pose proof (list_elem_of_lookup_2 _ _ _ Hcell) as Hin'.
  pose proof (cells_content _ Hin) as Hcontent.
  rewrite Forall_forall in Hcontent.
  destruct (Hcontent _ Hin') as [blocks Hblocks].
  exists cell, blocks. repeat split; assumption.
Qed.

Lemma extend_span_ok cand span :
  Forall (λ p, (fst p < num_rows)%nat ∧ (snd p < num_cols)%nat) cand →
  ∃ n, extend_span cells cand span = Ok n
       ∧ (span ≤ n ≤ span + length cand)%nat.
Proof using cells_rows cells_cols cells_content.
  intros Hcand. revert span.
  induction Hcand as [|[r c] cand [Hr Hc] _ IH]; intros span;
    cbn [extend_span length].
  - exists span. split; [reflexivity|lia].
  - cbn [fst snd] in Hr, Hc.
    destruct (get_cell_ok r c Hr Hc) as (cell & blocks & -> & _ & Hblocks).
    cbn [mbind result_bind]. unfold get_content. rewrite Hblocks.
    destruct blocks as [|b blocks].
    + destruct (IH (S span)) as (n & -> & Hn). exists n.
      split; [reflexivity|lia].
    + exists span. split; [reflexivity|lia].
Qed.

Lemma flag_alter consumed r c r' c' :
  flag (alter (λ flags, <[c := true]> flags) r consumed) r' c' = Some true →
  flag consumed r' c' = Some true ∨ (r' = r ∧ c' = c).
Proof.
  unfold flag. destruct (decide (r' = r)) as [->|Hr].
  - rewrite list_lookup_alter_eq.
    destruct (consumed !! r) as [flags|]; [|discriminate].
    cbn [fmap option_fmap option_map mbind option_bind].
    destruct (decide (c' = c)) as [->|Hc]; [right; split; reflexivity|].
    rewrite list_lookup_insert_ne by congruence. left. assumption.
  - rewrite list_lookup_alter_ne by congruence. left. assumption.
Qed.

Lemma alter_shape (consumed : list (list bool)) r c :
  length (alter (λ flags, <[c := true]> flags) r consumed) = length consumed
  ∧ (Forall (λ flags, length flags = num_cols) consumed →
     Forall (λ flags, length flags = num_cols)
       (alter (λ flags, <[c := true]> flags) r consumed)).
Proof.
  split; [apply length_alter|]. intros Hall.
  apply Forall_alter; [exact Hall|].
  intros flags _ Hlen. rewrite length_insert. exact Hlen.
Qed.

Lemma mark_consumed_spec consumed row_idx col_idx rowspan colspan :
  let consumed' := mark_consumed consumed row_idx col_idx rowspan colspan in
  length consumed' = length consumed
  ∧ (Forall (λ flags, length flags = num_cols) consumed →
     Forall (λ flags, length flags = num_cols) consumed')
  ∧ ∀ r c, flag consumed' r c = Some true →
           flag consumed r c = Some true
           ∨ ((row_idx ≤ r < row_idx + rowspan)%nat
              ∧ (col_idx ≤ c < col_idx + colspan)%nat).
Proof.
  clear cells_rows cells_cols cells_content.
  cbn zeta. unfold mark_consumed.
  assert (∀ r0 cs consumed,
            let consumed' :=
              fold_left (λ consumed c,
                           alter (λ flags, <[c := true]> flags) r0 consumed)
                cs consumed in
            length consumed' = length consumed
            ∧ (Forall (λ flags, length flags = num_cols) consumed →
               Forall (λ flags, length flags = num_cols) consumed')
            ∧ ∀ r c, flag consumed' r c = Some true →
                     flag consumed r c = Some true ∨ (r = r0 ∧ c ∈ cs))
    as Hinner.
  { intros r0 cs. induction cs as [|c0 cs IH]; intros cons0; cbn [fold_left].
    - split; [reflexivity|]. split; [tauto|]. intros r c H. left. exact H.
    - destruct (IH (alter (λ flags, <[c0 := true]> flags) r0 cons0))
        as (Hlen & Hshape & Hflag).
      destruct (alter_shape cons0 r0 c0) as [Hlen' Hshape'].
      split; [rewrite Hlen; exact Hlen'|].
      split; [intros Hall; apply Hshape, Hshape', Hall|].
      intros r c H. destruct (Hflag r c H) as [H'|[-> Hc]].
      + destruct (flag_alter _ _ _ _ _ H') as [?|[-> ->]];
          [left; assumption|right; split; [reflexivity|left]].
      + right. split; [reflexivity|right; exact Hc]. }
  assert (∀ rs consumed,
            let consumed' :=
              fold_left (λ consumed r,
                           fold_left (λ consumed c,
                                        alter (λ flags, <[c := true]> flags)
                                          r consumed)
                             (seq col_idx colspan) consumed)
                rs consumed in
            length consumed' = length consumed
            ∧ (Forall (λ flags, length flags = num_cols) consumed →
               Forall (λ flags, length flags = num_cols) consumed')
            ∧ ∀ r c, flag consumed' r c = Some true →
                     flag consumed r c = Some true
                     ∨ (r ∈ rs ∧ c ∈ seq col_idx colspan))
    as Houter.
  { induction rs as [|r0 rs IH]; intros cons0; cbn [fold_left].
    - split; [reflexivity|]. split; [tauto|]. intros r c H. left. exact H.
    - destruct (IH (fold_left (λ consumed c,
                                 alter (λ flags, <[c := true]> flags) r0
                                   consumed)
                      (seq col_idx colspan) cons0))
        as (Hlen & Hshape & Hflag).
      destruct (Hinner r0 (seq col_idx colspan) cons0)
        as (Hlen' & Hshape' & Hflag').
      split; [rewrite Hlen; exact Hlen'|].
      split; [intros Hall; apply Hshape, Hshape', Hall|].
      intros r c H. destruct (Hflag r c H) as [H'|[Hr Hc]].
      + destruct (Hflag' r c H') as [?|[-> Hc]];
          [left; assumption|right; split; [left|exact Hc]].
      + right. split; [right; exact Hr|exact Hc]. }
  destruct (Houter (seq row_idx rowspan) consumed) as (Hlen & Hshape & Hflag).
  split; [exact Hlen|]. split; [exact Hshape|].
  intros r c H. destruct (Hflag r c H) as [?|[Hr Hc]]; [left; assumption|].
  right. apply elem_of_seq in Hr, Hc. lia.
Qed.

Lemma flag_in_range consumed r c :
  length consumed = num_rows →
  Forall (λ flags, length flags = num_cols) consumed →
  (r < num_rows)%nat → (c < num_cols)%nat →
  ∃ b, flag consumed r c = Some b.
Proof.
  intros Hlen Hshape Hr Hc. unfold flag. rewrite <- Hlen in Hr.
  destruct (lookup_lt_is_Some_2 consumed r Hr) as [flags Hflags].
  rewrite Hflags. cbn [mbind option_bind].
  rewrite Forall_forall in Hshape.
  rewrite <- (Hshape flags (list_elem_of_lookup_2 _ _ _ Hflags)) in Hc.
  apply lookup_lt_is_Some_2, Hc.
Qed.

(** One step of the double loop: it does not raise, keeps the state in
    order, leaves the visited cell covered, and adds at most one span, which
    starts at the visited cell. *)
Lemma detect_span_at_ok st r c :
  spans_state_ok cells num_rows num_cols st →
  (r < num_rows)%nat → (c < num_cols)%nat →
  ∃ st',
    detect_span_at cells num_rows num_cols st (r, c) = Ok st'
    ∧ spans_state_ok cells num_rows num_cols st'
    ∧ Exists (λ s, (r, c) ∈ covered s) (snd st')
    ∧ (snd st' = snd st
       ∨ ∃ s, snd st' = snd st ++ [s] ∧ span_start s = (r, c)).
Proof using cells_rows cells_cols cells_content.
  intros (Hlen & Hshape & Hflags & Hspans) Hr Hc.
  destruct st as [consumed spans]. cbn [fst snd] in *.
  unfold detect_span_at.
  destruct (flag_in_range consumed r c Hlen Hshape Hr Hc) as [b Hb].
  unfold flag in Hb. rewrite Hb. destruct b.
  - exists (consumed, spans). split; [reflexivity|].
    split; [repeat split; assumption|]. cbn [fst snd].
    split; [apply Hflags, Hb|left; reflexivity].
  - destruct (get_cell_ok r c Hr Hc) as (cell & blocks & -> & Hcell & Hblocks).
    cbn [mbind result_bind]. unfold get_content. rewrite Hblocks.
    cbn [mbind result_bind].
    assert (∃ rowspan,
              match blocks with
              | [] => Ok 1%nat
              | _ => extend_span cells
                       (map (λ r0, (r0, c)) (seq (S r) (num_rows - S r))) 1
              end = Ok rowspan
              ∧ (1 ≤ rowspan)%nat ∧ (r + rowspan ≤ num_rows)%nat)
      as (rowspan & -> & Hrs1 & Hrs2).
    { destruct blocks as [|b0 blocks]; [exists 1%nat; repeat split; lia|].
      destruct (extend_span_ok
                  (map (λ r0, (r0, c)) (seq (S r) (num_rows - S r))) 1)
        as (n & -> & Hn).
      - apply Forall_map, Forall_forall. intros r0 Hr0.
        apply elem_of_seq in Hr0. cbn [fst snd]. lia.
      - rewrite length_map, length_seq in Hn.
        exists n. repeat split; lia. }
    cbn [mbind result_bind].
    assert (∃ colspan,
              match blocks with
              | [] => Ok 1%nat
              | _ => extend_span cells
                       (map (λ c0, (r, c0)) (seq (S c) (num_cols - S c))) 1
              end = Ok colspan
              ∧ (1 ≤ colspan)%nat ∧ (c + colspan ≤ num_cols)%nat)
      as (colspan & -> & Hcs1 & Hcs2).
    { destruct blocks as [|b0 blocks]; [exists 1%nat; repeat split; lia|].
      destruct (extend_span_ok
                  (map (λ c0, (r, c0)) (seq (S c) (num_cols - S c))) 1)
        as (n & -> & Hn).
      - apply Forall_map, Forall_forall. intros c0 Hc0.
        apply elem_of_seq in Hc0. cbn [fst snd]. lia.
      - rewrite length_map, length_seq in Hn.
        exists n. repeat split; lia. }
    cbn [mbind result_bind].
    set (s := {| s_row := r; s_col := c; rowspan := rowspan;
                 colspan := colspan; s_content := blocks;
                 s_bbox := cell_bbox cell;
                 is_empty := (length blocks =? 0)%nat |}).
    destruct (mark_consumed_spec consumed r c rowspan colspan)
      as (Hlen' & Hshape' & Hflags').
    cbn zeta in Hlen', Hshape', Hflags'.
    assert ((r, c) ∈ covered s) as Hcov
      by (apply covered_spec; cbn [s s_row s_col DetectControls.rowspan
                                     DetectControls.colspan]; lia).
    eexists. split; [reflexivity|]. cbn [fst snd]. split; [|split].
    + repeat split; cbn [fst snd].
      * rewrite Hlen'. exact Hlen.
      * apply Hshape', Hshape.
      * intros r' c' H'. apply Exists_app.
        destruct (Hflags' r' c' H') as [Hold|Hnew].
        -- left. apply Hflags, Hold.
        -- right. constructor. apply covered_spec.
           cbn [s s_row s_col DetectControls.rowspan DetectControls.colspan].
           exact Hnew.
      * apply Forall_app. split; [exact Hspans|]. constructor; [|constructor].
        unfold span_in_grid.
        cbn [s s_row s_col DetectControls.rowspan DetectControls.colspan
               s_content s_bbox is_empty].
        repeat split; try assumption.
        exists cell. repeat split; assumption.
    + apply Exists_app. right. constructor. exact Hcov.
    + right. exists s. split; reflexivity.
Qed.

Lemma detect_spans_loop_ok positions st :
  spans_state_ok cells num_rows num_cols st →
  Forall (λ p, (fst p < num_rows)%nat ∧ (snd p < num_cols)%nat) positions →
  ∃ st' new,
    foldM (detect_span_at cells num_rows num_cols) positions st = Ok st'
    ∧ spans_state_ok cells num_rows num_cols st'
    ∧ snd st' = snd st ++ new
    ∧ map span_start new `sublist_of` positions
    ∧ Forall (λ p, Exists (λ s, p ∈ covered s) (snd st')) positions.
Proof using cells_rows cells_cols cells_content.
  intros Hst Hpos. revert st Hst.
  induction Hpos as [|[r c] positions [Hr Hc] _ IH]; intros st Hst;
    cbn [foldM].
  - exists st, []. rewrite app_nil_r.
    split; [reflexivity|]. split; [exact Hst|]. split; [reflexivity|].
    split; constructor.
  - cbn [fst snd] in Hr, Hc.
    destruct (detect_span_at_ok st r c Hst Hr Hc)
      as (st1 & -> & Hst1 & Hcov & Hnew).
    cbn [mbind result_bind].
    destruct (IH st1 Hst1) as (st' & new & -> & Hst' & Hspans & Hsub & Hall).
    assert (Exists (λ s, (r, c) ∈ covered s) (snd st')) as Hcov'
      by (rewrite Hspans; apply Exists_app; left; exact Hcov).
    destruct Hnew as [Heq|(s & Heq & Hs)].
    + exists st', new.
      split; [reflexivity|]. split; [exact Hst'|].
      split; [rewrite <- Heq; exact Hspans|].
      split; [apply sublist_cons, Hsub|constructor; assumption].
    + exists st', (s :: new).
      split; [reflexivity|]. split; [exact Hst'|].
      split; [rewrite Hspans, Heq, <- app_assoc; reflexivity|].
      split; [|constructor; assumption].
      cbn [map]. rewrite Hs. apply sublist_skip, Hsub.
Qed.

End Spans.

Lemma row_major_in_range num_rows num_cols :
  Forall (λ p, (fst p < num_rows)%nat ∧ (snd p < num_cols)%nat)
    (row_major num_rows num_cols).
Proof.
  apply Forall_forall. intros [r c] Hp. unfold row_major in Hp.
  rewrite list_elem_of_In, in_concat in Hp. destruct Hp as (l & Hl & Hin).
  apply in_map_iff in Hl as (r' & <- & Hr').
  apply in_map_iff in Hin as (c' & [= <- <-] & Hc').
  apply in_seq in Hr', Hc'. cbn [fst snd]. lia.
Qed.

Lemma row_major_elem num_rows num_cols r c :
  (r < num_rows)%nat → (c < num_cols)%nat → (r, c) ∈ row_major num_rows num_cols.
Proof.
  intros Hr Hc. unfold row_major. rewrite list_elem_of_In, in_concat.
  exists (map (λ c, (r, c)) (seq 0 num_cols)). split.
  - apply in_map_iff. exists r. split; [reflexivity|]. apply in_seq. lia.
  - apply in_map_iff. exists c. split; [reflexivity|]. apply in_seq. lia.
Qed.

Lemma detect_spans_ok (g : CellGrid) :
  Forall (λ cell_row, length cell_row = grid_width (cells g)) (cells g) →
  Forall (Forall (λ cell, is_Some (content cell))) (cells g) →
  ∃ spans,
    detect_spans (Some g) = Ok spans
    ∧ Forall (span_in_grid (cells g) (length (cells g)) (grid_width (cells g)))
        spans
    ∧ map span_start spans
      `sublist_of` row_major (length (cells g)) (grid_width (cells g))
    ∧ ∀ r c, (r < length (cells g))%nat → (c < grid_width (cells g))%nat →
             Exists (λ s, (r, c) ∈ covered s) spans.
Proof.
  intros Hcols Hcontent. unfold detect_spans. cbv zeta.
  fold (grid_width (cells g)).
  fold (row_major (length (cells g)) (grid_width (cells g))).
  set (num_rows := length (cells g)). set (num_cols := grid_width (cells g)).
  assert (spans_state_ok (cells g) num_rows num_cols
            (replicate num_rows (replicate num_cols false), [])) as Hinit.
  { split; [apply length_replicate|]. split; [|split; [|constructor]].
    - apply Forall_forall. intros flags Hin.
      apply elem_of_replicate in Hin as [-> _]. apply length_replicate.
    - intros r c Hflag. unfold flag in Hflag. cbn [fst] in Hflag.
      destruct (replicate num_rows (replicate num_cols false) !! r)
        as [flags|] eqn:Hr; [|discriminate].
      apply lookup_replicate in Hr as [-> _].
      cbn [mbind option_bind] in Hflag.
      apply lookup_replicate in Hflag as [? _]. discriminate. }
  destruct (detect_spans_loop_ok (cells g) num_rows num_cols eq_refl Hcols
              Hcontent (row_major num_rows num_cols) _ Hinit
              (row_major_in_range num_rows num_cols))
    as (st' & new & -> & (_ & _ & _ & Hspans) & Hnew & Hsub & Hall).
  cbn [snd app] in Hnew. subst new.
  exists (snd st'). split; [reflexivity|]. split; [exact Hspans|].
  split; [exact Hsub|].
  intros r c Hr Hc. rewrite Forall_forall in Hall.
  apply (Hall (r, c)), row_major_elem; assumption.
Qed.

(** X18: on a grid whose rows all have the length of the first and whose
    cells all have content, [detect_spans] does not raise; every span starts
    at a cell of the grid, carries that cell's content and box, has a rowspan
    and a colspan of at least 1 and stays inside the grid; the spans are
    listed in row-major order of their start cells, at most one per cell; and
    every cell of the grid is covered by at least one span. *)
Theorem detect_spans_covers_every_cell (g : CellGrid) :
  Forall (λ cell_row, length cell_row = grid_width (cells g)) (cells g) →
  Forall (Forall (λ cell, is_Some (content cell))) (cells g) →
  ∃ spans,
    detect_spans (Some g) = Ok spans
    ∧ Forall (span_in_grid (cells g) (length (cells g)) (grid_width (cells g)))
        spans
    ∧ map span_start spans
      `sublist_of` row_major (length (cells g)) (grid_width (cells g))
    ∧ ∀ r c, (r < length (cells g))%nat → (c < grid_width (cells g))%nat →
             Exists (λ s, (r, c) ∈ covered s) spans.
Proof. apply detect_spans_ok. Qed.

Lemma detect_spans_covers_witness :
  ∃ g spans,
    crossing_grid = Some g
    ∧ Forall (λ cell_row, length cell_row = grid_width (cells g)) (cells g)
    ∧ Forall (Forall (λ cell, is_Some (content cell))) (cells g)
    ∧ detect_spans (Some g) = Ok spans
    ∧ length spans = 3%nat
    ∧ ∀ r c, (r < length (cells g))%nat → (c < grid_width (cells g))%nat →
             Exists (λ s, (r, c) ∈ covered s) spans.
Proof.
  destruct crossing_grid as [g|] eqn:Hg; [|vm_compute in Hg; discriminate].
  assert (Forall (λ cell_row, length cell_row = grid_width (cells g)) (cells g))
    as Hcols.
  { vm_compute in Hg. injection Hg as <-. repeat constructor. }
  assert (Forall (Forall (λ cell, is_Some (content cell))) (cells g))
    as Hcontent.
  { vm_compute in Hg. injection Hg as <-.
    repeat (constructor; try (eexists; reflexivity)). }
  destruct (detect_spans_covers_every_cell g Hcols Hcontent)
    as (spans & Hspans & _ & _ & Hcover).
  exists g, spans. split; [reflexivity|]. split; [exact Hcols|].
  split; [exact Hcontent|]. split; [exact Hspans|]. split; [|exact Hcover].
  vm_compute in Hg. injection Hg as <-. vm_compute in Hspans.
  injection Hspans as <-. reflexivity.
Defined.

Lemma frames_shape (cells' cells : list (list Cell)) num_cols :
  map (map cell_frame) cells' = map (map cell_frame) cells →
  length cells' = length cells
  ∧ (Forall (λ cell_row, length cell_row = num_cols) cells →
     Forall (λ cell_row, length cell_row = num_cols) cells').
Proof.
  revert cells. induction cells' as [|r' cells' IH]; intros [|r cells] Heq;
    try discriminate.
  - split; [reflexivity|constructor].
  - cbn [map] in Heq. injection Heq as Hr Hrest.
    destruct (IH cells Hrest) as [Hlen Hshape].
    split; [cbn [length]; rewrite Hlen; reflexivity|].
    intros Hall. apply Forall_cons in Hall as [Hlr Hall].
    constructor; [|apply Hshape, Hall].
    rewrite <- Hlr, <- (length_map cell_frame r'), Hr. apply length_map.
Qed.

(** X19: spans of a grid built from lines and filled with at least one text
    block: [detect_spans] after [assign_text_to_cells] after
    [build_cell_grid_from_lines] does not raise, every span stays inside the
    [num_rows] x [num_cols] grid, and every cell of the grid is covered by a
    span. *)
Theorem spans_of_a_filled_grid_cover_it (h_lines : list HLine)
    (v_lines : list VLine) (tolerance : Z) (g : CellGrid) (b : Block)
    (bs : list Block) (scale_factor : Q) :
  build_cell_grid_from_lines h_lines v_lines tolerance = Some g →
  ∃ spans,
    detect_spans (assign_text_to_cells (Some g) (b :: bs) scale_factor)
    = Ok spans
    ∧ Forall (λ s, (1 ≤ rowspan s)%nat ∧ (1 ≤ colspan s)%nat
                   ∧ (s_row s + rowspan s ≤ num_rows g)%nat
                   ∧ (s_col s + colspan s ≤ num_cols g)%nat) spans
    ∧ (length spans ≤ num_rows g * num_cols g)%nat
    ∧ ∀ r c, (r < num_rows g)%nat → (c < num_cols g)%nat →
             Exists (λ s, (r, c) ∈ covered s) spans.
Proof.
  intros Hg.
  destruct (build_cell_grid_shape _ _ _ _ Hg)
    as (_ & _ & _ & _ & Hnr & Hnc & Hcells & Hrows & _).
  destruct (assign_text_to_cells_spec scale_factor g b bs)
    as (g' & -> & _ & Hframes & Hholds & _).
  destruct (frames_shape _ _ (num_cols g) Hframes) as [Hlen Hshape].
  specialize (Hshape Hrows). rewrite Hcells in Hlen.
  assert (grid_width (cells g') = num_cols g) as Hwidth.
  { destruct (cells g') as [|r0 rest]; [cbn [length] in Hlen; lia|].
    apply Forall_cons in Hshape as [? _]. assumption. }
  destruct (detect_spans_ok g') as (spans & -> & Hspans & Hsub & Hcover).
  - rewrite Hwidth. exact Hshape.
  - eapply Forall_impl; [exact Hholds|]. intros cell_row Hrow.
    eapply Forall_impl; [exact Hrow|]. intros cell (blocks & -> & _).
    eexists. reflexivity.
  - rewrite Hwidth, Hlen in *.
    exists spans. split; [reflexivity|]. split; [|split; [|exact Hcover]].
    + eapply Forall_impl; [exact Hspans|].
      intros s (? & ? & ? & ? & _). repeat split; assumption.
    + apply sublist_length in Hsub. rewrite length_map in Hsub.
      etransitivity; [exact Hsub|]. unfold row_major. clear.
      induction (num_rows g) as [|n IH] using nat_ind; [reflexivity|].
      rewrite seq_S, map_app, concat_app, length_app. cbn [map concat].
      rewrite app_nil_r, length_map, length_seq. lia.
Qed.

Lemma spans_of_a_filled_grid_witness :
  ∃ g spans,
    build_cell_grid_from_lines lattice_h lattice_v 10 = Some g
    ∧ detect_spans (assign_text_to_cells (Some g) [top_right; bottom_left] 1)
      = Ok spans
    ∧ (length spans ≤ num_rows g * num_cols g)%nat
    ∧ ∀ r c, (r < num_rows g)%nat → (c < num_cols g)%nat →
             Exists (λ s, (r, c) ∈ covered s) spans.
Proof.
  destruct (build_cell_grid_from_lines lattice_h lattice_v 10) as [g|] eqn:Hg;
    [|vm_compute in Hg; discriminate].
  destruct (spans_of_a_filled_grid_cover_it lattice_h lattice_v 10 g top_right
              [bottom_left] 1 Hg) as (spans & Hspans & _ & Hlen & Hcover).
  exists g, spans. repeat split; assumption.
Defined.

(** X20: a grid built from lines that received no text block has no content
    in its cells: [assign_text_to_cells] with an empty block list returns
    the grid as it is, and [detect_spans] on it raises [KeyError] at the
    first cell. *)
Theorem detect_spans_raises_on_an_unfilled_grid (h_lines : list HLine)
    (v_lines : list VLine) (tolerance : Z) (g : CellGrid) (scale_factor : Q) :
  build_cell_grid_from_lines h_lines v_lines tolerance = Some g →
  assign_text_to_cells (Some g) [] scale_factor = Some g
  ∧ detect_spans (assign_text_to_cells (Some g) [] scale_factor)
    = Raise (KeyError "content").
Proof.
  intros Hg. split; [reflexivity|].
  destruct (build_cell_grid_shape _ _ _ _ Hg)
    as (_ & _ & _ & _ & Hnr & Hnc & Hcells & Hrows & Hcell).
  cbn [assign_text_to_cells]. unfold detect_spans. cbv zeta.
  destruct (cells g) as [|[|cell cell_row] rest] eqn:Hcs.
  - cbn [length] in Hcells. lia.
  - apply Forall_cons in Hrows as [Hlen _]. cbn [length] in Hlen. lia.
  - destruct (Hcell 0%nat 0%nat cell eq_refl) as (_ & _ & Hnone & _).
    cbn [length seq map concat app replicate foldM detect_span_at].
    cbn [lookup list_lookup mbind option_bind get_cell].
    cbn [result_bind]. unfold get_content. rewrite Hnone. reflexivity.
Qed.

Lemma detect_spans_raises_witness :
  ∃ g, build_cell_grid_from_lines lattice_h lattice_v 10 = Some g
       ∧ detect_spans (assign_text_to_cells (Some g) [] 1)
         = Raise (KeyError "content").
Proof.
  destruct (build_cell_grid_from_lines lattice_h lattice_v 10) as [g|] eqn:Hg;
    [|vm_compute in Hg; discriminate].
  exists g. split; [reflexivity|].
  exact (proj2 (detect_spans_raises_on_an_unfilled_grid lattice_h lattice_v 10
                  g 1 Hg)).
Defined.

(** ** Overlap removal, again (detect_controls.py) *)

Section SortedAgain.
Context {A K : Type} (leb : K → K → bool) (key : A → K).

Lemma insert_by_last a l :
  Forall (λ b, in_order leb key b a) l → insert_by leb key a l = l ++ [a].
Proof.
  induction 1 as [|b l Hb _ IH]; [reflexivity|]. cbn [insert_by].
  unfold in_order in Hb. rewrite Hb, IH. reflexivity.
Qed.

(** Sorting a list that is in order leaves it as it is. *)
Lemma sort_by_in_order l :
  StronglySorted (in_order leb key) l → sort_by leb key l = l.
Proof.
  intros Hl. unfold sort_by.
  enough (∀ acc, StronglySorted (in_order leb key) (acc ++ l) →
            fold_left (λ acc a, insert_by leb key a acc) l acc = acc ++ l)
    as Hgen by (apply (Hgen []); exact Hl).
  clear Hl. induction l as [|a l IH]; intros acc Hacc; cbn [fold_left].
  - rewrite app_nil_r. reflexivity.
  - rewrite insert_by_last.
    + rewrite IH, <- app_assoc; [reflexivity|].
      rewrite <- app_assoc. exact Hacc.
    + apply Forall_forall. intros b Hb.
      apply (StronglySorted_app_1_elem_of _ _ _ _ _ Hacc); [exact Hb|left].
Qed.

End SortedAgain.

Lemma StronglySorted_sublist {A} (R : A → A → Prop) l1 l2 :
  l1 `sublist_of` l2 → StronglySorted R l2 → StronglySorted R l1.
Proof.
  induction 1 as [|x l1 l2 Hsub IH|x l1 l2 Hsub IH]; intros Hl2.
  - constructor.
  - apply StronglySorted_inv in Hl2 as [Hl2 Hx].
    constructor; [apply IH, Hl2|].
    rewrite Forall_forall in Hx. apply Forall_forall. intros y Hy.
    apply Hx. eapply elem_of_sublist; [exact Hy|exact Hsub].
  - apply StronglySorted_inv in Hl2 as [Hl2 _]. apply IH, Hl2.
Qed.

Section Idempotent.

Variable thr : Q.

Lemma remove_overlapping_loop_keeps_all controls keep :
  ForallOrdPairs (apart thr) (keep ++ controls) →
  remove_overlapping_loop thr controls keep = keep ++ controls.
Proof.
  revert keep. induction controls as [|c controls IH]; intros keep Hall;
    cbn [remove_overlapping_loop].
  - rewrite app_nil_r. reflexivity.
  - assert (existsb (λ kept, overlaps thr (c_bbox c) (c_bbox kept)) keep = false)
      as ->.
    { apply not_true_iff_false. intros Hex.
      apply existsb_exists in Hex as (k & Hk & Hov).
      apply list_elem_of_In, list_elem_of_lookup_1 in Hk as [i Hi].
      assert ((keep ++ c :: controls) !! i = Some k) as Hi'
        by (apply lookup_app_l_Some, Hi).
      assert ((keep ++ c :: controls) !! length keep = Some c) as Hc
        by (rewrite list_lookup_middle; reflexivity).
      pose proof (lookup_lt_Some _ _ _ Hi) as Hlt.
      pose proof (ForallOrdPairs_lookup _ _ _ _ _ _ Hall Hlt Hi' Hc) as Hap.
      unfold apart in Hap. congruence. }
    rewrite IH, <- app_assoc; [reflexivity|].
    rewrite <- app_assoc. exact Hall.
Qed.

Lemma remove_overlapping_again controls :
  remove_overlapping (remove_overlapping controls thr) thr
  = remove_overlapping controls thr.
Proof.
  unfold remove_overlapping at 2 3.
  destruct controls as [|c0 controls]; [reflexivity|].
  destruct (loop_sublist thr (sorted_reverse confidence (c0 :: controls)) [])
    as (kept & Hkept & Hsub).
  pose proof (loop_apart thr (sorted_reverse confidence (c0 :: controls)) []
                (FOP_nil _)) as Hapart.
  rewrite Hkept in *. cbn [app] in *.
  unfold remove_overlapping. destruct kept as [|k0 kept]; [reflexivity|].
  assert (sorted_reverse confidence (k0 :: kept) = k0 :: kept) as ->.
  { apply sort_by_in_order.
    eapply StronglySorted_sublist; [exact Hsub|].
    apply sort_by_sorted.
    - intros a b Hab. unfold Qgeb in *.
      apply Qle_bool_iff, Qlt_le_weak, Qnot_le_lt.
      intros Hle. apply Qle_bool_iff in Hle. congruence.
    - intros a b c. unfold Qgeb. rewrite !Qle_bool_iff.
      intros; eapply Qle_trans; eauto. }
  apply (remove_overlapping_loop_keeps_all (k0 :: kept) []). exact Hapart.
Qed.

End Idempotent.

(** X21: [remove_overlapping] is idempotent: applied to its own result with
    the same threshold it removes nothing and keeps the order. *)
Theorem remove_overlapping_is_idempotent (controls : list Control)
    (iou_threshold : Q) :
  remove_overlapping (remove_overlapping controls iou_threshold) iou_threshold
  = remove_overlapping controls iou_threshold.
Proof. apply remove_overlapping_again. Qed.
(** ** Control filter and page record, again (combined_extractor.py) *)

Lemma filter_sublist {A} (f : A → bool) l : List.filter f l `sublist_of` l.
Proof.
  induction l as [|a l IH]; [constructor|]. cbn [List.filter].
  destruct (f a); [apply sublist_skip|apply sublist_cons]; exact IH.
Qed.




Section ZeroScale.
Local Open Scope Q_scope.

Variable scale_factor : Q.
Hypothesis scale_zero : scale_factor == 0.

Lemma size_ok_zero min_size_pt c :
  size_ok scale_factor min_size_pt c = Raise ZeroDivisionError.
Proof using scale_zero.
  unfold size_ok. rewrite !fdiv_zero by exact scale_zero. reflexivity.
Qed.

Lemma zero_scale_factor_cases (c : Control) (controls : list Control)
    (blocks : list Block) (band : Band) (bands : list Band)
    (page_width min_size_pt : Q) :
  filter_valid_controls [] blocks scale_factor page_width min_size_pt = Ok []
  ∧ filter_valid_controls (c :: controls) blocks scale_factor page_width
      min_size_pt = Raise ZeroDivisionError
  ∧ compute_control_features c scale_factor = Raise ZeroDivisionError
  ∧ map_controls_to_blocks [] blocks scale_factor = Ok []
  ∧ map_controls_to_blocks (c :: controls) blocks scale_factor
    = Raise ZeroDivisionError
  ∧ assign_blocks_to_bands blocks [] scale_factor = Ok None
  ∧ assign_blocks_to_bands blocks (band :: bands) scale_factor
    = Raise ZeroDivisionError.
Proof using scale_zero.
  split; [reflexivity|]. split.
  { unfold filter_valid_controls. cbn [filterM]. rewrite size_ok_zero.
    reflexivity. }
  split.
  { unfold compute_control_features. rewrite !fdiv_zero by exact scale_zero.
    reflexivity. }
  split; [reflexivity|]. split.
  { unfold map_controls_to_blocks. cbn [mapM']. unfold map_control.
    rewrite !fdiv_zero by exact scale_zero. reflexivity. }
  split; [reflexivity|].
  unfold assign_blocks_to_bands. cbn [mapM']. unfold band_row.
  rewrite !fdiv_zero by exact scale_zero. reflexivity.
Qed.

End ZeroScale.

(** X23: with a scale factor of zero the conversions to points divide by
    zero: [filter_valid_controls] and [map_controls_to_blocks] raise
    [ZeroDivisionError] as soon as there is a control,
    [compute_control_features] raises, and [assign_blocks_to_bands] raises as
    soon as there is a band; on empty lists all three return normally. *)
Theorem zero_scale_factor_raises_on_the_first_item (scale_factor : Q)
    (c : Control) (controls : list Control) (blocks : list Block)
    (band : Band) (bands : list Band) (page_width min_size_pt : Q) :
  (scale_factor == 0)%Q →
  filter_valid_controls [] blocks scale_factor page_width min_size_pt = Ok []
  ∧ filter_valid_controls (c :: controls) blocks scale_factor page_width
      min_size_pt = Raise ZeroDivisionError
  ∧ compute_control_features c scale_factor = Raise ZeroDivisionError
  ∧ map_controls_to_blocks [] blocks scale_factor = Ok []
  ∧ map_controls_to_blocks (c :: controls) blocks scale_factor
    = Raise ZeroDivisionError
  ∧ assign_blocks_to_bands blocks [] scale_factor = Ok None
  ∧ assign_blocks_to_bands blocks (band :: bands) scale_factor
    = Raise ZeroDivisionError.
Proof. intros Hz. apply zero_scale_factor_cases, Hz. Qed.

Lemma zero_scale_factor_witness :
  (0 == 0)%Q
  ∧ filter_valid_controls [right_checkbox] [near_block] 0 595 10
    = Raise ZeroDivisionError
  ∧ assign_blocks_to_bands [near_block] [mkBand 100 120] 0
    = Raise ZeroDivisionError.
Proof.
  split; [reflexivity|].
  destruct (zero_scale_factor_raises_on_the_first_item 0 right_checkbox []
              [near_block] (mkBand 100 120) [] 595 10 ltac:(reflexivity))
    as (_ & Hfilter & _ & _ & _ & _ & Hbands).
  split; [exact Hfilter|exact Hbands].
Defined.

Section Summary.
Context `{UnicodeData}.

Lemma count_row_type_total k row_types :
  histogram_total (count_row_type k row_types) = S (histogram_total row_types).
Proof.
  unfold histogram_total, list_sum.
  induction row_types as [|[k' n] row_types IH]; [reflexivity|].
  cbn [count_row_type].
  destruct (row_type_key_eqb k k'); cbn [map snd fold_right].
  - reflexivity.
  - rewrite IH. lia.
Qed.

Lemma row_types_total (rows : list Row) :
  histogram_total
    (fold_left (λ row_types row, count_row_type (type row) row_types) rows [])
  = length rows.
Proof.
  enough (∀ acc,
            histogram_total
              (fold_left (λ row_types row, count_row_type (type row) row_types)
                 rows acc)
            = (histogram_total acc + length rows)%nat) as Hgen
    by (rewrite Hgen; reflexivity).
  induction rows as [|row rows IH]; intros acc; cbn [fold_left length].
  - lia.
  - rewrite IH, count_row_type_total. lia.
Qed.

Lemma fuse_page_summary page_num page_layout controls_data r :
  fuse_page page_num page_layout controls_data = Ok (record r) →
  sm_total_blocks (summary r) = length (t_blocks (text_part r))
  ∧ sm_total_controls (summary r) = length (items (controls r))
  ∧ sm_total_rows (summary r) = length (default [] (t_rows (text_part r)))
  ∧ sm_total_row_groups (summary r)
    = length (default [] (t_row_groups (text_part r)))
  ∧ match sm_row_types (summary r) with
    | Some row_types =>
        r_page_type r = pt_form
        ∧ histogram_total row_types = sm_total_rows (summary r)
    | None => r_page_type r ≠ pt_form ∧ sm_total_rows (summary r) = 0%nat
    end.
Proof.
  unfold fuse_page.
  destruct (filter_valid_controls _ _ _ _ _) as [valid|e]; [|discriminate].
  cbn [mbind result_bind].
  destruct (classify_page_type _ _ _ _ _) as [c|e]; [|discriminate].
  cbn [mbind result_bind].
  destruct (c_page_type c) eqn:Hc;
    try (intros [= <-]; cbn; repeat split; try reflexivity; discriminate).
  destruct (assign_blocks_to_bands _ _ _) as [visual_rows|e]; [|discriminate].
  cbn [mbind result_bind].
  destruct (match visual_rows with Some _ => _ | None => _ end)
    as [rows row_source].
  destruct (mapM' _ valid) as [all_controls|e]; [|discriminate].
  cbn [mbind result_bind].
  destruct (map_controls_to_blocks _ _ _) as [mapped|e]; [|discriminate].
  cbn [mbind result_bind]. intros [= <-].
  cbn [summary text_part controls sm_total_blocks sm_total_controls
         sm_total_rows sm_total_row_groups sm_row_types t_blocks t_rows
         t_row_groups items default r_page_type].
  repeat split; try reflexivity. apply row_types_total.
Qed.

End Summary.

(** X24: the summary of a page record agrees with the record: it counts the
    blocks, the control items, the rows and the row groups that the record
    lists (no rows or groups on a page that is not a form), and on a form
    page the counts of the row-type histogram add up to the number of
    rows. *)
Theorem summary_counts_agree_with_the_record `{UnicodeData} (doc : list Page)
    (page_num : Z) (r : PageRecord) :
  extract_combined doc page_num = Ok (record r) →
  sm_total_blocks (summary r) = length (t_blocks (text_part r))
  ∧ sm_total_controls (summary r) = length (items (controls r))
  ∧ sm_total_rows (summary r) = length (default [] (t_rows (text_part r)))
  ∧ sm_total_row_groups (summary r)
    = length (default [] (t_row_groups (text_part r)))
  ∧ match sm_row_types (summary r) with
    | Some row_types =>
        r_page_type r = pt_form
        ∧ histogram_total row_types = sm_total_rows (summary r)
    | None => r_page_type r ≠ pt_form ∧ sm_total_rows (summary r) = 0%nat
    end.
Proof.
  unfold extract_combined. cbv zeta.
  destruct (pages _) as [|page_layout rest]; [discriminate|].
  destruct (doc !! _) as [page|]; [|discriminate].
  apply fuse_page_summary.
Qed.

Lemma summary_counts_witness :
  ∃ r, @extract_combined ascii_data [banded_page] 1 = Ok (record r)
       ∧ sm_total_rows (summary r) = 3%nat
       ∧ sm_total_controls (summary r) = length (items (controls r))
       ∧ sm_total_rows (summary r) = length (default [] (t_rows (text_part r))).
Proof.
  destruct (@extract_combined ascii_data [banded_page] 1) as [[msg|r]|e]
    eqn:Hr; [vm_compute in Hr; discriminate| |vm_compute in Hr; discriminate].
  exists r. split; [reflexivity|].
  destruct (@summary_counts_agree_with_the_record ascii_data [banded_page] 1 r
              Hr) as (_ & Hcontrols & Hrows & _).
  split; [|split; [exact Hcontrols|exact Hrows]].
  vm_compute in Hr. injection Hr as <-. reflexivity.
Defined.

Section BandRows.
Local Open Scope Q_scope.

Lemma StronglySorted_map {A B} (R : A → A → Prop) (S : B → B → Prop)
    (f : A → B) l :
  (∀ a b, R a b → S (f a) (f b)) →
  StronglySorted R l → StronglySorted S (map f l).
Proof.
  intros HRS. induction 1 as [|a l Hl IH Ha]; cbn [map]; constructor;
    [exact IH|].
  apply Forall_map. eapply Forall_impl; [exact Ha|]. intros b. apply HRS.
Qed.

Lemma inject_Z_div_lt a b scale_factor :
  0 < scale_factor → (a < b)%Z →
  inject_Z a / scale_factor < inject_Z b / scale_factor.
Proof.
  intros Hsf Hab. unfold Qdiv. apply Qmult_lt_compat_r.
  - apply Qinv_lt_0_compat, Hsf.
  - rewrite <- Zlt_Qlt. exact Hab.
Qed.

Lemma row_of_band_elem blocks scale_factor band b :
  b ∈ ExtractLayout.blocks (row_of_band blocks scale_factor band) →
  b ∈ blocks ∧ in_band scale_factor band b = true.
Proof.
  unfold row_of_band. cbn [ExtractLayout.blocks]. rewrite sorted_perm.
  intros Hb. apply list_elem_of_In, filter_In in Hb as [Hb Hin].
  split; [apply list_elem_of_In, Hb|exact Hin].
Qed.

Lemma band_rows_ordered (image : Image) (min_gap min_row_height : Z)
    (blocks : list Block) (scale_factor : Q) (rows : list Row) :
  0 < scale_factor →
  assign_blocks_to_bands blocks
    (detect_row_bands image min_gap min_row_height) scale_factor
  = Ok (Some rows) →
  (1 ≤ length rows
   ≤ length (detect_row_bands image min_gap min_row_height))%nat
  ∧ Forall (λ row, source row = Some visual_band
                   ∧ ExtractLayout.blocks row ≠ []
                   ∧ y_min row <= y_max row
                   ∧ Forall (λ b, b ∈ blocks) (ExtractLayout.blocks row)) rows
  ∧ StronglySorted row_above rows.
Proof.
  intros Hsf Hrows. apply assign_blocks_to_bands_returns in Hrows.
  destruct (detect_row_bands_ordered min_gap min_row_height image)
    as [Hwithin Hsorted]. cbn zeta in Hwithin, Hsorted.
  set (bands := detect_row_bands image min_gap min_row_height) in *.
  pose proof (filter_sublist (occupied blocks scale_factor) bands) as Hsub.
  pose proof (filter_length_le (occupied blocks scale_factor) bands) as Hlen.
  assert (Forall (λ band, occupied blocks scale_factor band = true
                          ∧ (band_y0 band < band_y1 band)%Z)
            (List.filter (occupied blocks scale_factor) bands)) as Hocc.
  { apply Forall_forall. intros band Hband.
    apply list_elem_of_In, filter_In in Hband as [Hband Ho].
    split; [exact Ho|]. rewrite Forall_forall in Hwithin.
    apply list_elem_of_In, Hwithin in Hband. apply Hband. }
  pose proof (StronglySorted_sublist _ _ _ Hsub Hsorted) as Hsorted'.
  destruct (List.filter (occupied blocks scale_factor) bands)
    as [|band0 occ] eqn:Hfilter; [discriminate|].
  assert (rows = map (row_of_band blocks scale_factor) (band0 :: occ)) as ->
    by congruence.
  clear Hrows. rewrite length_map. split; [cbn [length] in *; lia|].
  split.
  - apply Forall_map. eapply Forall_impl; [exact Hocc|].
    intros band [Ho Hlt]. cbn beta.
    split; [reflexivity|]. split; [|split].
    + unfold row_of_band. cbn [ExtractLayout.blocks]. intros Hnil.
      apply (f_equal length) in Hnil.
      rewrite (Permutation_length (sorted_perm _ _)) in Hnil.
      unfold occupied in Ho. rewrite existsb_filter in Ho.
      destruct (List.filter (in_band scale_factor band) blocks);
        [discriminate|discriminate].
    + unfold row_of_band. cbn [y_min y_max]. apply round_to_mono.
      apply Qlt_le_weak, inject_Z_div_lt; assumption.
    + apply Forall_forall. intros b Hb.
      apply row_of_band_elem in Hb as [Hb _]. exact Hb.
  - eapply StronglySorted_map; [|exact Hsorted'].
    intros a b [Hab _]. split.
    + unfold row_of_band. cbn [y_min y_max]. apply round_to_mono.
      apply Qlt_le_weak, inject_Z_div_lt; assumption.
    + intros blk Ha Hb.
      apply row_of_band_elem in Ha as [_ Ha].
      apply row_of_band_elem in Hb as [_ Hb].
      unfold in_band in Ha, Hb.
      apply andb_true_iff in Ha as [_ Ha]. apply andb_true_iff in Hb as [Hb _].
      apply Qle_bool_iff in Ha, Hb.
      pose proof (inject_Z_div_lt _ _ _ Hsf Hab). lra.
Qed.

End BandRows.

(** X25: the rows [assign_blocks_to_bands] makes of the bands of
    [detect_row_bands] (positive scale factor): there is at least one and at
    most one per band; every row carries the source tag, is not empty, holds
    blocks of the page only and has [y_min] not above [y_max]; the rows come
    top to bottom ([y_max] of a row is at most [y_min] of any later one) and
    no block belongs to two rows. *)
Theorem band_rows_are_ordered_and_share_no_block (image : Image)
    (min_gap min_row_height : Z) (blocks : list Block) (scale_factor : Q)
    (rows : list Row) :
  (0 < scale_factor)%Q →
  assign_blocks_to_bands blocks
    (detect_row_bands image min_gap min_row_height) scale_factor
  = Ok (Some rows) →
  (1 ≤ length rows
   ≤ length (detect_row_bands image min_gap min_row_height))%nat
  ∧ Forall (λ row, source row = Some visual_band
                   ∧ ExtractLayout.blocks row ≠ []
                   ∧ (y_min row <= y_max row)%Q
                   ∧ Forall (λ b, b ∈ blocks) (ExtractLayout.blocks row)) rows
  ∧ StronglySorted row_above rows.
Proof. apply band_rows_ordered. Qed.

Lemma band_rows_witness :
  ∃ rows,
    (0 < 1)%Q
    ∧ assign_blocks_to_bands (page_blocks banded_page)
        (detect_row_bands banded_image 3 6) 1 = Ok (Some rows)
    ∧ length rows = 3%nat
    ∧ StronglySorted row_above rows.
Proof.
  destruct (assign_blocks_to_bands (page_blocks banded_page)
              (detect_row_bands banded_image 3 6) 1) as [[rows|]|e] eqn:Hrows;
    [|vm_compute in Hrows; discriminate|vm_compute in Hrows; discriminate].
  exists rows. split; [reflexivity|]. split; [reflexivity|].
  destruct (band_rows_are_ordered_and_share_no_block banded_image 3 6
              (page_blocks banded_page) 1 rows ltac:(reflexivity) Hrows)
    as (_ & _ & Hsorted).
  split; [|exact Hsorted].
  vm_compute in Hrows. injection Hrows as <-. reflexivity.
Defined.

(** ** Table regions (detect_controls.py) *)

Section LineGroups.
Local Open Scope Q_scope.

Lemma inject_Z_nonzero z : z ≠ 0%Z → ¬ inject_Z z == 0.
Proof.
  intros Hz H. apply Hz. unfold Qeq in H. cbn [Qnum Qden inject_Z] in H. lia.
Qed.

Lemma lines_overlap_x_ok line1 line2 min_pct :
  ∃ b, lines_overlap_x line1 line2 min_pct = Ok b.
Proof.
  unfold lines_overlap_x. cbv zeta.
  destruct (_ <=? _)%Z eqn:Hx; [eauto|]. apply Z.leb_gt in Hx.
  rewrite fdiv_ok; [cbn [mbind result_bind]; eauto|].
  apply inject_Z_nonzero. lia.
Qed.

Lemma lines_overlap_x_self line :
  (h_x0 line < h_x1 line)%Z → lines_overlap_x line line 0.3 = Ok true.
Proof.
  intros Hpos. unfold lines_overlap_x. cbv zeta.
  rewrite Z.max_id, !Z.min_id.
  destruct (_ <=? _)%Z eqn:Hx; [apply Z.leb_le in Hx; lia|].
  assert (¬ inject_Z (h_x1 line - h_x0 line) == 0) as Hnz
    by (apply inject_Z_nonzero; lia).
  rewrite fdiv_ok by exact Hnz. cbn [mbind result_bind].
  f_equal. apply Qgeb_ge. unfold Qdiv. rewrite Qmult_inv_r by exact Hnz.
  discriminate.
Qed.

Lemma anyM_ok {A} (f : A → result bool) xs :
  (∀ x, ∃ b, f x = Ok b) → ∃ b, anyM f xs = Ok b.
Proof.
  intros Hf. induction xs as [|x xs [b IH]]; cbn [anyM]; [eauto|].
  destruct (Hf x) as [[|] ->]; cbn [mbind result_bind]; eauto.
Qed.

Variable h_lines : list HLine.

Lemma join_group_ok line used group j :
  length used = length h_lines → (j < length h_lines)%nat →
  ∃ used' group',
    join_group h_lines line (used, group) j = Ok (used', group')
    ∧ length used' = length h_lines.
Proof.
  intros Hlen Hj. unfold join_group.
  destruct (lookup_lt_is_Some_2 used j ltac:(lia)) as [[|] ->]; [eauto|].
  destruct (anyM_ok (λ group_line, lines_overlap_x line group_line 0.3) group)
    as [[|] ->]; [intros; apply lines_overlap_x_ok| |];
    cbn [mbind result_bind]; [|eauto].
  destruct (lookup_lt_is_Some_2 h_lines j Hj) as [other ->].
  eexists _, _. split; [reflexivity|]. rewrite length_insert. exact Hlen.
Qed.

Lemma join_groups_ok line js used group :
  length used = length h_lines →
  Forall (λ j, (j < length h_lines)%nat) js →
  ∃ used' group',
    foldM (join_group h_lines line) js (used, group) = Ok (used', group')
    ∧ length used' = length h_lines.
Proof.
  intros Hlen Hjs. revert used group Hlen.
  induction Hjs as [|j js Hj _ IH]; intros used group Hlen; cbn [foldM];
    [eauto|].
  destruct (join_group_ok line used group j Hlen Hj)
    as (used1 & group1 & -> & Hlen1).
  cbn [mbind result_bind]. apply IH, Hlen1.
Qed.

Lemma seq_below k m n :
  (k + m ≤ n)%nat → Forall (λ j, (j < n)%nat) (seq k m).
Proof.
  intros Hle. apply Forall_forall. intros j Hj. apply elem_of_seq in Hj. lia.
Qed.

Lemma open_group_ok used h_groups i line :
  length used = length h_lines → (i < length h_lines)%nat →
  ∃ used' h_groups',
    open_group h_lines (used, h_groups) (i, line) = Ok (used', h_groups')
    ∧ length used' = length h_lines.
Proof.
  intros Hlen Hi. unfold open_group.
  destruct (lookup_lt_is_Some_2 used i ltac:(lia)) as [[|] ->]; [eauto|].
  destruct (join_groups_ok line (seq (S i) (length h_lines - S i))
              (<[i := true]> used) [line])
    as (used' & group' & -> & Hlen');
    [rewrite length_insert; exact Hlen|apply seq_below; lia|].
  cbn [mbind result_bind]. eauto.
Qed.

Lemma open_groups_ok seeds used h_groups :
  length used = length h_lines →
  Forall (λ seed : nat * HLine, (fst seed < length h_lines)%nat) seeds →
  ∃ used' h_groups',
    foldM (open_group h_lines) seeds (used, h_groups) = Ok (used', h_groups').
Proof.
  intros Hlen Hseeds. revert used h_groups Hlen.
  induction Hseeds as [|[i line] seeds Hi _ IH]; intros used h_groups Hlen;
    cbn [foldM]; [eauto|].
  destruct (open_group_ok used h_groups i line Hlen Hi)
    as (used1 & groups1 & -> & Hlen1).
  cbn [mbind result_bind]. apply IH, Hlen1.
Qed.

Lemma enumerate_below {A} (l : list A) :
  Forall (λ seed : nat * A, (fst seed < length l)%nat) (enumerate l).
Proof.
  unfold enumerate. apply Forall_forall. intros [i a] Hin.
  apply list_elem_of_In, in_combine_l, in_seq in Hin. cbn [fst]. lia.
Qed.

Lemma enumerate_lookup {A} (l : list A) :
  Forall (λ seed : nat * A, l !! fst seed = Some (snd seed)) (enumerate l).
Proof.
  unfold enumerate.
  enough (∀ k pre, length pre = k →
            Forall (λ seed : nat * A, (pre ++ l) !! fst seed = Some (snd seed))
              (combine (seq k (length l)) l)) as Hgen
    by (apply (Hgen 0%nat []); reflexivity).
  induction l as [|a l IH]; intros k pre Hk; cbn [length seq combine];
    [constructor|].
  constructor.
  - cbn [fst snd]. rewrite <- Hk. apply list_lookup_middle. reflexivity.
  - specialize (IH (S k) (pre ++ [a])). rewrite <- app_assoc in IH.
    apply IH. rewrite length_app. cbn [length]. lia.
Qed.

(** With a seed of positive length, the inner loop takes every line that
    is still free: the seed overlaps itself. *)
Lemma join_group_takes line m k :
  h_lines !! 0%nat = Some line →
  (h_x0 line < h_x1 line)%Z →
  (1 ≤ k)%nat → (k + S m = length h_lines)%nat →
  join_group h_lines line
    (replicate k true ++ replicate (S m) false, take k h_lines) k
  = Ok (replicate (S k) true ++ replicate m false, take (S k) h_lines).
Proof.
  intros Hline Hpos Hk Hlen. unfold join_group.
  rewrite lookup_app_r by (rewrite length_replicate; lia).
  rewrite length_replicate, Nat.sub_diag. cbn [replicate lookup list_lookup].
  assert (∃ others, take k h_lines = line :: others) as [others Htake].
  { destruct h_lines as [|l0 ls]; [discriminate|].
    injection Hline as ->. destruct k; [lia|]. cbn [take]. eauto. }
  rewrite Htake. cbn [anyM].
  rewrite (lines_overlap_x_self line Hpos). cbn [mbind result_bind].
  destruct (lookup_lt_is_Some_2 h_lines k ltac:(lia)) as [other Hother].
  rewrite Hother, <- Htake.
  assert (<[k := true]> (replicate k true ++ false :: replicate m false)
          = replicate (S k) true ++ replicate m false) as ->.
  { rewrite insert_app_r_alt by (rewrite length_replicate; lia).
    rewrite length_replicate, Nat.sub_diag. cbn [insert list_insert].
    rewrite replicate_S_end, <- app_assoc. reflexivity. }
  assert (take k h_lines ++ [other] = take (S k) h_lines) as ->
    by (symmetry; apply take_S_r, Hother).
  reflexivity.
Qed.

Lemma join_groups_takes_all line m k :
  h_lines !! 0%nat = Some line →
  (h_x0 line < h_x1 line)%Z →
  (1 ≤ k)%nat → (k + m = length h_lines)%nat →
  foldM (join_group h_lines line) (seq k m)
    (replicate k true ++ replicate m false, take k h_lines)
  = Ok (replicate (length h_lines) true, h_lines).
Proof.
  intros Hline Hpos. revert k.
  induction m as [|m IH]; intros k Hk Hlen; cbn [seq foldM].
  - rewrite Nat.add_0_r in Hlen. subst k. cbn [replicate].
    rewrite app_nil_r, firstn_all. reflexivity.
  - rewrite (join_group_takes line m k Hline Hpos Hk Hlen).
    cbn [mbind result_bind]. apply IH; lia.
Qed.

Lemma open_group_skip used h_groups i line :
  used !! i = Some true →
  open_group h_lines (used, h_groups) (i, line) = Ok (used, h_groups).
Proof. intros Hi. unfold open_group. rewrite Hi. reflexivity. Qed.

Lemma open_groups_skip seeds used h_groups :
  Forall (λ seed : nat * HLine, used !! fst seed = Some true) seeds →
  foldM (open_group h_lines) seeds (used, h_groups) = Ok (used, h_groups).
Proof.
  induction 1 as [|[i line] seeds Hi _ IH]; cbn [foldM]; [reflexivity|].
  cbn [fst] in Hi. rewrite (open_group_skip _ _ _ _ Hi).
  cbn [mbind result_bind]. exact IH.
Qed.

(** The first seed, of positive length, takes every line. *)
Lemma open_group_first line rest :
  h_lines = line :: rest →
  (h_x0 line < h_x1 line)%Z →
  open_group h_lines (replicate (length h_lines) false, []) (0%nat, line)
  = Ok (replicate (length h_lines) true, [h_lines]).
Proof.
  intros Hh Hpos. unfold open_group.
  assert (h_lines !! 0%nat = Some line) as Hline by (rewrite Hh; reflexivity).
  pose proof (join_groups_takes_all line (length rest) 1 Hline Hpos
                ltac:(lia) ltac:(rewrite Hh; cbn [length]; lia)) as Hall.
  rewrite Hh in *.
  replace (length (line :: rest) - 1)%nat with (length rest)
    by (cbn [length]; lia).
  cbn [length replicate lookup list_lookup]. cbn [insert list_insert].
  cbn [replicate take app length] in Hall.
  change (@take HLine 0 rest) with (@nil HLine) in Hall. rewrite Hall.
  reflexivity.
Qed.

End LineGroups.

Lemma find_table_regions_ok h_lines v_lines tolerance :
  ∃ regions, find_table_regions h_lines v_lines tolerance = Ok regions.
Proof.
  unfold find_table_regions.
  destruct h_lines as [|line rest]; [eauto|].
  destruct v_lines as [|v0 v_lines]; [eauto|].
  destruct (open_groups_ok (line :: rest) (enumerate (line :: rest))
              (replicate (length (line :: rest)) false) [])
    as (used & h_groups & ->);
    [apply length_replicate|apply enumerate_below|].
  cbn [mbind result_bind]. eauto.
Qed.

Lemma find_table_regions_one_group line rest v_lines tolerance :
  (h_x0 line < h_x1 line)%Z →
  find_table_regions (line :: rest) v_lines tolerance
  = Ok (match v_lines with
        | [] => []
        | _ => match region_of_group v_lines tolerance (line :: rest) with
               | Some r => [r]
               | None => []
               end
        end).
Proof.
  intros Hpos. unfold find_table_regions.
  destruct v_lines as [|v0 v_lines]; [reflexivity|].
  unfold enumerate. cbn [length seq combine foldM].
  pose proof (open_group_first (line :: rest) line rest eq_refl Hpos) as Hfirst.
  cbn [length] in Hfirst. rewrite Hfirst. cbn [mbind result_bind].
  rewrite (open_groups_skip (line :: rest)
             (combine (seq 1 (length rest)) rest)).
  - cbn [mbind result_bind app omap list_omap].
    destruct (region_of_group (v0 :: v_lines) tolerance (line :: rest));
      reflexivity.
  - apply Forall_forall. intros [i l] Hin.
    apply list_elem_of_In, in_combine_l, in_seq in Hin. cbn [fst].
    apply lookup_replicate_2. lia.
Qed.

Lemma region_of_group_spec v_lines tolerance h_group r :
  region_of_group v_lines tolerance h_group = Some r →
  reg_h_lines r = h_group
  ∧ reg_bbox r = lines_bbox h_group
  ∧ reg_v_lines r `sublist_of` v_lines
  ∧ (2 ≤ length h_group)%nat
  ∧ (2 ≤ length (reg_v_lines r))%nat.
Proof.
  unfold region_of_group. cbv zeta.
  destruct (length h_group <? 2)%nat eqn:Hh; [discriminate|].
  destruct (length (List.filter _ v_lines) <? 2)%nat eqn:Hv; [discriminate|].
  intros [= <-]. cbn [reg_h_lines reg_bbox reg_v_lines].
  apply Nat.ltb_ge in Hh, Hv.
  repeat split; try assumption; try reflexivity. apply filter_sublist.
Qed.

(** X26: [find_table_regions] never raises (the division in the overlap
    test has a positive divisor whenever it is reached).  When the first
    horizontal line has positive length it returns at most one region: all
    horizontal lines end up in the first line's group, because the test for
    joining a line to the group compares the group's first line with the
    group, so the region (if the lines are at least 2 and at least 2 vertical
    lines fall in its box) holds every horizontal line and has their bounding
    box. *)
Theorem find_table_regions_puts_all_lines_in_one_region
    (h_lines : list HLine) (v_lines : list VLine) (tolerance : Z) :
  (∃ regions, find_table_regions h_lines v_lines tolerance = Ok regions)
  ∧ ∀ line rest, h_lines = line :: rest → (h_x0 line < h_x1 line)%Z →
      ∃ regions,
        find_table_regions h_lines v_lines tolerance = Ok regions
        ∧ (length regions ≤ 1)%nat
        ∧ Forall (λ r, reg_h_lines r = h_lines
                       ∧ reg_bbox r = lines_bbox h_lines
                       ∧ reg_v_lines r `sublist_of` v_lines
                       ∧ (2 ≤ length h_lines)%nat
                       ∧ (2 ≤ length (reg_v_lines r))%nat) regions.
Proof.
  split; [apply find_table_regions_ok|].
  intros line rest -> Hpos.
  rewrite (find_table_regions_one_group line rest v_lines tolerance Hpos).
  eexists. split; [reflexivity|].
  destruct v_lines as [|v0 v_lines]; [split; [cbn; lia|constructor]|].
  destruct (region_of_group _ _ _) as [r|] eqn:Hr;
    [|split; [cbn; lia|constructor]].
  split; [cbn; lia|]. constructor; [|constructor].
  apply region_of_group_spec in Hr. exact Hr.
Qed.

(** X27: [build_table_grids] never raises, and when the first horizontal
    line has positive length it returns at most one grid: the cell grid of
    all horizontal lines and the vertical lines of their region, with the
    bounding box of the horizontal lines as its region box. *)
Theorem build_table_grids_builds_at_most_one_grid (h_lines : list HLine)
    (v_lines : list VLine) (tolerance : Z) :
  (∃ grids, build_table_grids h_lines v_lines tolerance = Ok grids)
  ∧ ∀ line rest, h_lines = line :: rest → (h_x0 line < h_x1 line)%Z →
      ∃ grids,
        build_table_grids h_lines v_lines tolerance = Ok grids
        ∧ (length grids ≤ 1)%nat
        ∧ Forall (λ tg,
              region_bbox tg = lines_bbox h_lines
              ∧ ∃ region_v_lines,
                  region_v_lines `sublist_of` v_lines
                  ∧ build_cell_grid_from_lines h_lines region_v_lines
                      tolerance = Some (tg_grid tg)) grids.
Proof.
  split.
  - unfold build_table_grids.
    destruct (find_table_regions_ok h_lines v_lines tolerance) as [regions ->].
    eauto.
  - intros line rest -> Hpos. unfold build_table_grids.
    rewrite (find_table_regions_one_group line rest v_lines tolerance Hpos).
    eexists. split; [reflexivity|].
    destruct v_lines as [|v0 v_lines]; [split; [cbn; lia|constructor]|].
    destruct (region_of_group _ _ _) as [r|] eqn:Hr;
      [|split; [cbn; lia|constructor]].
    apply region_of_group_spec in Hr as (Hh & Hb & Hv & _).
    cbn [omap list_omap].
    destruct (build_cell_grid_from_lines _ _ _) as [grid|] eqn:Hgrid;
      cbn [fmap option_fmap option_map]; [|split; [cbn; lia|constructor]].
    split; [cbn; lia|]. constructor; [|constructor].
    cbn [region_bbox tg_grid]. split; [exact Hb|].
    exists (reg_v_lines r). split; [exact Hv|]. rewrite <- Hh. exact Hgrid.
Qed.

(** ** Text blocks of a page (extract_layout.py) *)

Section JoinTexts.

Lemma join_texts_cons t u rest :
  join_texts (t :: u :: rest) = t ++ [32%N] ++ join_texts (u :: rest).
Proof. reflexivity. Qed.

Lemma join_texts_merge t u rest :
  join_texts ((t ++ [32%N] ++ u) :: rest) = join_texts (t :: u :: rest).
Proof.
  rewrite join_texts_cons. destruct rest as [|v rest].
  - reflexivity.
  - rewrite !join_texts_cons, <- !app_assoc. reflexivity.
Qed.

Lemma join_texts_prefix prefix l l' :
  l ≠ [] → l' ≠ [] → join_texts l = join_texts l' →
  join_texts (prefix ++ l) = join_texts (prefix ++ l').
Proof.
  intros Hl Hl' Heq. induction prefix as [|t prefix IH]; [exact Heq|].
  cbn [app].
  destruct (prefix ++ l) as [|u m] eqn:Hm;
    [destruct prefix; [contradiction|discriminate]|].
  destruct (prefix ++ l') as [|u' m'] eqn:Hm';
    [destruct prefix; [contradiction|discriminate]|].
  rewrite !join_texts_cons, IH. reflexivity.
Qed.

End JoinTexts.

Section Continuation.
Context `{UnicodeData}.
Variables y_gap_threshold x_tolerance : Q.

Lemma merge_continuation_loop_spec rest merged current :
  let result :=
    merge_continuation_loop y_gap_threshold x_tolerance rest merged current in
  (length merged + 1 ≤ length result ≤ length merged + 1 + length rest)%nat
  ∧ join_texts (map text result)
    = join_texts (map text (merged ++ current :: rest))
  ∧ ∃ kept, map block_frame result
            = map block_frame merged ++ block_frame current :: kept
            ∧ kept `sublist_of` map block_frame rest.
Proof.
  cbn zeta. revert merged current.
  induction rest as [|block rest IH]; intros merged current;
    cbn [merge_continuation_loop].
  - split; [rewrite length_app; cbn [length]; lia|]. split; [reflexivity|].
    exists []. rewrite map_app. split; [reflexivity|constructor].
  - cbv zeta. destruct (_ && _ && _ && _).
    + destruct (IH merged
                  {| text := text current ++ [32%N] ++ text block;
                     bbox := mkBBox (x0 (bbox current)) (y0 (bbox current))
                               (max2 (x1 (bbox current)) (x1 (bbox block)))
                               (y1 (bbox block));
                     font_size := font_size current;
                     font_name := font_name current;
                     is_bold := is_bold current;
                     id := id current |})
        as (Hlen & Hjoin & kept & Hframes & Hsub).
      split; [cbn [length]; lia|]. split.
      * rewrite Hjoin, !map_app. cbn [map text].
        apply join_texts_prefix; [discriminate|discriminate|].
        apply join_texts_merge.
      * exists kept. split; [exact Hframes|]. cbn [map].
        apply sublist_cons, Hsub.
    + destruct (IH (merged ++ [current]) block)
        as (Hlen & Hjoin & kept & Hframes & Hsub).
      rewrite length_app in Hlen. cbn [length] in Hlen.
      split; [cbn [length]; lia|]. split.
      * rewrite Hjoin, <- app_assoc. reflexivity.
      * exists (block_frame block :: kept).
        rewrite Hframes, map_app, <- app_assoc. split; [reflexivity|].
        cbn [map]. apply sublist_skip, Hsub.
Qed.

Lemma merge_continuation_blocks_spec (bs : list Block) :
  let merged := merge_continuation_blocks bs y_gap_threshold x_tolerance in
  (length merged ≤ length bs)%nat
  ∧ (bs ≠ [] → merged ≠ [])
  ∧ join_texts (map text merged) = join_texts (map text bs)
  ∧ map block_frame merged `sublist_of` map block_frame bs
  ∧ head (map block_frame merged) = head (map block_frame bs).
Proof.
  cbn zeta. unfold merge_continuation_blocks.
  destruct bs as [|first [|second rest]].
  - split; [reflexivity|]. split; [tauto|]. split; [reflexivity|].
    split; [constructor|reflexivity].
  - split; [reflexivity|]. split; [tauto|]. split; [reflexivity|].
    split; [apply sublist_skip; constructor|reflexivity].
  - destruct (merge_continuation_loop_spec (second :: rest) [] first)
      as (Hlen & Hjoin & kept & Hframes & Hsub).
    cbn zeta in Hlen, Hjoin, Hframes. cbn [length app map] in *.
    split; [lia|]. split.
    { intros _ Hnil. rewrite Hnil in Hlen. cbn [length] in Hlen. lia. }
    split; [exact Hjoin|]. rewrite Hframes.
    split; [apply sublist_skip, Hsub|reflexivity].
Qed.

End Continuation.

(** X28: [merge_continuation_blocks] only glues neighbours: it returns at
    most as many blocks as it got, and at least one when it got one; the
    texts of its blocks joined by a space are the texts of the input joined
    by a space (no text is lost, reordered or changed); every block it
    returns starts where an input block starts and keeps that block's font
    and id, in the input order, the first one being the first input block;
    fewer than two blocks are returned as they are. *)
Theorem merge_continuation_blocks_only_glues_neighbours `{UnicodeData}
    (bs : list Block) (y_gap_threshold x_tolerance : Q) :
  let merged := merge_continuation_blocks bs y_gap_threshold x_tolerance in
  (length merged ≤ length bs)%nat
  ∧ (bs ≠ [] → merged ≠ [])
  ∧ ((length bs < 2)%nat → merged = bs)
  ∧ join_texts (map text merged) = join_texts (map text bs)
  ∧ map block_frame merged `sublist_of` map block_frame bs
  ∧ head (map block_frame merged) = head (map block_frame bs).
Proof.
  destruct (merge_continuation_blocks_spec y_gap_threshold x_tolerance bs)
    as (Hlen & Hne & Hjoin & Hsub & Hhead).
  cbn zeta in *. repeat (split; [assumption|]).
  split; [|repeat split; assumption].
  destruct bs as [|first [|second rest]]; cbn [length]; intros Hlt;
    [reflexivity|reflexivity|lia].
Qed.

Section PairOrder.
Local Open Scope Q_scope.

Lemma Qpair_leb_le p q : Qpair_leb p q = true ↔ pair_le p q.
Proof.
  unfold Qpair_leb, pair_le.
  rewrite orb_true_iff, andb_true_iff, Qltb_lt, Qeq_bool_iff, Qle_bool_iff.
  reflexivity.
Qed.

Lemma Qpair_leb_total p q : Qpair_leb p q = false → Qpair_leb q p = true.
Proof.
  intros Hpq. apply Qpair_leb_le.
  assert (¬ pair_le p q) as Hn
    by (rewrite <- Qpair_leb_le; congruence).
  unfold pair_le in *.
  destruct (Qlt_le_dec (fst q) (fst p)) as [Hlt|Hle]; [left; exact Hlt|].
  right. destruct (Qlt_le_dec (fst p) (fst q)) as [Hlt'|Hle'];
    [exfalso; apply Hn; left; exact Hlt'|].
  assert (fst q == fst p) as Heq by (apply Qle_antisym; assumption).
  split; [exact Heq|].
  destruct (Qlt_le_dec (snd p) (snd q)) as [Hs|Hs]; [|exact Hs].
  exfalso. apply Hn. right. split; [symmetry; exact Heq|].
  apply Qlt_le_weak, Hs.
Qed.

Lemma pair_le_trans p q r : pair_le p q → pair_le q r → pair_le p r.
Proof.
  unfold pair_le. intros [H1|[H1 H1']] [H2|[H2 H2']].
  - left. eapply Qlt_trans; eassumption.
  - left. rewrite <- H2. exact H1.
  - left. rewrite H1. exact H2.
  - right. split; [rewrite H1; exact H2|eapply Qle_trans; eassumption].
Qed.

Lemma Qpair_leb_trans p q r :
  Qpair_leb p q = true → Qpair_leb q r = true → Qpair_leb p r = true.
Proof. rewrite !Qpair_leb_le. apply pair_le_trans. Qed.

(** Sorting by a tuple key puts the keys in order. *)
Lemma sort_by_pair_sorted {A} (key : A → Q * Q) l :
  StronglySorted pair_le (map key (sort_by Qpair_leb key l)).
Proof.
  eapply StronglySorted_map;
    [|apply (sort_by_sorted Qpair_leb key Qpair_leb_total Qpair_leb_trans)].
  intros a b Hab. apply Qpair_leb_le, Hab.
Qed.

End PairOrder.

Lemma StronglySorted_map_inv {A B} (R : B → B → Prop) (f : A → B) l :
  StronglySorted R (map f l) → StronglySorted (λ a b, R (f a) (f b)) l.
Proof.
  induction l as [|a l IH]; cbn [map]; intros Hl; [constructor|].
  apply StronglySorted_inv in Hl as [Hl Ha].
  constructor; [apply IH, Hl|]. apply Forall_forall. intros b Hb.
  rewrite Forall_forall in Ha. apply Ha.
  apply (list_elem_of_fmap_2 f) in Hb. exact Hb.
Qed.

Lemma sublist_map {A B} (f : A → B) l1 l2 :
  l1 `sublist_of` l2 → map f l1 `sublist_of` map f l2.
Proof.
  induction 1 as [|x l1 l2 _ IH|x l1 l2 _ IH]; cbn [map].
  - constructor.
  - apply sublist_skip, IH.
  - apply sublist_cons, IH.
Qed.

Section Trimmed.
Context `{UnicodeData}.

Lemma lstrip_cases s :
  lstrip s = [] ∨ ∃ c u, lstrip s = c :: u ∧ isspace c = false.
Proof.
  induction s as [|c s IH]; cbn [lstrip]; [left; reflexivity|].
  destruct (isspace c) eqn:Hc; [exact IH|]. right. eauto.
Qed.

Lemma lstrip_suffix s : ∃ pre, s = pre ++ lstrip s.
Proof.
  induction s as [|c s [pre IH]]; cbn [lstrip]; [exists []; reflexivity|].
  destruct (isspace c).
  - exists (c :: pre). cbn [app]. rewrite <- IH. reflexivity.
  - exists []. reflexivity.
Qed.

Lemma lstrip_id c s : isspace c = false → lstrip (c :: s) = c :: s.
Proof. intros Hc. cbn [lstrip]. rewrite Hc. reflexivity. Qed.

Lemma strip_trimmed t : strip t ≠ [] → trimmed (strip t).
Proof.
  unfold strip, rstrip. set (w := lstrip t). set (v := lstrip (rev w)).
  intros Hne. unfold trimmed. rewrite rev_involutive. split.
  - destruct (lstrip_suffix (rev w)) as [pre Hpre]. fold v in Hpre.
    apply (f_equal (@rev N)) in Hpre.
    rewrite rev_involutive, rev_app_distr in Hpre.
    destruct (rev v) as [|c' u'] eqn:Hv; [contradiction|].
    destruct (lstrip_cases t) as [Hw|(c & u & Hw & Hc)]; fold w in Hw.
    + rewrite Hw in Hpre. discriminate.
    + rewrite Hw in Hpre. cbn [app] in Hpre. injection Hpre as -> _.
      exact Hc.
  - destruct (lstrip_cases (rev w)) as [Hv|(c & u & Hv & Hc)]; fold v in Hv.
    + rewrite Hv in Hne. contradiction.
    + rewrite Hv. exact Hc.
Qed.

Lemma trimmed_join a b : trimmed a → trimmed b → trimmed (a ++ [32%N] ++ b).
Proof.
  intros [Ha _] [_ Hb]. split.
  - destruct a as [|c a]; [contradiction|]. exact Ha.
  - rewrite !rev_app_distr. destruct (rev b) as [|c u]; [contradiction|].
    exact Hb.
Qed.

Lemma trimmed_strip s : trimmed s → s ≠ [] ∧ strip s = s.
Proof.
  intros [Hhead Hlast]. split; [destruct s; [contradiction|discriminate]|].
  unfold strip, rstrip. destruct s as [|c s]; [contradiction|].
  rewrite (lstrip_id c s Hhead).
  destruct (rev (c :: s)) as [|d u] eqn:Hrev; [contradiction|].
  rewrite (lstrip_id d u Hlast), <- Hrev. apply rev_involutive.
Qed.

Lemma merge_continuation_loop_trimmed y_gap_threshold x_tolerance rest merged
    current :
  Forall (λ b, trimmed (text b)) (merged ++ current :: rest) →
  Forall (λ b, trimmed (text b))
    (merge_continuation_loop y_gap_threshold x_tolerance rest merged current).
Proof.
  revert merged current.
  induction rest as [|block rest IH]; intros merged current Hall;
    cbn [merge_continuation_loop]; [exact Hall|].
  apply Forall_app in Hall as [Hmerged Hall].
  apply Forall_cons in Hall as [Hcurrent Hall].
  apply Forall_cons in Hall as [Hblock Hrest].
  cbv zeta. destruct (_ && _ && _ && _); apply IH.
  - apply Forall_app. split; [exact Hmerged|].
    constructor; [|exact Hrest]. cbn [text]. apply trimmed_join; assumption.
  - rewrite <- app_assoc. apply Forall_app. split; [exact Hmerged|].
    constructor; [exact Hcurrent|]. constructor; assumption.
Qed.

Lemma merge_continuation_blocks_trimmed bs y_gap_threshold x_tolerance :
  Forall (λ b, trimmed (text b)) bs →
  Forall (λ b, trimmed (text b))
    (merge_continuation_blocks bs y_gap_threshold x_tolerance).
Proof.
  intros Hall. unfold merge_continuation_blocks.
  destruct bs as [|first [|second rest]]; [exact Hall|exact Hall|].
  apply merge_continuation_loop_trimmed. exact Hall.
Qed.

Variable lower : string → string.

Lemma to_block_trimmed s b : to_block lower s = Some b → trimmed (text b).
Proof.
  unfold to_block. destruct (strip (ls_text s)) as [|c u] eqn:Hs;
    [discriminate|].
  intros [= <-]. cbn [text]. rewrite <- Hs. apply strip_trimmed.
  rewrite Hs. discriminate.
Qed.

Lemma merge_spans_loop_length rest blocks current :
  (length (merge_spans_loop rest blocks current)
   ≤ length blocks + 1 + length rest)%nat.
Proof.
  revert blocks current.
  induction rest as [|span rest IH]; intros blocks current;
    cbn [merge_spans_loop length].
  - rewrite length_app. cbn [length]. lia.
  - cbv zeta. destruct (_ && _).
    + etransitivity; [apply IH|]. lia.
    + etransitivity; [apply IH|]. rewrite length_app. cbn [length]. lia.
Qed.

Lemma merge_spans_length raw_spans :
  (length (merge_spans raw_spans) ≤ length raw_spans)%nat.
Proof.
  destruct raw_spans as [|first rest]; [reflexivity|]. cbn [merge_spans].
  etransitivity; [apply merge_spans_loop_length|]. cbn [length]. lia.
Qed.

Lemma collect_spans_length data :
  (length (collect_spans data) ≤ length (text_spans data))%nat.
Proof.
  unfold collect_spans, text_spans.
  induction data as [|block data IH]; [reflexivity|].
  cbn [map concat]. rewrite !length_app.
  apply Nat.add_le_mono; [|exact IH].
  destruct (item_type block =? 0)%Z; [|reflexivity].
  induction (lines block) as [|line ls IHl]; [reflexivity|].
  cbn [map concat]. rewrite !length_app.
  apply Nat.add_le_mono; [apply omap_length_le|exact IHl].
Qed.

Lemma assign_ids_spec (bs : list Block) :
  let result := map (λ '(i, block), set_id block i) (enumerate bs) in
  map id result = seq 0 (length result)
  ∧ map text result = map text bs
  ∧ map reading_key result = map reading_key bs.
Proof.
  cbn zeta. unfold enumerate.
  enough (∀ k,
            let result :=
              map (λ '(i, block), set_id block i)
                (combine (seq k (length bs)) bs) in
            map id result = seq k (length result)
            ∧ map text result = map text bs
            ∧ map reading_key result = map reading_key bs) as Hgen
    by apply (Hgen 0%nat).
  induction bs as [|b bs IH]; intros k; cbn [length seq combine map];
    [repeat split|].
  destruct (IH (S k)) as (Hid & Htext & Hkey). cbn zeta in Hid, Htext, Hkey.
  cbn [set_id id text]. rewrite Hid, Htext.
  unfold reading_key at 1 3. cbn [set_id bbox]. rewrite Hkey.
  repeat split.
Qed.

Lemma extract_page_blocks_spec (data : list PageItem) :
  let result := extract_page_blocks lower data in
  map id result = seq 0 (length result)
  ∧ StronglySorted reading_order result
  ∧ Forall (λ b, text b ≠ [] ∧ strip (text b) = text b) result
  ∧ (length result ≤ length (text_spans data))%nat.
Proof.
  cbn zeta. unfold extract_page_blocks. cbv zeta.
  set (raw_spans := sort_by Qpair_leb _ (collect_spans data)).
  set (converted := omap (to_block lower) (merge_spans raw_spans)).
  set (ordered := sort_by Qpair_leb _ converted).
  set (merged := merge_continuation_blocks ordered 15 5).
  destruct (assign_ids_spec merged) as (Hid & Htext & Hkey).
  cbn zeta in Hid, Htext, Hkey.
  destruct (merge_continuation_blocks_spec 15 5 ordered)
    as (Hlen & _ & _ & Hsub & _). cbn zeta in Hlen, Hsub. fold merged in Hlen, Hsub.
  split; [exact Hid|]. split; [|split].
  - apply (StronglySorted_map_inv pair_le reading_key). rewrite Hkey.
    apply (StronglySorted_sublist _ _ (map reading_key ordered)).
    + replace (map reading_key merged)
        with (map (λ f : Q * Q * Q * string * bool * nat,
                     (f.1.1.1.1.2, f.1.1.1.1.1)) (map block_frame merged))
        by (rewrite map_map; reflexivity).
      replace (map reading_key ordered)
        with (map (λ f : Q * Q * Q * string * bool * nat,
                     (f.1.1.1.1.2, f.1.1.1.1.1)) (map block_frame ordered))
        by (rewrite map_map; reflexivity).
      apply sublist_map, Hsub.
    + apply (sort_by_pair_sorted reading_key).
  - assert (Forall (λ b, trimmed (text b)) converted) as Hconv.
    { apply Forall_forall. intros b Hb. subst converted.
      apply list_elem_of_omap in Hb as (s & _ & Hb).
      eapply to_block_trimmed, Hb. }
    assert (Forall (λ b, trimmed (text b)) ordered) as Hord.
    { apply Forall_forall. intros b Hb. subst ordered.
      rewrite sort_by_perm in Hb. rewrite Forall_forall in Hconv.
      apply Hconv, Hb. }
    pose proof (merge_continuation_blocks_trimmed ordered 15 5 Hord) as Hm.
    fold merged in Hm.
    apply (Forall_map text (λ t, t ≠ [] ∧ strip t = t)). rewrite Htext.
    apply Forall_map. eapply Forall_impl; [exact Hm|].
    intros b Hb. apply trimmed_strip, Hb.
  - rewrite length_map. unfold enumerate.
    rewrite length_combine, length_seq, Nat.min_id.
    etransitivity; [exact Hlen|]. subst ordered.
    rewrite (Permutation_length (sort_by_perm _ _ _)). subst converted.
    etransitivity; [apply omap_length_le|].
    etransitivity; [apply merge_spans_length|]. subst raw_spans.
    rewrite (Permutation_length (sort_by_perm _ _ _)).
    apply collect_spans_length.
Qed.

End Trimmed.

(** X29: the blocks [extract_page_blocks] returns carry the ids 0, 1, 2,
    ... in order; they are in reading order (by top edge, then by left
    edge); every block has a text that is not empty and neither starts nor
    ends with white space; and there are at most as many blocks as the text
    blocks of the page have spans. *)
Theorem extract_page_blocks_are_numbered_in_reading_order `{UnicodeData}
    (lower : string → string) (data : list PageItem) :
  let result := extract_page_blocks lower data in
  map id result = seq 0 (length result)
  ∧ StronglySorted reading_order result
  ∧ Forall (λ b, text b ≠ [] ∧ strip (text b) = text b) result
  ∧ (length result ≤ length (text_spans data))%nat.
Proof. apply extract_page_blocks_spec. Qed.

Lemma find_table_regions_witness :
  ∃ r,
    find_table_regions side_by_side_h side_by_side_v 10 = Ok [r]
    ∧ reg_h_lines r = side_by_side_h
    ∧ reg_v_lines r = side_by_side_v
    ∧ reg_bbox r = mkBBox 0%Z 0%Z 400%Z 50%Z.
Proof.
  destruct (find_table_regions_puts_all_lines_in_one_region side_by_side_h
              side_by_side_v 10) as [_ Hone].
  destruct (Hone (mkHLine 0 0 100)
              [mkHLine 0 300 400; mkHLine 50 0 100; mkHLine 50 300 400]
              eq_refl ltac:(reflexivity)) as (regions & Hregions & _ & Hall).
  assert (∃ r, regions = [r] ∧ reg_v_lines r = side_by_side_v) as (r & -> & Hv).
  { vm_compute in Hregions. injection Hregions as <-. eexists.
    split; reflexivity. }
  exists r. split; [exact Hregions|].
  apply Forall_cons in Hall as [(Hh & Hb & _) _].
  split; [exact Hh|]. split; [exact Hv|]. rewrite Hb. reflexivity.
Defined.

Lemma build_table_grids_witness :
  ∃ tg,
    build_table_grids side_by_side_h side_by_side_v 10 = Ok [tg]
    ∧ region_bbox tg = mkBBox 0%Z 0%Z 400%Z 50%Z
    ∧ (num_rows (tg_grid tg), num_cols (tg_grid tg)) = (1, 3)%nat.
Proof.
  destruct (build_table_grids_builds_at_most_one_grid side_by_side_h
              side_by_side_v 10) as [_ Hone].
  destruct (Hone (mkHLine 0 0 100)
              [mkHLine 0 300 400; mkHLine 50 0 100; mkHLine 50 300 400]
              eq_refl ltac:(reflexivity)) as (grids & Hgrids & _ & Hall).
  assert (∃ tg, grids = [tg]
                ∧ (num_rows (tg_grid tg), num_cols (tg_grid tg)) = (1, 3)%nat)
    as (tg & -> & Hshape).
  { vm_compute in Hgrids. injection Hgrids as <-. eexists.
    split; reflexivity. }
  exists tg. split; [exact Hgrids|].
  apply Forall_cons in Hall as [(Hb & _) _].
  split; [rewrite Hb; reflexivity|exact Hshape].
Defined.

(** ** The combined extraction, again (combined_extractor.py) *)

Section Header.
Context `{UnicodeData}.

Lemma fuse_page_header page_num page_layout controls_data r :
  fuse_page page_num page_layout controls_data = Ok (record r) →
  page_number r = page_num
  ∧ dimensions r = (pl_width page_layout, pl_height page_layout)
  ∧ t_blocks (text_part r) = pl_blocks page_layout
  ∧ t_columns (text_part r) = pl_columns page_layout
  ∧ t_stats (text_part r) = pl_stats page_layout
  ∧ r_page_type r = c_page_type (classification r)
  ∧ cp_scale_factor (controls r) = scale_factor controls_data.
Proof.
  unfold fuse_page.
  destruct (filter_valid_controls _ _ _ _ _) as [valid|e]; [|discriminate].
  cbn [mbind result_bind].
  destruct (classify_page_type _ _ _ _ _) as [c|e]; [|discriminate].
  cbn [mbind result_bind].
  destruct (c_page_type c) eqn:Hc;
    try (intros [= <-]; cbn; repeat split; try reflexivity; symmetry;
         exact Hc).
  destruct (assign_blocks_to_bands _ _ _) as [visual_rows|e]; [|discriminate].
  cbn [mbind result_bind].
  destruct (match visual_rows with Some _ => _ | None => _ end)
    as [rows row_source].
  destruct (mapM' _ valid) as [all_controls|e]; [|discriminate].
  cbn [mbind result_bind].
  destruct (map_controls_to_blocks _ _ _) as [mapped|e]; [|discriminate].
  cbn [mbind result_bind]. intros [= <-]. cbn.
  repeat split; try reflexivity. symmetry. exact Hc.
Qed.

Lemma extract_combined_record doc page_num page :
  (1 ≤ page_num)%Z →
  doc !! Z.to_nat (page_num - 1) = Some page →
  (5 ≤ height (rendering page))%Z →
  page_blocks page = []
  ∨ ¬ (round_to 2 (rect_width page) * round_to 2 (rect_height page) / 10000
       == 0)%Q →
  ∃ r, extract_combined doc page_num = Ok (record r)
       ∧ page_number r = page_num
       ∧ dimensions r
         = (round_to 2 (rect_width page), round_to 2 (rect_height page))
       ∧ t_blocks (text_part r) = page_blocks page
       ∧ r_page_type r = c_page_type (classification r)
       ∧ cp_scale_factor (controls r)
         = round_to 2 (inject_Z (height (rendering page)) / 842)%Q.
Proof.
  intros Hn Hpage Hheight Harea.
  destruct (extract_combined_returns doc page_num page Hn Hpage Hheight Harea)
    as [r Hr].
  exists r. split; [exact Hr|].
  rewrite (extract_combined_in_range doc page_num page Hn Hpage) in Hr.
  apply fuse_page_header in Hr
    as (Hnum & Hdim & Hblocks & _ & _ & Htype & Hscale).
  repeat split; assumption.
Qed.

End Header.

(** X30: for a page of the document (page numbers from 1) that is rendered
    at least 5 pixels high and has no block or a page area that is not zero,
    [extract_combined] does not raise: it returns a page record with that
    page number, the page's rounded width and height, the page's blocks, the
    page type of its classification and the rounded scale factor
    height / 842. *)
Theorem extract_combined_returns_a_record_for_a_page `{UnicodeData}
    (doc : list Page) (page_num : Z) (page : Page) :
  (1 ≤ page_num)%Z →
  doc !! Z.to_nat (page_num - 1) = Some page →
  (5 ≤ height (rendering page))%Z →
  page_blocks page = []
  ∨ ¬ (round_to 2 (rect_width page) * round_to 2 (rect_height page) / 10000
       == 0)%Q →
  ∃ r, extract_combined doc page_num = Ok (record r)
       ∧ page_number r = page_num
       ∧ dimensions r
         = (round_to 2 (rect_width page), round_to 2 (rect_height page))
       ∧ t_blocks (text_part r) = page_blocks page
       ∧ r_page_type r = c_page_type (classification r)
       ∧ cp_scale_factor (controls r)
         = round_to 2 (inject_Z (height (rendering page)) / 842)%Q.
Proof. apply extract_combined_record. Qed.

Lemma extract_combined_returns_witness :
  (1 ≤ 1)%Z
  ∧ [sparse_page] !! Z.to_nat (1 - 1) = Some sparse_page
  ∧ (5 ≤ height (rendering sparse_page))%Z
  ∧ ¬ (round_to 2 (rect_width sparse_page)
       * round_to 2 (rect_height sparse_page) / 10000 == 0)%Q
  ∧ ∃ r, @extract_combined ascii_data [sparse_page] 1 = Ok (record r)
         ∧ page_number r = 1%Z
         ∧ t_blocks (text_part r) = page_blocks sparse_page.
Proof.
  assert (1 ≤ 1)%Z as Hn by lia.
  assert ([sparse_page] !! Z.to_nat (1 - 1) = Some sparse_page) as Hpage
    by reflexivity.
  assert (5 ≤ height (rendering sparse_page))%Z as Hheight by discriminate.
  assert (¬ (round_to 2 (rect_width sparse_page)
             * round_to 2 (rect_height sparse_page) / 10000 == 0)%Q) as Harea
    by discriminate.
  repeat (split; [assumption|]).
  pose proof (@extract_combined_returns_a_record_for_a_page ascii_data
                [sparse_page] 1 sparse_page Hn Hpage Hheight
                (or_intror Harea)) as Hrecord.
  destruct Hrecord as (r & Hr & Hnum & _ & Hblocks & _).
  exists r. split; [exact Hr|]. split; [exact Hnum|exact Hblocks].
Defined.
